(** * Warpmail: the thread-ingestion pipeline of [ReceiverService]

    A shallow embedding of [apps/api/src/receiver/receiver.service.ts]
    (and of the control skeleton of [AgentsService.autoAnnotate], which the
    receiver awaits) together with the properties of the pipeline: the
    admission gate, thread discovery and its pagination cursor, batch
    fetching, dispatch, and the retry / dead-letter decision.

    Asynchronous methods are embedded in a small state-and-exception monad
    over a [World]: the fields of the service instance, the Redis cursor
    store, the state of the remote collaborators and the chronological
    trace of every call that left the process.

    Conventions of the embedding:
    - the mailbox, the database, the two downstream services and the bus
      are oracles ([Collab]): a call may resolve or reject, and moves the
      collaborators to a next state;
    - the cursor store is a finite map whose commands succeed;
    - one handler runs without interruption between two [await]s; the
      interleaving of several handlers is the relation [turn];
    - the promises of a [Promise.all] are run in the order in which they
      are started;
    - the [while] loop of [fetchNewThreads] runs on fuel, and [OutOfFuel]
      stands for a handler that has not settled. *)

From stdpp Require Import gmap strings list.
From Stdlib Require Import ZArith Lia.

Open Scope string_scope.
Open Scope list_scope.
Open Scope Z_scope.

(** ** Constants of the service *)

Definition BATCH_SIZE : nat := 100.
Definition MAX_THREADS_PER_USER : Z := 500.
Definition MAX_CONCURRENT_MESSAGES : Z := 10.
(** [const maxRetries = 3] of [handleMessageError]. *)
Definition maxRetries : Z := 3.
(** [60 * 60], the expiry given to [redis.set]. *)
Definition CURSOR_TTL : Z := 60 * 60.

(** ** Data *)

(** A JavaScript value of type [string | null | undefined]: page tokens,
    thread identifiers and message identifiers of the mailbox API. *)
Inductive JsStr : Type :=
| JsUndefined
| JsNull
| JsString (s : string).

(** Truthiness: [undefined], [null] and the empty string are falsy. *)
Definition truthy (v : JsStr) : bool :=
  match v with
  | JsString s => negb (String.eqb s "")
  | _ => false
  end.

(** [v !== undefined] *)
Definition is_defined (v : JsStr) : bool :=
  match v with
  | JsUndefined => false
  | _ => true
  end.

(** An error is represented by its description, the text that
    [error instanceof Error ? error.message : String(error)] yields. *)
Definition Err : Type := string.

(** [response.data] of [gmail.users.threads.list]. *)
Record ListResponse : Type := {
  threads : option (list JsStr);   (* the [id] of each listed thread *)
  resp_nextPageToken : JsStr
}.

(** What [fetchThreadBatch] returns. *)
Record ThreadPage : Type := mkThreadPage {
  items : list JsStr;
  nextPageToken : JsStr
}.

(** [response.data] of [gmail.users.threads.get]: the [id] of each message. *)
Record ThreadData : Type := {
  messages : option (list JsStr)
}.

(** A Supabase query resolves to [{ data, error }]. *)
Record QueryResult (A : Type) : Type := {
  data : option A;
  error : option Err
}.
Arguments data {A} _.
Arguments error {A} _.

(** A row of [annotations] joined with its recipients: the two fields
    that [processThread] reads. *)
Record AnnotationRow : Type := {
  created_at : string;
  recipients : string
}.

(** The JSON body of a bus message. *)
Record Body : Type := {
  userId : string;
  accessToken : string;
  isNewUser : bool
}.

(** A received bus message. [messageId] holds the text that
    [message.messageId?.toString()] yields, [None] when the message has
    no identifier; [deliveryCount] and [body] may be absent as well. *)
Record Message : Type := {
  messageId : option string;
  deliveryCount : option Z;
  body : option Body
}.

(** Lines written through the loggers, one constructor per call site. *)
Inductive LogLine : Type :=
| DebugAlreadyProcessing (id : string)
| DebugMaxConcurrent
| DebugStarting (count : Z)
| DebugProcessedOk (id : string)
| ErrorProcessingMessage (e : Err)
| DebugCompleted (count : Z)
| DebugProcessingForUser (user : string)
| WarnAbandoned (attempt max : Z) (id : option string)
| ErrorDeadLettered (max : Z) (id : option string) (e : Err)
| ErrorFetchingThreadBatch (e : Err)
| ErrorBatchGettingMessages (e : Err)
| ErrorFetchingThread (id : string) (e : Err)
| ErrorFailedToProcessThread (id : string) (e : Err)
| ErrorProcessingBatch (e : Err)
| DebugUserAlreadyHas (user : string) (n : nat)
| ErrorFetchingThreads (e : Err)
| ErrorProcessingThread (id : string) (e : Err)
| ErrorAnnotatingThread (id : string) (e : Err)
| ErrorFailedToProcessThreads (e : Err).

(** Every call that leaves the process, in the order it is made. *)
Inductive Event : Type :=
| EvLog (l : LogLine)
| EvRedisGet (key : string)
| EvRedisDel (key : string)
| EvRedisSet (key value : string) (ttl : Z)
| EvThreadsList (token : JsStr)
| EvThreadsGet (id : string)
| EvMessagesGet (id : JsStr)
| EvSelectThreadEmbeddings (user : string)
| EvSelectAnnotations (thread user : string)
| EvSelectUserAnnotations (user : string)
| EvAnnotateThread (thread user : string)
| EvEmbedThread (user thread date rcpt : string)
| EvComplete (m : Message)
| EvAbandon (m : Message)
| EvDeadLetter (m : Message) (reason description : string).

(** ** The remote collaborators

    Each remote call is a function of the collaborators' state: it returns
    either the error with which the promise rejects or its value, and the
    next state. The mailbox calls take the access token the Gmail client
    was created with. *)
Record Collab (E : Type) : Type := {
  threads_list : string -> JsStr -> E -> (Err + ListResponse) * E;
  threads_get : string -> string -> E -> (Err + ThreadData) * E;
  messages_get : string -> JsStr -> E -> (Err + unit) * E;
  select_thread_embeddings :
    string -> E -> (Err + QueryResult (list string)) * E;
  select_annotations :
    string -> string -> E -> (Err + QueryResult (list AnnotationRow)) * E;
  (* AgentsService: the first query of autoAnnotate, and the body of its
     per-thread try block *)
  select_user_annotations : string -> E -> (Err + unit) * E;
  annotate_thread : string -> string -> string -> E -> (Err + unit) * E;
  (* EmbeddingsService.processThread *)
  embed_thread : string -> string -> string -> string -> E -> (Err + unit) * E;
  (* ServiceBusReceiver *)
  completeMessage : Message -> E -> (Err + unit) * E;
  abandonMessage : Message -> E -> (Err + unit) * E;
  deadLetterMessage : Message -> string -> string -> E -> (Err + unit) * E
}.
Arguments threads_list {E} _.
Arguments threads_get {E} _.
Arguments messages_get {E} _.
Arguments select_thread_embeddings {E} _.
Arguments select_annotations {E} _.
Arguments select_user_annotations {E} _.
Arguments annotate_thread {E} _.
Arguments embed_thread {E} _.
Arguments completeMessage {E} _.
Arguments abandonMessage {E} _.
Arguments deadLetterMessage {E} _.

(** ** The world and the monad of asynchronous methods *)

(** The service instance ([activeProcessingCount], [processingMessages]),
    the cursor store (value and expiry in seconds per key), the
    collaborators and the trace. *)
Record World (E : Type) : Type := mkWorld {
  activeProcessingCount : Z;
  processingMessages : gset string;
  redis : gmap string (string * Z);
  ext : E;
  trace : list Event
}.
Arguments mkWorld {E}.
Arguments activeProcessingCount {E} _.
Arguments processingMessages {E} _.
Arguments redis {E} _.
Arguments ext {E} _.
Arguments trace {E} _.

(** How an awaited computation ends: with a value, with a rejection, or
    not within the steps granted to the pagination loop. *)
Inductive Outcome (A : Type) : Type :=
| Returned (a : A)
| Thrown (e : Err)
| OutOfFuel.
Arguments Returned {A} _.
Arguments Thrown {A} _.
Arguments OutOfFuel {A}.

Definition M (E A : Type) : Type := World E -> Outcome A * World E.

Section Monad.
Context {E : Type}.

Definition ret {A} (a : A) : M E A := fun w => (Returned a, w).

Definition bind {A B} (m : M E A) (k : A -> M E B) : M E B :=
  fun w =>
    match m w with
    | (Returned a, w') => k a w'
    | (Thrown e, w') => (Thrown e, w')
    | (OutOfFuel, w') => (OutOfFuel, w')
    end.

Definition throw {A} (e : Err) : M E A := fun w => (Thrown e, w).

Definition out_of_fuel {A} : M E A := fun w => (OutOfFuel, w).

(** [try { m } catch (error) { h error }] *)
Definition try_catch {A} (m : M E A) (h : Err -> M E A) : M E A :=
  fun w =>
    match m w with
    | (Thrown e, w') => h e w'
    | r => r
    end.

(** [try { m } finally { c }]: the cleanup runs after a value and after a
    rejection alike; a rejection of the cleanup itself replaces the
    outcome. *)
Definition try_finally {A} (m : M E A) (c : M E unit) : M E A :=
  fun w =>
    match m w with
    | (OutOfFuel, w') => (OutOfFuel, w')
    | (r, w') =>
        match c w' with
        | (Returned _, w'') => (r, w'')
        | (Thrown e, w'') => (Thrown e, w'')
        | (OutOfFuel, w'') => (OutOfFuel, w'')
        end
    end.

Definition record (ev : Event) (w : World E) : World E :=
  mkWorld (activeProcessingCount w) (processingMessages w) (redis w) (ext w)
          (trace w ++ [ev]).

Definition set_ext (e : E) (w : World E) : World E :=
  mkWorld (activeProcessingCount w) (processingMessages w) (redis w) e
          (trace w).

Definition set_redis (r : gmap string (string * Z)) (w : World E) : World E :=
  mkWorld (activeProcessingCount w) (processingMessages w) r (ext w)
          (trace w).

Definition set_gate (n : Z) (s : gset string) (w : World E) : World E :=
  mkWorld n s (redis w) (ext w) (trace w).

(** A remote call: it is recorded, the collaborators move on, and the
    promise resolves or rejects. *)
Definition call {A} (ev : Event) (f : E -> (Err + A) * E) : M E A :=
  fun w =>
    let (r, e') := f (ext w) in
    let w' := set_ext e' (record ev w) in
    match r with
    | inl err => (Thrown err, w')
    | inr a => (Returned a, w')
    end.

Definition log (l : LogLine) : M E unit :=
  fun w => (Returned tt, record (EvLog l) w).

(** [for (const x of xs) { f x }] *)
Fixpoint for_each {A} (xs : list A) (f : A -> M E unit) : M E unit :=
  match xs with
  | [] => ret tt
  | x :: rest => bind (f x) (fun _ => for_each rest f)
  end.

(** [Promise.all(ps)]: every promise has been started, so every call is
    made; the result is the list of values, or the first rejection. The
    promises are run one after the other, in the order in which they are
    started. *)
Fixpoint promise_all {A} (ps : list (M E A)) : M E (list A) :=
  match ps with
  | [] => ret []
  | p :: rest =>
      fun w =>
        match p w with
        | (OutOfFuel, w1) => (OutOfFuel, w1)
        | (Returned a, w1) =>
            match promise_all rest w1 with
            | (Returned l, w2) => (Returned (a :: l), w2)
            | (Thrown e, w2) => (Thrown e, w2)
            | (OutOfFuel, w2) => (OutOfFuel, w2)
            end
        | (Thrown e, w1) =>
            match promise_all rest w1 with
            | (OutOfFuel, w2) => (OutOfFuel, w2)
            | (_, w2) => (Thrown e, w2)
            end
        end
  end.

End Monad.

Declare Scope async_scope.
Delimit Scope async_scope with async.
Notation "'let!' x ':=' m 'in' k" := (bind m (fun x => k))
  (at level 10, x name, m at level 100, k at level 200) : async_scope.
Notation "'do!' m 'in' k" := (bind m (fun _ => k))
  (at level 10, m at level 100, k at level 200) : async_scope.

Open Scope async_scope.

(** ** The service *)

Section Service.
Context {E : Type} (C : Collab E).

(** *** The cursor store

    [redis.get] yields the stored string or [null]; the commands of the
    store are taken to succeed. *)
Definition stored (key : string) (w : World E) : JsStr :=
  match redis w !! key with
  | Some (v, _) => JsString v
  | None => JsNull
  end.

Definition redis_get (key : string) : M E JsStr :=
  fun w => (Returned (stored key w), record (EvRedisGet key) w).

Definition redis_del (key : string) : M E unit :=
  fun w =>
    (Returned tt, set_redis (delete key (redis w)) (record (EvRedisDel key) w)).

(** [redis.set(key, value, 'EX', ttl)] *)
Definition redis_set (key value : string) (ttl : Z) : M E unit :=
  fun w =>
    (Returned tt,
     set_redis (<[key := (value, ttl)]> (redis w))
               (record (EvRedisSet key value ttl) w)).

(** *** Thread discovery *)

Definition fetchThreadBatch (gmail : string) (pageToken : JsStr)
  : M E ThreadPage :=
  try_catch
    (let! response := call (EvThreadsList pageToken)
                        (threads_list C gmail pageToken) in
     ret (mkThreadPage (default [] (threads response))
                       (resp_nextPageToken response)))
    (fun e => do! log (ErrorFetchingThreadBatch e) in throw e).

(** [Set.prototype.add] on a set kept in insertion order. *)
Definition set_add (x : string) (s : list string) : list string :=
  if bool_decide (x ∈ s) then s else s ++ [x].

(** The body of [for (const thread of threads.items)]. *)
Fixpoint filter_page (existingThreadsSet : gset string)
    (remainingThreadsNeeded : Z) (page : list JsStr)
    (threadIds : list string) : list string :=
  match page with
  | [] => threadIds
  | thread :: rest =>
      if Z.of_nat (length threadIds) >=? remainingThreadsNeeded
      then threadIds
      else
        filter_page existingThreadsSet remainingThreadsNeeded rest
          (match thread with
           | JsString id =>
               if truthy thread
                  && negb (bool_decide (id ∈ existingThreadsSet))
               then set_add id threadIds
               else threadIds
           | _ => threadIds
           end)
  end.

(** The [while] loop of [fetchNewThreads]; [fuel] bounds the number of
    pages it may fetch. It yields the last page token and the set of new
    thread identifiers. *)
Fixpoint pagination_loop (fuel : nat) (gmail : string)
    (existingThreadsSet : gset string) (remainingThreadsNeeded : Z)
    (pageToken : JsStr) (threadIds : list string)
  : M E (JsStr * list string) :=
  if is_defined pageToken
     && (Z.of_nat (length threadIds) <? remainingThreadsNeeded)
  then
    match fuel with
    | O => out_of_fuel
    | S fuel' =>
        let! page := fetchThreadBatch gmail pageToken in
        pagination_loop fuel' gmail existingThreadsSet remainingThreadsNeeded
          (nextPageToken page)
          (filter_page existingThreadsSet remainingThreadsNeeded
             (items page) threadIds)
    end
  else ret (pageToken, threadIds).

(** "Update pagination state". *)
Definition update_pagination (paginationKey : string) (pageToken : JsStr)
    (threadIds : list string) (remainingThreadsNeeded : Z) : M E unit :=
  if negb (truthy pageToken)
     || (Z.of_nat (length threadIds) >=? remainingThreadsNeeded)
  then redis_del paginationKey
  else
    match pageToken with
    | JsString token => redis_set paginationKey token CURSOR_TTL
    | _ => ret tt
    end.

Definition fetchNewThreads (fuel : nat) (gmail : string)
    (existingThreadIds : list string) (userId paginationKey : string)
  : M E (list string) :=
  let! pageToken := redis_get paginationKey in
  let remainingThreadsNeeded :=
    MAX_THREADS_PER_USER - Z.of_nat (length existingThreadIds) in
  if remainingThreadsNeeded <=? 0 then
    do! log (DebugUserAlreadyHas userId (length existingThreadIds)) in
    ret []
  else
    try_catch
      (let existingThreadsSet : gset string := list_to_set existingThreadIds in
       let! r := pagination_loop fuel gmail existingThreadsSet
              remainingThreadsNeeded pageToken [] in
       do! update_pagination paginationKey r.1 r.2 remainingThreadsNeeded in
       ret r.2)
      (fun e => do! log (ErrorFetchingThreads e) in throw e).

Definition getExistingThreads (userId : string) : M E (list string) :=
  let! r := call (EvSelectThreadEmbeddings userId)
              (select_thread_embeddings C userId) in
  match error r with
  | Some e => throw ("Failed to fetch existing threads: " +:+ e)
  | None => ret (default [] (data r))
  end.

(** *** Batch fetching and dispatch *)

(** [gmail.users.messages.get({ userId: 'me', id })] *)
Definition getMessage (gmail : string) (id : JsStr) : M E unit :=
  call (EvMessagesGet id) (messages_get C gmail id).

Definition batchGetMessages (gmail : string) (messageIds : list JsStr)
  : M E (list unit) :=
  try_catch
    (promise_all (map (getMessage gmail) messageIds))
    (fun e => do! log (ErrorBatchGettingMessages e) in throw e).

Definition processThread (threadId userId : string) : M E unit :=
  try_catch
    (let! r := call (EvSelectAnnotations threadId userId)
            (select_annotations C threadId userId) in
     match error r with
     | Some e => throw ("Failed to fetch thread annotations: " +:+ e)
     | None =>
         match data r with
         | Some (firstAnnotation :: _) =>
             call (EvEmbedThread userId threadId (created_at firstAnnotation)
                     (recipients firstAnnotation))
                  (embed_thread C userId threadId (created_at firstAnnotation)
                     (recipients firstAnnotation))
         | _ => ret tt
         end
     end)
    (fun e => do! log (ErrorProcessingThread threadId e) in throw e).

(** The per-thread [try] block of [autoAnnotate]: a failure is logged. *)
Definition annotateOrLog (gmail userId : string) (threadId : string)
  : M E unit :=
  try_catch
    (call (EvAnnotateThread threadId userId)
          (annotate_thread C gmail threadId userId))
    (fun e => log (ErrorAnnotatingThread threadId e)).

(** [AgentsService.autoAnnotate]: the query for the user's annotations,
    then one guarded step per thread; the outer handler logs and rethrows. *)
Definition autoAnnotate (gmail : string) (threadIds : list string)
    (userId : string) : M E unit :=
  try_catch
    (do! call (EvSelectUserAnnotations userId)
           (select_user_annotations C userId) in
     for_each threadIds (annotateOrLog gmail userId))
    (fun e => do! log (ErrorFailedToProcessThreads e) in throw e).

(** The callback of "Get all thread data in parallel": a failed fetch is
    logged and yields [null]. *)
Definition fetchThreadOrNull (gmail : string) (threadId : string)
  : M E (option ThreadData) :=
  try_catch
    (let! response := call (EvThreadsGet threadId)
                        (threads_get C gmail threadId) in
     ret (Some response))
    (fun e => do! log (ErrorFetchingThread threadId e) in ret None).

Definition fetchThreadsData (gmail : string) (batchThreadIds : list string)
  : M E (list (option ThreadData)) :=
  promise_all (map (fetchThreadOrNull gmail) batchThreadIds).

(** "Filter out failed thread fetches and extract message IDs". *)
Definition extractMessageIds (threadsData : list (option ThreadData))
  : list JsStr :=
  flat_map (fun thread => filter (fun id => is_defined id = true)
                            (default [] (messages thread)))
           (omap id threadsData).

(** [this.processThread(threadId, userId).catch(...)] *)
Definition embedOrLog (userId : string) (threadId : string) : M E unit :=
  try_catch (processThread threadId userId)
    (fun e => log (ErrorFailedToProcessThread threadId e)).

(** "Process embeddings for each thread in parallel". *)
Definition embedThreads (batchThreadIds : list string) (userId : string)
  : M E (list unit) :=
  promise_all (map (embedOrLog userId) batchThreadIds).

(** The body of the [for] loop of [processThreads], for one slice. *)
Definition processBatch (gmail : string) (batchThreadIds : list string)
    (userId : string) : M E unit :=
  try_catch
    (let! threadsData := fetchThreadsData gmail batchThreadIds in
     let messageIds := extractMessageIds threadsData in
     if (length messageIds =? 0)%nat then ret tt
     else
       do! batchGetMessages gmail messageIds in
       do! autoAnnotate gmail batchThreadIds userId in
       do! embedThreads batchThreadIds userId in
       ret tt)
    (fun e => log (ErrorProcessingBatch e)).

(** [for (let i = 0; i < threadIds.length; i += BATCH_SIZE)], from index
    [i]; [n] bounds the number of slices. *)
Fixpoint processThreads_from (n : nat) (gmail : string)
    (threadIds : list string) (userId : string) (i : nat) : M E unit :=
  if (i <? length threadIds)%nat then
    match n with
    | O => out_of_fuel
    | S n' =>
        do! processBatch gmail (take BATCH_SIZE (drop i threadIds)) userId in
        processThreads_from n' gmail threadIds userId (i + BATCH_SIZE)
    end
  else ret tt.

Definition processThreads (gmail : string) (threadIds : list string)
    (userId : string) : M E unit :=
  processThreads_from (length threadIds) gmail threadIds userId 0.

(** *** The coordinator *)

Definition processMessage (fuel : nat) (message : Message) : M E unit :=
  match body message with
  | None => throw "Cannot read properties of undefined (reading 'userId')"
  | Some body =>
      do! log (DebugProcessingForUser (userId body)) in
      let gmail := accessToken body in
      let! existingThreads := getExistingThreads (userId body) in
      let paginationKey := "pagination:" +:+ userId body in
      let! threadIds := fetchNewThreads fuel gmail existingThreads (userId body)
                     paginationKey in
      processThreads gmail threadIds (userId body)
  end.

Definition handleMessageError (message : Message) (error : Err) : M E unit :=
  let retryCount := default 0 (deliveryCount message) + 1 in
  if retryCount <=? maxRetries then
    do! call (EvAbandon message) (abandonMessage C message) in
    log (WarnAbandoned retryCount maxRetries (messageId message))
  else
    do! call (EvDeadLetter message "Max retries exceeded" error)
          (deadLetterMessage C message "Max retries exceeded" error) in
    log (ErrorDeadLettered maxRetries (messageId message) error).

(** *** The admission gate and the subscribed handler *)

(** [message.messageId?.toString() || ''] *)
Definition admission_key (message : Message) : string :=
  default "" (messageId message).

(** The two guards at the head of the handler. *)
Definition admission_refused (message : Message) (w : World E) : bool :=
  bool_decide (admission_key message ∈ processingMessages w)
  || (activeProcessingCount w >=? MAX_CONCURRENT_MESSAGES).

(** [this.activeProcessingCount++; this.processingMessages.add(messageId)] *)
Definition acquire (messageId : string) (w : World E) : World E :=
  set_gate (activeProcessingCount w + 1)
           ({[messageId]} ∪ processingMessages w) w.

(** [this.processingMessages.delete(messageId); this.activeProcessingCount--] *)
Definition release (messageId : string) (w : World E) : World E :=
  set_gate (activeProcessingCount w - 1)
           (processingMessages w ∖ {[messageId]}) w.

Definition modify (f : World E -> World E) : M E unit :=
  fun w => (Returned tt, f w).

Definition log_count (l : Z -> LogLine) : M E unit :=
  fun w => log (l (activeProcessingCount w)) w.

(** The [try] block of the handler. *)
Definition guarded (fuel : nat) (message : Message) : M E unit :=
  do! log_count DebugStarting in
  do! processMessage fuel message in
  do! call (EvComplete message) (completeMessage C message) in
  log (DebugProcessedOk (admission_key message)).

(** What the handler does between admission and the cleanup: the [try]
    block and its [catch]. *)
Definition attempt (fuel : nat) (message : Message) : M E unit :=
  try_catch
    (guarded fuel message)
    (fun e =>
       do! log (ErrorProcessingMessage e) in
       handleMessageError message e).

(** The [processMessage] callback that [setupMessageHandler] subscribes. *)
Definition onMessage (fuel : nat) (message : Message) : M E unit :=
  let messageId := admission_key message in
  fun w =>
    if bool_decide (messageId ∈ processingMessages w) then
      log (DebugAlreadyProcessing messageId) w
    else if activeProcessingCount w >=? MAX_CONCURRENT_MESSAGES then
      log DebugMaxConcurrent w
    else
      (do! modify (acquire messageId) in
       try_finally
         (attempt fuel message)
         (do! modify (release messageId) in
          log_count DebugCompleted)) w.

End Service.

(** ** Specifications of thread discovery *)

Section DiscoverySpecs.
Context {E : Type} (C : Collab E).

(** The listing that starts at a page token ends within [n] fetches: it
    reaches a page without successor, or a fetch fails. *)
Inductive listing_ends (gmail : string) : nat -> JsStr -> E -> Prop :=
| ends_undefined n e :
    listing_ends gmail n JsUndefined e
| ends_error n token e err e' :
    threads_list C gmail token e = (inl err, e') ->
    listing_ends gmail (S n) token e
| ends_next n token e response e' :
    threads_list C gmail token e = (inr response, e') ->
    listing_ends gmail n (resp_nextPageToken response) e' ->
    listing_ends gmail (S n) token e.

(** How a successful run of [fetchNewThreads] from [w] to [w'] leaves the
    cursor: the loop exited with [pageToken] and [ids]; the entry at [key]
    holds the token with its expiry exactly when the token is truthy and
    fewer than [remaining] threads were found, and is deleted otherwise. *)
Definition cursor_updated (fuel : nat) (gmail : string)
    (existing : list string) (key : string) (w : World E)
    (ids : list string) (w' : World E) : Prop :=
  let remaining := MAX_THREADS_PER_USER - Z.of_nat (length existing) in
  exists pageToken w1,
    pagination_loop C fuel gmail (list_to_set existing) remaining
      (stored key w) [] (record (EvRedisGet key) w)
      = (Returned (pageToken, ids), w1)
    /\ redis w1 = redis w
    /\ (truthy pageToken = true /\ Z.of_nat (length ids) < remaining ->
        exists token, pageToken = JsString token
          /\ redis w' = <[key := (token, 3600)]> (redis w))
    /\ (~ (truthy pageToken = true /\ Z.of_nat (length ids) < remaining) ->
        redis w' = delete key (redis w)).

(** An entry of the fetched thread data is an answer of the mailbox for
    its thread: the data when the fetch resolved, [null] when it
    rejected. *)
Definition answer_of (gmail : string) (threadId : string)
    (entry : option ThreadData) : Prop :=
  exists s s',
    match entry with
    | Some d => threads_get C gmail threadId s = (inr d, s')
    | None => exists err, threads_get C gmail threadId s = (inl err, s')
    end.

End DiscoverySpecs.

(** ** Concrete collaborators

    A scripted environment: every remote answer is a function of the
    request, and the collaborators' state counts the remote calls
    answered so far. *)

Module Examples.

Record Script : Type := {
  on_list : JsStr -> Err + ListResponse;
  on_thread : string -> Err + ThreadData;
  on_message : JsStr -> Err + unit;
  on_ledger : string -> Err + QueryResult (list string);
  on_annotations : string -> Err + QueryResult (list AnnotationRow);
  on_user_annotations : string -> Err + unit;
  on_annotate : string -> Err + unit;
  on_embed : string -> Err + unit;
  on_settle : Message -> Err + unit
}.

Definition scripted (s : Script) : Collab nat := {|
  threads_list := fun _ token n => (on_list s token, S n);
  threads_get := fun _ id n => (on_thread s id, S n);
  messages_get := fun _ id n => (on_message s id, S n);
  select_thread_embeddings := fun user n => (on_ledger s user, S n);
  select_annotations := fun thread _ n => (on_annotations s thread, S n);
  select_user_annotations := fun user n => (on_user_annotations s user, S n);
  annotate_thread := fun _ thread _ n => (on_annotate s thread, S n);
  embed_thread := fun _ thread _ _ n => (on_embed s thread, S n);
  completeMessage := fun m n => (on_settle s m, S n);
  abandonMessage := fun m n => (on_settle s m, S n);
  deadLetterMessage := fun m _ _ n => (on_settle s m, S n)
|}.

(** A mailbox of two pages. The first page lists [t1], the already
    processed [t2], [t1] again and a thread without identifier; the second
    page, reached with the token [p2], lists [t3] and [t2]. *)
Definition page_one : ListResponse :=
  {| threads := Some [JsString "t1"; JsString "t2"; JsString "t1";
                      JsUndefined];
     resp_nextPageToken := JsString "p2" |}.

Definition page_two : ListResponse :=
  {| threads := Some [JsString "t3"; JsString "t2"];
     resp_nextPageToken := JsUndefined |}.

Definition is_p2 (token : JsStr) : bool :=
  match token with
  | JsString s => String.eqb s "p2"
  | _ => false
  end.

Definition two_pages (token : JsStr) : Err + ListResponse :=
  if is_p2 token then inr page_two else inr page_one.

(** The same mailbox, whose second page cannot be fetched. *)
Definition second_page_fails (token : JsStr) : Err + ListResponse :=
  if is_p2 token then inl "rate limit exceeded" else inr page_one.

(** A mailbox whose listing never ends and never shows a new thread. *)
Definition endless (token : JsStr) : Err + ListResponse :=
  inr {| threads := Some [JsString "t2"];
         resp_nextPageToken := JsString "again" |}.

(** Every thread holds one message, named after it. *)
Definition one_message (id : string) : Err + ThreadData :=
  inr {| messages := Some [JsString ("m-" +:+ id)] |}.

Definition one_row (thread : string) : Err + QueryResult (list AnnotationRow) :=
  inr {| data := Some [{| created_at := "2024-01-01"; recipients := "r" |}];
         error := None |}.

(** The well-behaved world: [u1] has processed [t2] already. *)
Definition calm : Script := {|
  on_list := two_pages;
  on_thread := one_message;
  on_message := fun _ => inr tt;
  on_ledger := fun _ => inr {| data := Some ["t2"]; error := None |};
  on_annotations := one_row;
  on_user_annotations := fun _ => inr tt;
  on_annotate := fun _ => inr tt;
  on_embed := fun _ => inr tt;
  on_settle := fun _ => inr tt
|}.

Definition with_list (f : JsStr -> Err + ListResponse) (s : Script) : Script :=
  {| on_list := f; on_thread := on_thread s; on_message := on_message s;
     on_ledger := on_ledger s; on_annotations := on_annotations s;
     on_user_annotations := on_user_annotations s;
     on_annotate := on_annotate s; on_embed := on_embed s;
     on_settle := on_settle s |}.

(** The body of message [m-t3] cannot be fetched. *)
Definition message_fails : Script :=
  {| on_list := two_pages; on_thread := one_message;
     on_message := fun id => match id with
                             | JsString "m-t3" => inl "message gone"
                             | _ => inr tt
                             end;
     on_ledger := on_ledger calm; on_annotations := one_row;
     on_user_annotations := fun _ => inr tt;
     on_annotate := fun _ => inr tt; on_embed := fun _ => inr tt;
     on_settle := fun _ => inr tt |}.

(** The annotation service cannot read the user's annotations. *)
Definition annotation_down : Script :=
  {| on_list := two_pages; on_thread := one_message;
     on_message := fun _ => inr tt;
     on_ledger := on_ledger calm; on_annotations := one_row;
     on_user_annotations := fun _ => inl "database unavailable";
     on_annotate := fun _ => inr tt; on_embed := fun _ => inr tt;
     on_settle := fun _ => inr tt |}.

(** Annotating [t1] fails; the other threads are annotated. *)
Definition annotate_t1_fails : Script :=
  {| on_list := two_pages; on_thread := one_message;
     on_message := fun _ => inr tt;
     on_ledger := on_ledger calm; on_annotations := one_row;
     on_user_annotations := fun _ => inr tt;
     on_annotate := fun id => match id with
                              | "t1" => inl "model refused"
                              | _ => inr tt
                              end;
     on_embed := fun _ => inr tt;
     on_settle := fun _ => inr tt |}.

(** Thread [t1] cannot be fetched. *)
Definition thread_t1_fails : Script :=
  {| on_list := two_pages;
     on_thread := fun id => match id with
                            | "t1" => inl "not found"
                            | _ => one_message id
                            end;
     on_message := fun _ => inr tt;
     on_ledger := on_ledger calm; on_annotations := one_row;
     on_user_annotations := fun _ => inr tt;
     on_annotate := fun _ => inr tt; on_embed := fun _ => inr tt;
     on_settle := fun _ => inr tt |}.

Definition idle : World nat := mkWorld 0 ∅ ∅ 0%nat [].

(** A world that holds a cursor for [u1], left by an earlier cycle. *)
Definition resumed : World nat :=
  mkWorld 0 ∅ (<["pagination:u1" := ("p1", 3600)]> ∅) 0%nat [].

(** A world in which the message [a] is in flight. *)
Definition busy : World nat := mkWorld 1 {["a"]} ∅ 0%nat [].

(** The mailbox whose second page cannot be fetched. *)
Definition throttled : Collab nat :=
  scripted (with_list second_page_fails calm).

Definition msg (id : option string) (count : option Z) : Message :=
  {| messageId := id; deliveryCount := count;
     body := Some {| userId := "u1"; accessToken := "tok";
                     isNewUser := false |} |}.

End Examples.

(** ** Observations on traces and worlds *)

(** The calls that settle a bus message. *)
Definition is_settlement (ev : Event) : bool :=
  match ev with
  | EvComplete _ | EvAbandon _ | EvDeadLetter _ _ _ => true
  | _ => false
  end.

(** The commands that change the cursor store. *)
Definition is_cursor_write (ev : Event) : bool :=
  match ev with
  | EvRedisDel _ | EvRedisSet _ _ _ => true
  | _ => false
  end.

(** The mailbox listing calls. *)
Definition is_list_call (ev : Event) : bool :=
  match ev with
  | EvThreadsList _ => true
  | _ => false
  end.

Definition is_thread_get (ev : Event) : bool :=
  match ev with
  | EvThreadsGet _ => true
  | _ => false
  end.

Definition is_message_get (ev : Event) : bool :=
  match ev with
  | EvMessagesGet _ => true
  | _ => false
  end.

(** The calls of the annotation collaborator. *)
Definition is_annotation_call (ev : Event) : bool :=
  match ev with
  | EvSelectUserAnnotations _ | EvAnnotateThread _ _ => true
  | _ => false
  end.

(** The calls of the embedding step, [processThread]. *)
Definition is_embedding_call (ev : Event) : bool :=
  match ev with
  | EvSelectAnnotations _ _ | EvEmbedThread _ _ _ _ => true
  | _ => false
  end.

(** The first call of [processThread] for a thread. *)
Definition is_embedding_start (ev : Event) : bool :=
  match ev with
  | EvSelectAnnotations _ _ => true
  | _ => false
  end.

(** The lines that report the failure of a slice. *)
Definition is_slice_error (ev : Event) : bool :=
  match ev with
  | EvLog (ErrorProcessingBatch _) | EvLog (ErrorBatchGettingMessages _) => true
  | _ => false
  end.

(** Everything but a log line is a call to a store or a collaborator. *)
Definition is_log (ev : Event) : bool :=
  match ev with
  | EvLog _ => true
  | _ => false
  end.

(** The events that the pagination loop may record. *)
Definition loop_calls (ev : Event) : bool := is_log ev || is_list_call ev.

(** The events that thread discovery may record. *)
Definition discovery_calls (ev : Event) : bool :=
  match ev with
  | EvRedisGet _ | EvSelectThreadEmbeddings _ => true
  | _ => loop_calls ev || is_cursor_write ev
  end.

(** The events that the batch fetcher may record. *)
Definition fetch_calls (ev : Event) : bool :=
  is_log ev || is_thread_get ev || is_message_get ev.

(** The events that the annotation collaborator may record. *)
Definition annotation_calls (ev : Event) : bool :=
  is_log ev || is_annotation_call ev.

(** The events that the processing of the slices may record. *)
Definition slice_calls (ev : Event) : bool :=
  is_log ev || is_thread_get ev || is_message_get ev
  || is_annotation_call ev || is_embedding_call ev.

(** The events of a message's processing, settlement apart. *)
Definition processing_calls (ev : Event) : bool :=
  discovery_calls ev || slice_calls ev.

(** The events of a trace that satisfy [p], in order. *)
Definition observe (p : Event -> bool) (tr : list Event) : list Event :=
  filter (fun ev => p ev = true) tr.

(** The decision of [handleMessageError], as the call it makes. *)
Definition settlement_on_failure (message : Message) (e : Err) : Event :=
  if default 0 (deliveryCount message) <? maxRetries
  then EvAbandon message
  else EvDeadLetter message "Max retries exceeded" e.

Section Observations.
Context {E : Type}.

(** The gate fields agree. *)
Definition same_gate (w w' : World E) : Prop :=
  activeProcessingCount w' = activeProcessingCount w
  /\ processingMessages w' = processingMessages w.

(** The cursor store is the same. *)
Definition same_redis (w w' : World E) : Prop := redis w' = redis w.

(** The cursor store is the same but for the entry at [key]. *)
Definition same_redis_but (key : string) (w w' : World E) : Prop :=
  forall k, k <> key -> redis w' !! k = redis w !! k.

(** No event that satisfies [p] was added. *)
Definition quiet (p : Event -> bool) (w w' : World E) : Prop :=
  observe p (trace w') = observe p (trace w).

(** The trace only grows. *)
Definition grows (w w' : World E) : Prop := trace w `prefix_of` trace w'.

(** A relation between worlds that the bookkeeping of a remote call
    (the collaborators' next state) cannot break. *)
Class Frame (R : relation (World E)) : Prop := {
  frame_refl : forall w, R w w;
  frame_trans : forall w1 w2 w3, R w1 w2 -> R w2 w3 -> R w1 w3;
  frame_ext : forall e w, R w (set_ext e w)
}.

(** A frame that a change of the cursor store cannot break either. *)
Class RedisFrame (R : relation (World E)) : Prop := {
  frame_redis : forall r w, R w (set_redis r w)
}.

(** [R] is kept by the recording of any event that satisfies [P]. *)
Definition tolerant (R : relation (World E)) (P : Event -> bool) : Prop :=
  forall ev w, P ev = true -> R w (record ev w).

(** Every world that [m] may leave is related to the one it started in. *)
Definition stable (R : relation (World E)) {A} (m : M E A) : Prop :=
  forall w, R w (m w).2.

(** The commands of the cursor store on [key] keep [R]: [R] does not
    look at the store, or looks at other keys only. *)
Definition keeps_cursor_commands (R : relation (World E)) (key : string)
  : Prop :=
  stable R (@redis_del E key)
  /\ forall value ttl, stable R (@redis_set E key value ttl).

(** [m] always settles, with a value or a rejection. *)
Definition total {A} (m : M E A) : Prop :=
  forall w, (m w).1 <> OutOfFuel.

(** What discovery maintains about the set of new thread identifiers:
    no repetition, nothing already processed, and no more than needed. *)
Definition discovered_ok (known : gset string) (remaining : Z)
    (threadIds : list string) : Prop :=
  NoDup threadIds
  /\ (forall x, x ∈ threadIds -> x ∉ known)
  /\ Z.of_nat (length threadIds) <= remaining.

(** *** Interleaved handlers

    Between two turns of the event loop the process is described by its
    world and by the admission keys of the handlers that were admitted and
    have not reached their cleanup yet. A turn delivers a message (lines
    93-105 run without suspension), lets the admitted handlers work (they
    do not touch the gate), or runs the cleanup of one of them. *)
Record Sys : Type := mkSys {
  sys_world : World E;
  in_flight : list string
}.

Inductive turn : Sys -> Sys -> Prop :=
| turn_refuse message w fl :
    admission_refused message w = true ->
    turn (mkSys w fl)
         (mkSys w fl)
| turn_admit message w fl :
    admission_refused message w = false ->
    turn (mkSys w fl)
         (mkSys (acquire (admission_key message) w)
                (admission_key message :: fl))
| turn_work w w' fl :
    same_gate w w' ->
    turn (mkSys w fl) (mkSys w' fl)
| turn_cleanup id w fl fl' :
    fl ≡ₚ id :: fl' ->
    turn (mkSys w fl) (mkSys (release id w) fl').

(** The service starts with no message in flight. *)
Definition initial (s : Sys) : Prop :=
  activeProcessingCount (sys_world s) = 0
  /\ processingMessages (sys_world s) = ∅
  /\ in_flight s = [].

Definition reachable (s : Sys) : Prop :=
  exists s0, initial s0 /\ rtc turn s0 s.

(** The gate never holds more than the limit, counts exactly the handlers
    in flight, and holds each admission key once. *)
Definition gate_invariant (s : Sys) : Prop :=
  0 <= activeProcessingCount (sys_world s) <= MAX_CONCURRENT_MESSAGES
  /\ activeProcessingCount (sys_world s) = Z.of_nat (length (in_flight s))
  /\ NoDup (in_flight s)
  /\ processingMessages (sys_world s) = list_to_set (in_flight s).

End Observations.
Arguments Sys E : clear implicits.

(** ** Further observations and specifications *)

(** [redis.set] commands. *)
Definition is_redis_set (ev : Event) : bool :=
  match ev with
  | EvRedisSet _ _ _ => true
  | _ => false
  end.

(** Calls of [EmbeddingsService.processThread]. *)
Definition is_embed_call (ev : Event) : bool :=
  match ev with
  | EvEmbedThread _ _ _ _ => true
  | _ => false
  end.

(** The events that [batchGetMessages] may record. *)
Definition message_calls (ev : Event) : bool :=
  is_log ev || is_message_get ev.

(** The events that the embedding step may record. *)
Definition embedding_calls (ev : Event) : bool :=
  is_log ev || is_embedding_call ev.

(** The slices that the [for] loop of [processThreads] takes from index
    [i] on, [threadIds.slice(i, i + BATCH_SIZE)] for [i] advancing by
    [BATCH_SIZE]; [n] bounds their number. *)
Fixpoint slices_from (n : nat) (threadIds : list string) (i : nat)
  : list (list string) :=
  if (i <? length threadIds)%nat then
    match n with
    | O => []
    | S n' =>
        take BATCH_SIZE (drop i threadIds)
        :: slices_from n' threadIds (i + BATCH_SIZE)
    end
  else [].

Definition slices (threadIds : list string) : list (list string) :=
  slices_from (length threadIds) threadIds 0.

Section ListingSpecs.
Context {E : Type} (C : Collab E).

(** The listing taken up at a page token, with the collaborators in a
    given state, shows the thread [x]: on the page fetched first, or on
    one of the pages that follow it. *)
Inductive shows (gmail : string) : JsStr -> E -> string -> Prop :=
| shows_here token e response e' x :
    threads_list C gmail token e = (inr response, e') ->
    JsString x ∈ default [] (threads response) ->
    shows gmail token e x
| shows_later token e response e' x :
    threads_list C gmail token e = (inr response, e') ->
    is_defined (resp_nextPageToken response) = true ->
    shows gmail (resp_nextPageToken response) e' x ->
    shows gmail token e x.

End ListingSpecs.

(** The key under which [processMessage] keeps the cursor of the
    message's user. *)
Definition cursor_key (message : Message) : string :=
  match body message with
  | Some b => "pagination:" +:+ userId b
  | None => ""
  end.

Section MoreObservations.
Context {E : Type}.

(** The cursor store is as it was, or has lost the entry at [key]. *)
Definition same_or_deleted (key : string) (w w' : World E) : Prop :=
  redis w' = redis w \/ redis w' = delete key (redis w).

End MoreObservations.

(** *** The handler in phases

    The callback suspends only inside its [try] block, so it runs in
    three phases: the head (lines 93-105), the [try] block with its
    [catch] (lines 107-118), and the [finally] block (lines 119-125). *)
Section Phases.
Context {E : Type} (C : Collab E).

(** Lines 93-105: the two guards and the admission; the result tells
    whether the message was admitted. *)
Definition admission (message : Message) : M E bool :=
  let messageId := admission_key message in
  fun w =>
    if bool_decide (messageId ∈ processingMessages w) then
      (do! log (DebugAlreadyProcessing messageId) in ret false) w
    else if activeProcessingCount w >=? MAX_CONCURRENT_MESSAGES then
      (do! log DebugMaxConcurrent in ret false) w
    else
      (do! modify (acquire messageId) in ret true) w.

(** Lines 119-125, the [finally] block. *)
Definition cleanup (message : Message) : M E unit :=
  do! modify (release (admission_key message)) in
  log_count DebugCompleted.

(** The callback, phase by phase. *)
Definition phased (fuel : nat) (message : Message) : M E unit :=
  let! admitted := admission message in
  if admitted
  then try_finally (attempt C fuel message) (cleanup message)
  else ret tt.

(** One step of the process between two suspensions: a message is
    delivered and the head of the callback runs on it; or the process
    moves on without touching the gate, as the [try] blocks of the
    admitted handlers do; or the [finally] block of an admitted handler
    runs. *)
Inductive step : Sys E -> Sys E -> Prop :=
| step_delivery message w fl admitted w' :
    admission message w = (Returned admitted, w') ->
    step (mkSys w fl)
         (mkSys w' (if admitted then admission_key message :: fl else fl))
| step_progress w w' fl :
    same_gate w w' ->
    step (mkSys w fl) (mkSys w' fl)
| step_cleanup message w fl fl' :
    fl ≡ₚ admission_key message :: fl' ->
    step (mkSys w fl) (mkSys (cleanup message w).2 fl').

End Phases.

(** Calls that annotate one thread. *)
Definition is_annotate_thread (ev : Event) : bool :=
  match ev with
  | EvAnnotateThread _ _ => true
  | _ => false
  end.

(** The call with which [processThread] hands a thread and its first
    annotation row to the embeddings service. *)
Definition embed_event (userId : string) (r : string * AnnotationRow)
  : Event :=
  EvEmbedThread userId r.1 (created_at r.2) (recipients r.2).

Section AnnotationRows.
Context {E : Type} (C : Collab E).

(** The row is the first one that the annotations query answered for the
    thread and the user, in some state of the database. *)
Definition first_annotation (userId : string) (r : string * AnnotationRow)
  : Prop :=
  exists s s' q rest,
    select_annotations C r.1 userId s = (inr q, s')
    /\ error q = None
    /\ data q = Some (r.2 :: rest).

End AnnotationRows.

(** * Effects of the collaborating services

    The services that the receiver calls are embedded over the same kind
    of world as the receiver itself, each with the events of its own:
    the state of the remote services and the trace of what was
    requested. *)

Module Effects.

Record World (S Ev : Type) : Type := mkWorld {
  ext : S;
  trace : list Ev
}.
Arguments mkWorld {S Ev}.
Arguments ext {S Ev} _.
Arguments trace {S Ev} _.

Definition Run (S Ev A : Type) : Type :=
  World S Ev -> Outcome A * World S Ev.

Section Monad.
Context {S Ev : Type}.

Definition ret {A} (a : A) : Run S Ev A := fun w => (Returned a, w).

Definition bind {A B} (m : Run S Ev A) (k : A -> Run S Ev B) : Run S Ev B :=
  fun w =>
    match m w with
    | (Returned a, w') => k a w'
    | (Thrown e, w') => (Thrown e, w')
    | (OutOfFuel, w') => (OutOfFuel, w')
    end.

Definition throw {A} (e : Err) : Run S Ev A := fun w => (Thrown e, w).

Definition out_of_fuel {A} : Run S Ev A := fun w => (OutOfFuel, w).

Definition try_catch {A} (m : Run S Ev A) (h : Err -> Run S Ev A)
  : Run S Ev A :=
  fun w =>
    match m w with
    | (Thrown e, w') => h e w'
    | r => r
    end.

Definition record (ev : Ev) (w : World S Ev) : World S Ev :=
  mkWorld (ext w) (trace w ++ [ev]).

(** A remote call, recorded with its answer. *)
Definition call {A} (ev : Err + A -> Ev) (f : S -> (Err + A) * S)
  : Run S Ev A :=
  fun w =>
    let (r, s') := f (ext w) in
    let w' := mkWorld s' (trace w ++ [ev r]) in
    match r with
    | inl err => (Thrown err, w')
    | inr a => (Returned a, w')
    end.

(** [for (const x of xs) { f x }] *)
Fixpoint for_each {A} (xs : list A) (f : A -> Run S Ev unit)
  : Run S Ev unit :=
  match xs with
  | [] => ret tt
  | x :: rest => bind (f x) (fun _ => for_each rest f)
  end.

(** [m] settles, every event it records satisfies [P], and what it
    returns satisfies [Q]. *)
Definition meets {A} (P : Ev -> Prop) (Q : A -> Prop) (m : Run S Ev A)
  : Prop :=
  forall w, exists new,
    trace (m w).2 = trace w ++ new
    /\ Forall P new
    /\ match (m w).1 with
       | Returned a => Q a
       | Thrown _ => True
       | OutOfFuel => False
       end.

End Monad.

Declare Scope effects_scope.
Notation "'let!' x ':=' m 'in' k" := (bind m (fun x => k))
  (at level 10, x name, m at level 100, k at level 200) : effects_scope.
Notation "'do!' m 'in' k" := (bind m (fun _ => k))
  (at level 10, m at level 100, k at level 200) : effects_scope.

End Effects.

(** * The embeddings service

    [ReceiverService.processThread] hands each annotated thread to
    [EmbeddingsService.processThread]. This module embeds that method
    and what it calls in [apps/api/src/embeddings/embeddings.service.ts]:
    [getThreadAnnotations], [extractStylePatterns] with its retry loop,
    and [createThreadContext].

    Conventions of the embedding:
    - the database, the language model and the embedding model are
      oracles ([Services]); the trace records every request and, for the
      language model, its answer;
    - the text that [createThreadContext] renders and [formatDate] are
      parameters: they are pure and total, and no property depends on
      the rendered text;
    - the pause of the exponential backoff is recorded with its base
      delay [BASE_DELAY * 2 ^ (retryCount - 1)], which the code scales by
      a random factor;
    - an array that [Array.isArray] rejects is [None]; a set is a list in
      insertion order. *)

Module Embeddings.

Definition MAX_RETRIES : nat := 3.
Definition BASE_DELAY : Z := 8000.

(** What [AgentsService.extractPatterns] answers. *)
Record EmotionalMarkers : Type := {
  primary : JsStr;
  secondary : option (list string);
  markers : option (list string)
}.

Record FormalityIndicators : Type := {
  level : JsStr;
  formality_markers : option (list string)
}.

Record VocabularyProfile : Type := {
  complexity : JsStr;
  specializedTerms : option (list string);
  preferences : option (list string)
}.

Record StylePatterns : Type := {
  greetings : option (list string);
  signoffs : option (list string);
  commonPhrases : option (list string);
  sentenceStructures : option (list string);
  emotionalMarkers : option EmotionalMarkers;
  formalityIndicators : option FormalityIndicators;
  vocabularyProfile : option VocabularyProfile
}.

(** The local [patterns] of [extractStylePatterns], and the object it
    returns: the sets, and the three scalar fields. *)
Record Patterns : Type := mkPatterns {
  acc_greetings : list string;
  acc_signoffs : list string;
  acc_commonPhrases : list string;
  acc_sentenceStructures : list string;
  acc_primary : string;
  acc_secondary : list string;
  acc_markers : list string;
  acc_level : string;
  acc_formality_markers : list string;
  acc_complexity : string;
  acc_specializedTerms : list string;
  acc_preferences : list string
}.

(** The second argument of [processThread]: [{ threadId, date }]. *)
Record ThreadRef : Type := {
  threadId : JsStr;
  date : string
}.

(** The row that [processThread] upserts into [thread_embeddings]. *)
Record EmbeddingRow : Type := {
  thread_id : string;
  user_id : string;
  recipient_id : string;
  embedding : string;
  context : string;
  message_count : nat;
  last_message_date : string;
  style_patterns : Patterns
}.

Inductive LogLine : Type :=
| ErrorIdsMissing
| ErrorGetThreadAnnotations (e : Err)
| WarnRateLimit (attempt max : nat)
| ErrorStylePatterns (e : Err)
| ErrorAfterRetries (max : nat) (lastError : option Err)
| ErrorMissingThreadInformation
| ErrorUpdatingThreadEmbedding (e : Err)
| ErrorFailedToProcessThread (thread : string) (e : Err)
| ErrorCreatingThreadContext (e : Err).

Inductive Event : Type :=
| EvLog (l : LogLine)
| EvSelectAnnotations (thread user : string)
| EvExtractPatterns (message : AnnotationRow)
    (answer : Err + option StylePatterns)
| EvSleep (base : Z)
| EvEmbedQuery (text : string)
| EvUpsert (row : EmbeddingRow).

(** The remote services. A Supabase call resolves to [{ data, error }];
    the language model answers with patterns or with something falsy. *)
Record Services (S : Type) : Type := {
  select_annotations :
    string -> string -> S -> (Err + QueryResult (list AnnotationRow)) * S;
  extractPatterns : AnnotationRow -> S -> (Err + option StylePatterns) * S;
  embedQuery : string -> S -> (Err + string) * S;
  upsert : EmbeddingRow -> S -> (Err + option Err) * S
}.
Arguments select_annotations {S} _.
Arguments extractPatterns {S} _.
Arguments embedQuery {S} _.
Arguments upsert {S} _.

Export Effects.

Abbreviation World S := (Effects.World S Event).
Abbreviation Run S A := (Effects.Run S Event A).

Definition log {S} (l : LogLine) : Run S unit :=
  fun w => (Returned tt, record (EvLog l) w).

(** [await new Promise((resolve) => setTimeout(resolve, delay))] *)
Definition sleep {S} (base : Z) : Run S unit :=
  fun w => (Returned tt, record (EvSleep base) w).

#[local] Open Scope effects_scope.

(** [haystack.includes(needle)] *)
Fixpoint includes (needle haystack : string) : bool :=
  String.prefix needle haystack
  || match haystack with
     | EmptyString => false
     | String _ rest => includes needle rest
     end.

(** "Check if it's a rate limit error". *)
Definition is_rate_limit (errorMessage : string) : bool :=
  includes "429" errorMessage || includes "rate limit" errorMessage.

(** [BASE_DELAY * Math.pow(2, retryCount - 1)] *)
Definition backoff_base (retryCount : nat) : Z :=
  BASE_DELAY * 2 ^ (Z.of_nat retryCount - 1).

(** [if (Array.isArray(xs)) xs.forEach((x) => s.add(x))] *)
Definition add_all (xs : option (list string)) (s : list string)
  : list string :=
  match xs with
  | Some l => fold_left (fun s x => set_add x s) l s
  | None => s
  end.

(** [if (incoming && (!current || current === sentinel)) current = incoming] *)
Definition take_unless_set (sentinel : string) (current : string)
    (incoming : JsStr) : string :=
  match incoming with
  | JsString s =>
      if truthy incoming
         && (String.eqb current "" || String.eqb current sentinel)
      then s
      else current
  | _ => current
  end.

(** The body of the [try] block once the model has answered with
    patterns. *)
Definition merge (patterns : Patterns) (stylePatterns : StylePatterns)
  : Patterns :=
  {| acc_greetings :=
       add_all (greetings stylePatterns) (acc_greetings patterns);
     acc_signoffs :=
       add_all (signoffs stylePatterns) (acc_signoffs patterns);
     acc_commonPhrases :=
       add_all (commonPhrases stylePatterns) (acc_commonPhrases patterns);
     acc_sentenceStructures :=
       add_all (sentenceStructures stylePatterns)
         (acc_sentenceStructures patterns);
     acc_primary :=
       match emotionalMarkers stylePatterns with
       | Some m => take_unless_set "neutral" (acc_primary patterns) (primary m)
       | None => acc_primary patterns
       end;
     acc_secondary :=
       match emotionalMarkers stylePatterns with
       | Some m => add_all (secondary m) (acc_secondary patterns)
       | None => acc_secondary patterns
       end;
     acc_markers :=
       match emotionalMarkers stylePatterns with
       | Some m => add_all (markers m) (acc_markers patterns)
       | None => acc_markers patterns
       end;
     acc_level :=
       match formalityIndicators stylePatterns with
       | Some f => take_unless_set "neutral" (acc_level patterns) (level f)
       | None => acc_level patterns
       end;
     acc_formality_markers :=
       match formalityIndicators stylePatterns with
       | Some f => add_all (formality_markers f)
                     (acc_formality_markers patterns)
       | None => acc_formality_markers patterns
       end;
     acc_complexity :=
       match vocabularyProfile stylePatterns with
       | Some v =>
           take_unless_set "unknown" (acc_complexity patterns) (complexity v)
       | None => acc_complexity patterns
       end;
     acc_specializedTerms :=
       match vocabularyProfile stylePatterns with
       | Some v => add_all (specializedTerms v) (acc_specializedTerms patterns)
       | None => acc_specializedTerms patterns
       end;
     acc_preferences :=
       match vocabularyProfile stylePatterns with
       | Some v => add_all (preferences v) (acc_preferences patterns)
       | None => acc_preferences patterns
       end |}.

(** The empty patterns: the initial value of [patterns], and what
    [extractStylePatterns] returns for an empty list of messages. *)
Definition empty_patterns : Patterns :=
  mkPatterns [] [] [] [] "" [] [] "" [] "" [] [].

(** [s || d] *)
Definition or_default (s d : string) : string :=
  if String.eqb s "" then d else s.

(** "Convert Sets back to arrays for return value". *)
Definition to_result (patterns : Patterns) : Patterns :=
  {| acc_greetings := acc_greetings patterns;
     acc_signoffs := acc_signoffs patterns;
     acc_commonPhrases := acc_commonPhrases patterns;
     acc_sentenceStructures := acc_sentenceStructures patterns;
     acc_primary := or_default (acc_primary patterns) "neutral";
     acc_secondary := acc_secondary patterns;
     acc_markers := acc_markers patterns;
     acc_level := or_default (acc_level patterns) "neutral";
     acc_formality_markers := acc_formality_markers patterns;
     acc_complexity := or_default (acc_complexity patterns) "unknown";
     acc_specializedTerms := acc_specializedTerms patterns;
     acc_preferences := acc_preferences patterns |}.

(** How one turn of the [while] loop ends. *)
Inductive Next : Type :=
| Break (retryCount : nat) (lastError : option Err) (patterns : Patterns)
| Continue (retryCount : nat) (lastError : option Err).

Section Service.
Context {S : Type} (C : Services S).
Context (render : Patterns -> list AnnotationRow -> string -> string).
Context (formatDate : string -> string).

Definition getThreadAnnotations (threadId userId : JsStr)
  : Run S (list AnnotationRow) :=
  match threadId, userId with
  | JsString thread, JsString user =>
      if negb (truthy threadId) || negb (truthy userId) then
        do! log ErrorIdsMissing in ret []
      else
        let! r := call (fun _ => EvSelectAnnotations thread user)
                    (select_annotations C thread user) in
        match error r with
        | Some e => do! log (ErrorGetThreadAnnotations e) in ret []
        | None => ret (default [] (data r))
        end
  | _, _ => do! log ErrorIdsMissing in ret []
  end.

(** The [while (retryCount < MAX_RETRIES)] loop for one message; each
    turn ends the loop or increments [retryCount], so [MAX_RETRIES] turns
    are enough fuel. *)
Fixpoint retry_loop (fuel : nat) (message : AnnotationRow)
    (retryCount : nat) (lastError : option Err) (patterns : Patterns)
  : Run S (nat * option Err * Patterns) :=
  if (retryCount <? MAX_RETRIES)%nat then
    match fuel with
    | O => out_of_fuel
    | Datatypes.S fuel' =>
        let! next :=
          try_catch
            (let! stylePatterns :=
               call (EvExtractPatterns message) (extractPatterns C message) in
             match stylePatterns with
             | None => ret (Break retryCount lastError patterns)
             | Some sp => ret (Break retryCount lastError (merge patterns sp))
             end)
            (fun error =>
               if is_rate_limit error then
                 let retryCount := Datatypes.S retryCount in
                 if (retryCount <? MAX_RETRIES)%nat then
                   do! log (WarnRateLimit retryCount MAX_RETRIES) in
                   do! sleep (backoff_base retryCount) in
                   ret (Continue retryCount (Some error))
                 else
                   do! log (ErrorStylePatterns error) in
                   ret (Break retryCount (Some error) patterns)
               else
                 do! log (ErrorStylePatterns error) in
                 ret (Break retryCount (Some error) patterns)) in
        match next with
        | Continue retryCount lastError =>
            retry_loop fuel' message retryCount lastError patterns
        | Break retryCount lastError patterns =>
            ret (retryCount, lastError, patterns)
        end
    end
  else ret (retryCount, lastError, patterns).

(** The body of [for (const message of messages)]. *)
Definition extractOne (message : AnnotationRow) (patterns : Patterns)
  : Run S Patterns :=
  let! r := retry_loop MAX_RETRIES message 0 None patterns in
  do! (if (r.1.1 =? MAX_RETRIES)%nat
       then log (ErrorAfterRetries MAX_RETRIES r.1.2)
       else ret tt) in
  ret r.2.

Fixpoint extractAll (messages : list AnnotationRow) (patterns : Patterns)
  : Run S Patterns :=
  match messages with
  | [] => ret patterns
  | message :: rest =>
      let! patterns := extractOne message patterns in
      extractAll rest patterns
  end.

Definition extractStylePatterns (messages : list AnnotationRow)
  : Run S Patterns :=
  if (length messages =? 0)%nat then ret empty_patterns
  else
    let! patterns := extractAll messages empty_patterns in
    ret (to_result patterns).

Definition createThreadContext (messages : list AnnotationRow)
    (recipient : string) : Run S string :=
  try_catch
    (let! stylePatterns := extractStylePatterns messages in
     ret (render stylePatterns messages recipient))
    (fun e => do! log (ErrorCreatingThreadContext e) in ret "").

Definition processThread (userId : JsStr) (message : option ThreadRef)
    (recipient : string) : Run S unit :=
  match message, userId with
  | Some m, JsString user =>
      match threadId m with
      | JsString thread =>
          if negb (truthy (threadId m)) || negb (truthy userId) then
            log ErrorMissingThreadInformation
          else
            try_catch
              (let! threadMessages :=
                 getThreadAnnotations (threadId m) userId in
               let! threadContext :=
                 createThreadContext threadMessages recipient in
               let! stylePatterns := extractStylePatterns threadMessages in
               let! threadEmbedding :=
                 call (fun _ => EvEmbedQuery threadContext)
                   (embedQuery C threadContext) in
               let row :=
                 {| thread_id := thread;
                    user_id := user;
                    recipient_id := recipient;
                    embedding := threadEmbedding;
                    context := threadContext;
                    message_count := length threadMessages;
                    last_message_date := formatDate (date m);
                    style_patterns := stylePatterns |} in
               let! error := call (fun _ => EvUpsert row) (upsert C row) in
               match error with
               | Some e => log (ErrorUpdatingThreadEmbedding e)
               | None => ret tt
               end)
              (fun e => log (ErrorFailedToProcessThread thread e))
      | _ => log ErrorMissingThreadInformation
      end
  | _, _ => log ErrorMissingThreadInformation
  end.

End Service.

(** *** Observations on traces *)

(** The messages sent to the language model, in order. *)
Definition requests (tr : list Event) : list AnnotationRow :=
  omap (fun ev => match ev with
                  | EvExtractPatterns message _ => Some message
                  | _ => None
                  end) tr.

(** The patterns that the language model answered with. *)
Definition answers (tr : list Event) : list StylePatterns :=
  omap (fun ev => match ev with
                  | EvExtractPatterns _ (inr (Some sp)) => Some sp
                  | _ => None
                  end) tr.

(** The base delays of the pauses. *)
Definition pauses (tr : list Event) : list Z :=
  omap (fun ev => match ev with
                  | EvSleep base => Some base
                  | _ => None
                  end) tr.

(** The lines logged. *)
Definition lines (tr : list Event) : list LogLine :=
  omap (fun ev => match ev with
                  | EvLog l => Some l
                  | _ => None
                  end) tr.

(** The rows written to [thread_embeddings]. *)
Definition upserts (tr : list Event) : list EmbeddingRow :=
  omap (fun ev => match ev with
                  | EvUpsert row => Some row
                  | _ => None
                  end) tr.

(** The first value of [xs] that is truthy and not the sentinel. *)
Fixpoint first_set (sentinel : string) (xs : list JsStr) : option string :=
  match xs with
  | [] => None
  | JsString s :: rest =>
      if negb (String.eqb s "") && negb (String.eqb s sentinel)
      then Some s
      else first_set sentinel rest
  | _ :: rest => first_set sentinel rest
  end.

(** The rate-limit errors that the language model answered with. *)
Definition throttled (tr : list Event) : list Err :=
  omap (fun ev => match ev with
                  | EvExtractPatterns _ (inl e) =>
                      if is_rate_limit e then Some e else None
                  | _ => None
                  end) tr.

(** The events that [extractStylePatterns] may record. *)
Definition of_extraction (ev : Event) : bool :=
  match ev with
  | EvExtractPatterns _ _ | EvSleep _ => true
  | EvLog (WarnRateLimit _ _) | EvLog (ErrorStylePatterns _)
  | EvLog (ErrorAfterRetries _ _) => true
  | _ => false
  end.

(** The lines of the two handlers that [processThread] never reaches:
    the guard of [getThreadAnnotations] and the [catch] of
    [createThreadContext]. *)
Definition of_dead_handler (ev : Event) : bool :=
  match ev with
  | EvLog ErrorIdsMissing | EvLog (ErrorCreatingThreadContext _) => true
  | _ => false
  end.

(** The error lines of the retry loop. *)
Definition is_error_line (l : LogLine) : bool :=
  match l with
  | ErrorStylePatterns _ | ErrorAfterRetries _ _ => true
  | _ => false
  end.

(** The requests that [counts] attempts per message amount to. *)
Definition attempts (messages : list AnnotationRow) (counts : list nat)
  : list AnnotationRow :=
  concat (zip_with (fun m c => replicate c m) messages counts).

(** The rows that [getThreadAnnotations] makes of an answer of the
    database: none when the answer carries an error. *)
Definition rows_of (r : QueryResult (list AnnotationRow))
  : list AnnotationRow :=
  match error r with
  | Some _ => []
  | None => default [] (data r)
  end.

(** The error lines logged. *)
Definition errors (tr : list Event) : list LogLine :=
  omap (fun ev => match ev with
                  | EvLog l => if is_error_line l then Some l else None
                  | _ => None
                  end) tr.

End Embeddings.

(** ** Concrete services

    Scripted services over a counter of the calls answered so far. *)

Module EmbeddingsExamples.
Import Embeddings.

Definition row1 : AnnotationRow :=
  {| created_at := "2024-01-01"; recipients := "r" |}.

Definition row2 : AnnotationRow :=
  {| created_at := "2024-01-02"; recipients := "r" |}.

Definition friendly : StylePatterns :=
  {| greetings := Some ["Hi"; "Hello"; "Hi"];
     signoffs := Some ["Best"];
     commonPhrases := None;
     sentenceStructures := None;
     emotionalMarkers :=
       Some {| primary := JsString "warm"; secondary := None;
               markers := None |};
     formalityIndicators := None;
     vocabularyProfile := None |}.

(** The thread holds two annotated messages and the model answers. *)
Definition steady : Services nat :=
  {| select_annotations := fun _ _ n =>
       (inr {| data := Some [row1; row2]; error := None |}, Datatypes.S n);
     extractPatterns := fun _ n => (inr (Some friendly), Datatypes.S n);
     embedQuery := fun _ n => (inr "vector", Datatypes.S n);
     upsert := fun _ n => (inr None, Datatypes.S n) |}.

(** The language model is rate limited throughout. *)
Definition rate_limited : Services nat :=
  {| select_annotations := select_annotations steady;
     extractPatterns := fun _ n =>
       (inl "429 Too Many Requests", Datatypes.S n);
     embedQuery := embedQuery steady;
     upsert := upsert steady |}.

(** The database cannot read the annotations. *)
Definition database_down : Services nat :=
  {| select_annotations := fun _ _ n =>
       (inr {| data := None; error := Some "connection refused" |},
        Datatypes.S n);
     extractPatterns := extractPatterns steady;
     embedQuery := embedQuery steady;
     upsert := upsert steady |}.

Definition render_recipient (stylePatterns : Patterns)
    (messages : list AnnotationRow) (recipient : string) : string :=
  recipient.

Definition same_date (d : string) : string := d.

Definition fresh : World nat := mkWorld 0%nat [].

Definition thread_t1 : option ThreadRef :=
  Some {| threadId := JsString "t1"; date := "2024-01-02" |}.

End EmbeddingsExamples.

(** The sets of the patterns, each with the array of an answer that is
    added to it. *)
Definition set_fields
  : list ((Embeddings.Patterns -> list string)
          * (Embeddings.StylePatterns -> option (list string))) :=
  [ (Embeddings.acc_greetings, Embeddings.greetings);
    (Embeddings.acc_signoffs, Embeddings.signoffs);
    (Embeddings.acc_commonPhrases, Embeddings.commonPhrases);
    (Embeddings.acc_sentenceStructures, Embeddings.sentenceStructures);
    (Embeddings.acc_secondary,
     fun sp => Embeddings.emotionalMarkers sp ≫= Embeddings.secondary);
    (Embeddings.acc_markers,
     fun sp => Embeddings.emotionalMarkers sp ≫= Embeddings.markers);
    (Embeddings.acc_formality_markers,
     fun sp => Embeddings.formalityIndicators sp
               ≫= Embeddings.formality_markers);
    (Embeddings.acc_specializedTerms,
     fun sp => Embeddings.vocabularyProfile sp
               ≫= Embeddings.specializedTerms);
    (Embeddings.acc_preferences,
     fun sp => Embeddings.vocabularyProfile sp ≫= Embeddings.preferences) ].

(** * The annotation service

    [ReceiverService.processThreads] awaits [AgentsService.autoAnnotate]
    for every slice. This module embeds that method with
    [saveRecipient] and [saveAnnotation] (agents.service.ts).

    Conventions of the embedding:
    - the database, the mailbox and the language model are oracles
      ([Services]); fetching a message stands for the fetch together
      with [parseMessage], [parseAuthor] and the redaction of its text,
      which happen in the same [try] block, and yields the fields of
      [messageData] that are used;
    - [convert] (html-to-text) is a parameter;
    - [annotatePrompt] tells whether [onModuleInit] could load the
      prompt: it logs a failure and lets the service continue without;
    - the array [results] is part of the state, next to the services',
      so that what was pushed before a failure stays pushed;
    - reading a property of [null] or [undefined] throws. *)

Module Agents.
Export Effects.

(** [parseAuthor(parsedMessage.headers.from)] *)
Record Author : Type := {
  name : string;
  email : string
}.

(** The fields of [messageData] that [autoAnnotate] uses. *)
Record MessageData : Type := {
  id : string;
  threadId : string;
  from : Author;
  redactedText : string
}.

(** [response.annotation] and [response.sender] of the language model. *)
Record Annotation : Type := {
  tone : JsStr;
  purpose : JsStr;
  sentiment : JsStr;
  context : JsStr
}.

Record SenderInfo : Type := {
  category : JsStr;
  organization : JsStr
}.

Record Response : Type := {
  annotation : option Annotation;
  sender : option SenderInfo
}.

(** The [sender] that [autoAnnotate] hands to [saveRecipient]. *)
Record Sender : Type := {
  sender_name : string;
  sender_email : string;
  relationship : JsStr;
  sender_organization : JsStr
}.

(** The row upserted into [recipients]. *)
Record RecipientRow : Type := {
  rcp_user_id : string;
  rcp_name : string;
  rcp_email : string;
  rcp_relationship : string;
  rcp_organization : JsStr
}.

(** A stored recipient: its [id] is all that is read. *)
Record Recipient : Type := {
  recipient_id : string
}.

(** The row upserted into [annotations]. *)
Record AnnotationWrite : Type := {
  row_tone : string;
  row_user_id : string;
  row_purpose : string;
  row_source_id : string;
  row_sentiment : string;
  row_thread_id : string;
  row_recipient_id : string;
  row_context : JsStr;
  row_content : string
}.

Inductive LogLine : Type :=
| ErrorFetchingThread (thread : string) (e : Err)
| ErrorFailedToProcessThreads (e : Err)
| WarnInvalidAnnotationResponse (name : string)
| ErrorFailedToSaveRecipient (email : string) (e : Err)
| WarnMissingAnnotation
| ErrorFailedToSaveAnnotation (e : Err).

Inductive Event : Type :=
| EvLog (l : LogLine)
| EvSelectAnnotations (user : string)
| EvThreadsGet (thread : string)
| EvMessagesGet (message : JsStr)
| EvInvoke (content : string) (sender : Author)
| EvGetTypes (enum_type : string)
| EvUpsertRecipient (row : RecipientRow)
| EvUpsertAnnotation (row : AnnotationWrite).

(** The remote services. The query for the user's annotations yields the
    [source_id]s of [data], [None] for [null]; a thread yields the
    identifiers of its messages, [None] when it has no [messages]. *)
Record Services (S : Type) : Type := {
  select_annotations : string -> S -> (Err + option (list string)) * S;
  threads_get : string -> string -> S -> (Err + option (list JsStr)) * S;
  messages_get : string -> JsStr -> S -> (Err + MessageData) * S;
  invoke : string -> Author -> S -> (Err + option Response) * S;
  get_types : string -> S -> (Err + option (list string)) * S;
  upsert_recipient : RecipientRow -> S -> (Err + QueryResult Recipient) * S;
  upsert_annotation : AnnotationWrite -> S -> (Err + QueryResult string) * S
}.
Arguments select_annotations {S} _.
Arguments threads_get {S} _.
Arguments messages_get {S} _.
Arguments invoke {S} _.
Arguments get_types {S} _.
Arguments upsert_recipient {S} _.
Arguments upsert_annotation {S} _.

(** The state of a run: the services, and the array [results]. *)
Abbreviation Run S A := (Effects.Run (S * list (option string)) Event A).
Abbreviation World S := (Effects.World (S * list (option string)) Event).

#[local] Open Scope effects_scope.

Definition log {S} (l : LogLine) : Run S unit :=
  fun w => (Returned tt, record (EvLog l) w).

(** A call of a remote service: [results] is not touched. *)
Definition remote {S A} (ev : Event) (f : S -> (Err + A) * S) : Run S A :=
  call (fun _ => ev)
    (fun st => let (r, s') := f st.1 in (r, (s', st.2))).

(** [results.push(x)] *)
Definition push {S} (x : option string) : Run S unit :=
  fun w => (Returned tt, mkWorld ((ext w).1, (ext w).2 ++ [x]) (trace w)).

(** [options.includes(v) ? v : 'UNKNOWN'] *)
Definition known_or_unknown (v : JsStr) (options : list string) : string :=
  match v with
  | JsString s => if bool_decide (s ∈ options) then s else "UNKNOWN"
  | _ => "UNKNOWN"
  end.

Section Service.
Context {S : Type} (C : Services S).
Context (convert : string -> string).
Context (annotatePrompt : bool).

Definition saveRecipient (sender : Sender) (userId : string)
  : Run S (option Recipient) :=
  let! relationships :=
    remote (EvGetTypes "relationship") (get_types C "relationship") in
  match relationships with
  | None => throw "Cannot read properties of null (reading 'includes')"
  | Some relationships =>
      let row :=
        {| rcp_user_id := userId;
           rcp_name := sender_name sender;
           rcp_email := sender_email sender;
           rcp_relationship :=
             known_or_unknown (relationship sender) relationships;
           rcp_organization := sender_organization sender |} in
      let! r := remote (EvUpsertRecipient row) (upsert_recipient C row) in
      do! (match error r with
           | Some e =>
               log (ErrorFailedToSaveRecipient (sender_email sender) e)
           | None => ret tt
           end) in
      ret (data r)
  end.

(** [v && options.includes(v) ? v : 'UNKNOWN']: the options are only
    looked at for a truthy value. *)
Definition validated (v : JsStr) (options : option (list string))
  : Run S string :=
  if truthy v then
    match options with
    | None => throw "Cannot read properties of null (reading 'includes')"
    | Some options => ret (known_or_unknown v options)
    end
  else ret "UNKNOWN".

Definition saveAnnotation (email : MessageData)
    (recipient : option Recipient) (annotation : option Annotation)
    (userId : string) : Run S (option string) :=
  match annotation with
  | None => do! log WarnMissingAnnotation in ret None
  | Some annotation =>
      let! toneOptions := remote (EvGetTypes "tone") (get_types C "tone") in
      let! purposeOptions :=
        remote (EvGetTypes "purpose") (get_types C "purpose") in
      let! sentimentOptions :=
        remote (EvGetTypes "sentiment") (get_types C "sentiment") in
      let! tone := validated (tone annotation) toneOptions in
      let! purpose := validated (purpose annotation) purposeOptions in
      let! sentiment := validated (sentiment annotation) sentimentOptions in
      match recipient with
      | None => throw "Cannot read properties of null (reading 'id')"
      | Some recipient =>
          let row :=
            {| row_tone := tone;
               row_user_id := userId;
               row_purpose := purpose;
               row_source_id := id email;
               row_sentiment := sentiment;
               row_thread_id := threadId email;
               row_recipient_id := recipient_id recipient;
               row_context := context annotation;
               row_content := convert (redactedText email) |} in
          let! r := remote (EvUpsertAnnotation row) (upsert_annotation C row) in
          do! (match error r with
               | Some e => log (ErrorFailedToSaveAnnotation e)
               | None => ret tt
               end) in
          ret (data r)
      end
  end.

(** [annotations?.some((annotation) => annotation.source_id === id)] *)
Definition already_annotated (annotations : option (list string))
    (id : string) : bool :=
  match annotations with
  | Some source_ids => bool_decide (id ∈ source_ids)
  | None => false
  end.

(** The body of [for (const message of messages)]. *)
Definition annotateMessage (annotations : option (list string))
    (gmail userId : string) (message : JsStr) : Run S unit :=
  let! messageData :=
    remote (EvMessagesGet message) (messages_get C gmail message) in
  if negb (already_annotated annotations (id messageData)) then
    if annotatePrompt then
      let! response :=
        remote (EvInvoke (convert (redactedText messageData))
                  (from messageData))
          (invoke C (convert (redactedText messageData))
             (from messageData)) in
      match response ≫= annotation, response ≫= sender with
      | Some annotation, Some info =>
          let sender :=
            {| sender_name := name (from messageData);
               sender_email := email (from messageData);
               relationship := category info;
               sender_organization := organization info |} in
          let! recipient := saveRecipient sender userId in
          let! annotation :=
            saveAnnotation messageData recipient (Some annotation) userId in
          push annotation
      | _, _ =>
          log (WarnInvalidAnnotationResponse (name (from messageData)))
      end
    else throw "Cannot read properties of undefined (reading 'pipe')"
  else ret tt.

(** The body of [for (const threadId of threadIds)]. *)
Definition annotateThread (annotations : option (list string))
    (gmail userId : string) (threadId : string) : Run S unit :=
  try_catch
    (let! messages :=
       remote (EvThreadsGet threadId) (threads_get C gmail threadId) in
     match messages with
     | Some (m :: ms) =>
         for_each (m :: ms) (annotateMessage annotations gmail userId)
     | _ => ret tt
     end)
    (fun e => log (ErrorFetchingThread threadId e)).

Definition autoAnnotate (gmail : string) (threadIds : list string)
    (userId : string) : Run S (list (option string)) :=
  fun w =>
    try_catch
      (let! annotations :=
         remote (EvSelectAnnotations userId) (select_annotations C userId) in
       do! for_each threadIds (annotateThread annotations gmail userId) in
       fun w' => (Returned (ext w').2, w'))
      (fun e => do! log (ErrorFailedToProcessThreads e) in throw e)
      (mkWorld ((ext w).1, []) (trace w)).

End Service.

(** *** Observations on traces *)

(** The threads requested from the mailbox. *)
Definition thread_requests (tr : list Event) : list string :=
  omap (fun ev => match ev with
                  | EvThreadsGet thread => Some thread
                  | _ => None
                  end) tr.

(** The rows written to [annotations]. *)
Definition annotation_writes (tr : list Event) : list AnnotationWrite :=
  omap (fun ev => match ev with
                  | EvUpsertAnnotation row => Some row
                  | _ => None
                  end) tr.

(** Neither a request to the language model nor a write. *)
Definition idle_event (ev : Event) : Prop :=
  match ev with
  | EvInvoke _ _ | EvUpsertRecipient _ | EvUpsertAnnotation _ => False
  | _ => True
  end.

(** Every event but the request of a thread. *)
Definition inside_thread (ev : Event) : Prop :=
  match ev with
  | EvThreadsGet _ => False
  | _ => True
  end.

(** Not a write to [annotations]. *)
Definition no_annotation_write (ev : Event) : Prop :=
  match ev with
  | EvUpsertAnnotation _ => False
  | _ => True
  end.

(** A write to [annotations] is for a message that was not annotated. *)
Definition writes_new (annotations : option (list string)) (ev : Event)
  : Prop :=
  match ev with
  | EvUpsertAnnotation row =>
      already_annotated annotations (row_source_id row) = false
  | _ => True
  end.

(** A write to [annotations] is for the message [email] of [userId]. *)
Definition writes_for (email : MessageData) (userId : string) (ev : Event)
  : Prop :=
  match ev with
  | EvUpsertAnnotation row =>
      row_source_id row = id email
      /\ row_thread_id row = threadId email
      /\ row_user_id row = userId
  | _ => True
  end.

(** A request for the values of an enumeration. *)
Definition is_get_types (ev : Event) : Prop :=
  match ev with
  | EvGetTypes _ => True
  | _ => False
  end.

Section Specs.
Context {S : Type} (C : Services S).

(** The database answered [options] to a request for the values of
    [enum_type]. *)
Definition answered (enum_type : string) (options : list string) : Prop :=
  exists s s', get_types C enum_type s = (inr (Some options), s').

(** [v] is [UNKNOWN] or one of the values the database answered for
    [enum_type]. *)
Definition valid (enum_type : string) (v : string) : Prop :=
  v = "UNKNOWN"
  \/ exists options, answered enum_type options /\ v ∈ options.

(** The enumerated fields of what is written are valid. *)
Definition writes_valid (ev : Event) : Prop :=
  match ev with
  | EvUpsertRecipient row => valid "relationship" (rcp_relationship row)
  | EvUpsertAnnotation row =>
      valid "tone" (row_tone row)
      /\ valid "purpose" (row_purpose row)
      /\ valid "sentiment" (row_sentiment row)
  | _ => True
  end.

End Specs.

End Agents.

(** * Shutdown of the receiver

    [ReceiverService.onModuleDestroy] (receiver.service.ts, lines 65-88):
    it waits until no message is being processed, polling once per
    second, then closes the receiver, the bus client and the Redis
    connection, in this order.

    The state [S] is that of the process and of the three connections;
    [tick] is what the handlers in flight do to it during one second.
    The polling loop runs on fuel, one unit per second. *)

Module Lifecycle.
Export Effects.

Inductive LogLine : Type :=
| LogWaitingForActive (count : Z)
| LogCleanedUp
| ErrorDuringCleanup (e : Err).

Inductive Event : Type :=
| EvLog (l : LogLine)
| EvSecond
| EvReceiverClose
| EvClientClose
| EvRedisQuit.

Record Process (S : Type) : Type := {
  activeProcessingCount : S -> Z;
  tick : S -> S;
  receiver_close : S -> (Err + unit) * S;
  sbClient_close : S -> (Err + unit) * S;
  redis_quit : S -> (Err + unit) * S
}.
Arguments activeProcessingCount {S} _.
Arguments tick {S} _.
Arguments receiver_close {S} _.
Arguments sbClient_close {S} _.
Arguments redis_quit {S} _.

Abbreviation Run S A := (Effects.Run S Event A).
Abbreviation World S := (Effects.World S Event).

#[local] Open Scope effects_scope.

Definition log {S} (l : LogLine) : Run S unit :=
  fun w => (Returned tt, record (EvLog l) w).

Section Service.
Context {S : Type} (P : Process S).
(** Whether [this.receiver] is set: [onModuleInit] may have failed
    before creating it. *)
Context (receiver : bool).

(** The promise that the interval resolves: every second the count is
    looked at, and the promise resolves when it is zero. *)
Fixpoint wait_for_active (fuel : nat) : Run S unit :=
  match fuel with
  | O => out_of_fuel
  | Datatypes.S fuel' =>
      fun w =>
        let w' := mkWorld (tick P (ext w)) (trace w ++ [EvSecond]) in
        if activeProcessingCount P (ext w') =? 0 then (Returned tt, w')
        else wait_for_active fuel' w'
  end.

Definition onModuleDestroy (fuel : nat) : Run S unit :=
  try_catch
    (do! (fun w =>
            if activeProcessingCount P (ext w) >? 0 then
              (do! log (LogWaitingForActive
                          (activeProcessingCount P (ext w))) in
               wait_for_active fuel) w
            else ret tt w) in
     do! (if receiver
          then call (fun _ => EvReceiverClose) (receiver_close P)
          else ret tt) in
     do! call (fun _ => EvClientClose) (sbClient_close P) in
     do! call (fun _ => EvRedisQuit) (redis_quit P) in
     log LogCleanedUp)
    (fun error => log (ErrorDuringCleanup error)).

End Service.

(** The connections to close, in the order of lines 82-84. *)
Definition connections (receiver : bool) : list Event :=
  (if receiver then [EvReceiverClose] else [])
  ++ [EvClientClose; EvRedisQuit].

Section Closing.
Context {S : Type} (P : Process S).

(** Each connection with the request that closes it. *)
Definition closers (receiver : bool)
  : list (Event * (S -> (Err + unit) * S)) :=
  (if receiver then [(EvReceiverClose, receiver_close P)] else [])
  ++ [(EvClientClose, sbClient_close P); (EvRedisQuit, redis_quit P)].

(** What requesting one closing after the other, up to the first that
    fails, comes to: the requests made, the failure if there was one,
    and the state in which the connections are left. *)
Fixpoint close_each (cs : list (Event * (S -> (Err + unit) * S))) (s : S)
  : list Event * option Err * S :=
  match cs with
  | [] => ([], None, s)
  | (ev, f) :: rest =>
      match f s with
      | (inl e, s') => ([ev], Some e, s')
      | (inr _, s') =>
          let '(evs, failure, s'') := close_each rest s' in
          (ev :: evs, failure, s'')
      end
  end.

(** The last line of a shutdown. *)
Definition closing_line (failure : option Err) : Event :=
  match failure with
  | None => EvLog LogCleanedUp
  | Some e => EvLog (ErrorDuringCleanup e)
  end.

(** The count of messages in flight after [k] seconds. *)
Definition count_after (k : nat) (s : S) : Z :=
  activeProcessingCount P (Nat.iter k (tick P) s).

End Closing.

End Lifecycle.

(** A set of the patterns that collects one array of the answers. *)
Definition collects
    (f : (Embeddings.Patterns -> list string)
         * (Embeddings.StylePatterns -> option (list string))) : Prop :=
  f.1 Embeddings.empty_patterns = []
  /\ (forall p, f.1 (Embeddings.to_result p) = f.1 p)
  /\ (forall p sp,
        f.1 (Embeddings.merge p sp) = Embeddings.add_all (f.2 sp) (f.1 p)).

(** * Properties *)

(** ** Frames: what a computation leaves alone *)

Section Frames.
Context {E : Type}.

#[export] Instance same_gate_frame : Frame (@same_gate E).
Proof.
  split.
  - intros w; split; reflexivity.
  - intros w1 w2 w3 [H1 H2] [H3 H4]; split; congruence.
  - intros e w; split; reflexivity.
Qed.

#[export] Instance same_redis_frame : Frame (@same_redis E).
Proof.
  split.
  - intros w; reflexivity.
  - intros w1 w2 w3 H1 H2; unfold same_redis in *; congruence.
  - intros e w; reflexivity.
Qed.

#[export] Instance quiet_frame (p : Event -> bool) : Frame (@quiet E p).
Proof.
  split.
  - intros w; reflexivity.
  - intros w1 w2 w3 H1 H2; unfold quiet in *; congruence.
  - intros e w; reflexivity.
Qed.

#[export] Instance grows_frame : Frame (@grows E).
Proof.
  split.
  - intros w; unfold grows; reflexivity.
  - intros w1 w2 w3 H1 H2; unfold grows in *; etrans; eassumption.
  - intros e w; unfold grows; reflexivity.
Qed.

#[export] Instance same_redis_but_frame (key : string) :
  Frame (@same_redis_but E key).
Proof.
  split.
  - intros w k _; reflexivity.
  - intros w1 w2 w3 H1 H2 k Hk. rewrite (H2 k Hk). apply H1, Hk.
  - intros e w k _; reflexivity.
Qed.

Lemma same_gate_record (ev : Event) (w : World E) : same_gate w (record ev w).
Proof. split; reflexivity. Qed.

Lemma same_redis_record (ev : Event) (w : World E) : same_redis w (record ev w).
Proof. reflexivity. Qed.

Lemma grows_record (ev : Event) (w : World E) : grows w (record ev w).
Proof. unfold grows; simpl. apply prefix_app_r. reflexivity. Qed.

Lemma observe_app (p : Event -> bool) (l1 l2 : list Event) :
  observe p (l1 ++ l2) = observe p l1 ++ observe p l2.
Proof. unfold observe. apply filter_app. Qed.

Lemma quiet_record (p : Event -> bool) (ev : Event) (w : World E) :
  p ev = false -> quiet p w (record ev w).
Proof.
  intros Hp. unfold quiet; simpl. rewrite observe_app.
  unfold observe at 2. rewrite filter_cons_False, filter_nil, app_nil_r.
  - reflexivity.
  - rewrite Hp. discriminate.
Qed.

Section Stable.
Context (R : relation (World E)) `{!Frame R}.

Lemma stable_ret {A} (a : A) : stable R (ret a).
Proof. intros w. apply frame_refl. Qed.

Lemma stable_throw {A} (e : Err) : stable R (@throw E A e).
Proof. intros w. apply frame_refl. Qed.

Lemma stable_out_of_fuel {A} : stable R (@out_of_fuel E A).
Proof. intros w. apply frame_refl. Qed.

Lemma stable_bind {A B} (m : M E A) (k : A -> M E B) :
  stable R m -> (forall a, stable R (k a)) -> stable R (bind m k).
Proof.
  intros Hm Hk w. unfold bind. specialize (Hm w).
  destruct (m w) as [[a|e|] w1]; simpl in *; try assumption.
  eapply frame_trans; [eassumption|]. apply Hk.
Qed.

Lemma stable_try_catch {A} (m : M E A) (h : Err -> M E A) :
  stable R m -> (forall e, stable R (h e)) -> stable R (try_catch m h).
Proof.
  intros Hm Hh w. unfold try_catch. specialize (Hm w).
  destruct (m w) as [[a|e|] w1]; simpl in *; try assumption.
  eapply frame_trans; [eassumption|]. apply Hh.
Qed.

Lemma stable_try_finally {A} (m : M E A) (c : M E unit) :
  stable R m -> stable R c -> stable R (try_finally m c).
Proof.
  intros Hm Hc w. unfold try_finally. specialize (Hm w).
  destruct (m w) as [[a|e|] w1]; simpl in *; try assumption;
    specialize (Hc w1); destruct (c w1) as [[[]|e'|] w2]; simpl in *;
    eapply frame_trans; eassumption.
Qed.

Lemma stable_call {A} (ev : Event) (f : E -> (Err + A) * E) :
  (forall w, R w (record ev w)) -> stable R (call ev f).
Proof.
  intros Hev w. unfold call.
  destruct (f (ext w)) as [[err|a] e']; simpl;
    (eapply frame_trans; [apply Hev | apply frame_ext]).
Qed.

Lemma stable_log (l : LogLine) :
  (forall w, R w (record (EvLog l) w)) -> stable R (log l).
Proof. intros Hev w. apply Hev. Qed.

Lemma stable_for_each {A} (xs : list A) (f : A -> M E unit) :
  (forall x, stable R (f x)) -> stable R (for_each xs f).
Proof.
  intros Hf. induction xs as [|x xs IH]; simpl.
  - apply stable_ret.
  - apply stable_bind; [apply Hf | intros _; exact IH].
Qed.

Lemma stable_promise_all {A} (ps : list (M E A)) :
  Forall (stable R) ps -> stable R (promise_all ps).
Proof.
  induction 1 as [|p ps Hp _ IH]; simpl.
  - apply stable_ret.
  - intros w. specialize (Hp w).
    destruct (p w) as [[a|e|] w1]; simpl in *; try assumption;
      specialize (IH w1);
      destruct (promise_all ps w1) as [[l|e'|] w2]; simpl in *;
      eapply frame_trans; eassumption.
Qed.

Lemma stable_promise_all_map {A B} (f : A -> M E B) (xs : list A) :
  (forall x, stable R (f x)) -> stable R (promise_all (map f xs)).
Proof.
  intros Hf. apply stable_promise_all.
  apply Forall_forall. intros p Hp.
  apply list_elem_of_In, in_map_iff in Hp. destruct Hp as (x & <- & _).
  apply Hf.
Qed.

End Stable.
End Frames.

Section Tolerance.
Context {E : Type}.

Lemma tolerant_same_gate (P : Event -> bool) : tolerant (@same_gate E) P.
Proof. intros ev w _. apply same_gate_record. Qed.

Lemma tolerant_same_redis (P : Event -> bool) : tolerant (@same_redis E) P.
Proof. intros ev w _. apply same_redis_record. Qed.

Lemma tolerant_same_redis_but (key : string) (P : Event -> bool) :
  tolerant (@same_redis_but E key) P.
Proof. intros ev w _ k _. reflexivity. Qed.

Lemma tolerant_grows (P : Event -> bool) : tolerant (@grows E) P.
Proof. intros ev w _. apply grows_record. Qed.

Lemma tolerant_quiet (p P : Event -> bool) :
  (forall ev, P ev = true -> p ev = false) -> tolerant (@quiet E p) P.
Proof. intros H ev w HP. apply quiet_record, H, HP. Qed.

Lemma tolerant_weaken (R : relation (World E)) (P Q : Event -> bool) :
  (forall ev, P ev = true -> Q ev = true) -> tolerant R Q -> tolerant R P.
Proof. intros H T ev w HP. apply T, H, HP. Qed.

#[export] Instance same_gate_redis_frame : RedisFrame (@same_gate E).
Proof. split. intros r w; split; reflexivity. Qed.

#[export] Instance quiet_redis_frame (p : Event -> bool) : RedisFrame (@quiet E p).
Proof. split. intros r w; reflexivity. Qed.

#[export] Instance grows_redis_frame : RedisFrame (@grows E).
Proof. split. intros r w; unfold grows; reflexivity. Qed.

End Tolerance.

(** Inclusion of one class of events in another, by cases on the event. *)
Ltac event_cases :=
  let ev := fresh "ev" in
  intros ev; destruct ev; simpl; intros; first [discriminate | reflexivity].

(** One step through the structure of a computation. *)
Ltac stable_step T :=
  lazymatch goal with
  | |- stable _ (ret _) => apply stable_ret
  | |- stable _ (throw _) => apply stable_throw
  | |- stable _ out_of_fuel => apply stable_out_of_fuel
  | |- stable _ (bind _ _) => apply stable_bind
  | |- stable _ (try_catch _ _) => apply stable_try_catch
  | |- stable _ (try_finally _ _) => apply stable_try_finally
  | |- stable _ (for_each _ _) => apply stable_for_each
  | |- stable _ (promise_all (map _ _)) => apply stable_promise_all_map
  | |- stable _ (call _ _) =>
      apply stable_call; [typeclasses eauto | intros; apply T; reflexivity]
  | |- stable _ (log _) => apply stable_log; intros; apply T; reflexivity
  | |- stable _ (match ?x with _ => _ end) => destruct x
  end.

Ltac stable_auto T :=
  repeat (first [progress intros | progress cbv zeta | stable_step T
                | typeclasses eauto]).

(** ** Frames of the service *)

Section ServiceFrames.
Context {E : Type} (C : Collab E).
Context (R : relation (World E)) `{!Frame R}.

Lemma stable_fetchThreadBatch (gmail : string) (pageToken : JsStr) :
  tolerant R loop_calls -> stable R (fetchThreadBatch C gmail pageToken).
Proof. intros T. unfold fetchThreadBatch. stable_auto T. Qed.

Lemma stable_pagination_loop (fuel : nat) (gmail : string)
    (known : gset string) (remaining : Z) (pageToken : JsStr)
    (threadIds : list string) :
  tolerant R loop_calls ->
  stable R (pagination_loop C fuel gmail known remaining pageToken threadIds).
Proof.
  intros T. revert pageToken threadIds.
  induction fuel as [|fuel IH]; intros pageToken threadIds; simpl;
    destruct (is_defined pageToken && _); stable_auto T.
  - apply stable_fetchThreadBatch, T.
  - apply IH.
Qed.

Lemma stable_getExistingThreads (userId : string) :
  tolerant R discovery_calls -> stable R (getExistingThreads C userId).
Proof. intros T. unfold getExistingThreads. stable_auto T. Qed.

Lemma stable_batchGetMessages (gmail : string) (messageIds : list JsStr) :
  tolerant R fetch_calls -> stable R (batchGetMessages C gmail messageIds).
Proof. intros T. unfold batchGetMessages, getMessage. stable_auto T. Qed.

Lemma stable_processThread (threadId userId : string) :
  tolerant R slice_calls -> stable R (processThread C threadId userId).
Proof. intros T. unfold processThread. stable_auto T. Qed.

Lemma stable_autoAnnotate (gmail : string) (threadIds : list string)
    (userId : string) :
  tolerant R annotation_calls ->
  stable R (autoAnnotate C gmail threadIds userId).
Proof. intros T. unfold autoAnnotate, annotateOrLog. stable_auto T. Qed.

Lemma stable_fetchThreadsData (gmail : string) (batch : list string) :
  tolerant R fetch_calls -> stable R (fetchThreadsData C gmail batch).
Proof.
  intros T. unfold fetchThreadsData. stable_auto T.
  unfold fetchThreadOrNull. stable_auto T.
Qed.

Lemma stable_embedThreads (batch : list string) (userId : string) :
  tolerant R slice_calls -> stable R (embedThreads C batch userId).
Proof.
  intros T. unfold embedThreads. stable_auto T.
  unfold embedOrLog. stable_auto T.
  apply stable_processThread, T.
Qed.

Lemma stable_processBatch (gmail : string) (batch : list string)
    (userId : string) :
  tolerant R slice_calls -> stable R (processBatch C gmail batch userId).
Proof.
  intros T. unfold processBatch. stable_auto T.
  - apply stable_fetchThreadsData.
    eapply tolerant_weaken; [|exact T]. event_cases.
  - apply stable_batchGetMessages.
    eapply tolerant_weaken; [|exact T]. event_cases.
  - apply stable_autoAnnotate.
    eapply tolerant_weaken; [|exact T]. event_cases.
  - apply stable_embedThreads, T.
Qed.

Lemma stable_processThreads_from (n : nat) (gmail : string)
    (threadIds : list string) (userId : string) (i : nat) :
  tolerant R slice_calls ->
  stable R (processThreads_from C n gmail threadIds userId i).
Proof.
  intros T. revert i. induction n as [|n IH]; intros i; simpl;
    destruct (i <? length threadIds)%nat; stable_auto T.
  - apply stable_processBatch, T.
  - apply IH.
Qed.

Lemma stable_processThreads (gmail : string) (threadIds : list string)
    (userId : string) :
  tolerant R slice_calls -> stable R (processThreads C gmail threadIds userId).
Proof. intros T. apply stable_processThreads_from, T. Qed.

Lemma stable_redis_get (key : string) :
  tolerant R discovery_calls -> stable R (@redis_get E key).
Proof. intros T w. apply T. reflexivity. Qed.

Lemma stable_update_pagination (key : string) (pageToken : JsStr)
    (threadIds : list string) (remaining : Z) :
  keeps_cursor_commands R key ->
  stable R (@update_pagination E key pageToken threadIds remaining).
Proof.
  intros [Hdel Hset]. unfold update_pagination.
  destruct (negb (truthy pageToken) || _); [exact Hdel|].
  destruct pageToken; first [apply stable_ret | apply Hset]; exact _.
Qed.

Lemma stable_fetchNewThreads (fuel : nat) (gmail : string)
    (existing : list string) (userId key : string) :
  tolerant R discovery_calls -> keeps_cursor_commands R key ->
  stable R (fetchNewThreads C fuel gmail existing userId key).
Proof.
  intros T K. unfold fetchNewThreads.
  apply stable_bind; try exact _; [apply stable_redis_get, T|].
  intros pageToken.
  cbv zeta. destruct (_ <=? 0); stable_auto T.
  - apply stable_pagination_loop.
    eapply tolerant_weaken; [|exact T]. event_cases.
  - apply stable_update_pagination, K.
Qed.

Lemma stable_processMessage (fuel : nat) (message : Message) :
  tolerant R processing_calls ->
  (forall key, keeps_cursor_commands R key) ->
  stable R (processMessage C fuel message).
Proof.
  intros T K. unfold processMessage. stable_auto T.
  - apply stable_getExistingThreads.
    eapply tolerant_weaken; [|exact T]. event_cases.
  - apply stable_fetchNewThreads; [|apply K].
    eapply tolerant_weaken; [|exact T]. event_cases.
  - apply stable_processThreads.
    eapply tolerant_weaken; [|exact T]. event_cases.
Qed.

Lemma stable_handleMessageError (message : Message) (e : Err) :
  tolerant R (fun ev => is_log ev || is_settlement ev) ->
  stable R (handleMessageError C message e).
Proof.
  intros T. unfold handleMessageError. cbv zeta.
  destruct (_ <=? maxRetries); stable_auto T.
Qed.

Lemma stable_log_count (l : Z -> LogLine) :
  tolerant R is_log -> stable R (@log_count E l).
Proof. intros T w. apply T. reflexivity. Qed.

Lemma stable_attempt (fuel : nat) (message : Message) :
  tolerant R (fun _ => true) ->
  (forall key, keeps_cursor_commands R key) ->
  stable R (attempt C fuel message).
Proof.
  intros T K. unfold attempt, guarded. stable_auto T.
  - apply stable_log_count. intros ev w _. apply T. reflexivity.
  - apply stable_processMessage; [|exact K].
    intros ev w _. apply T. reflexivity.
  - apply stable_handleMessageError. intros ev w _. apply T. reflexivity.
Qed.

End ServiceFrames.

Section CursorCommands.
Context {E : Type}.

Lemma redis_frame_keeps (R : relation (World E)) `{!Frame R} `{!RedisFrame R}
    (P : Event -> bool) (key : string) :
  tolerant R P -> (forall ev, is_cursor_write ev = true -> P ev = true) ->
  keeps_cursor_commands R key.
Proof.
  intros T HP. split; [|intros value ttl]; intros w.
  - apply (frame_trans _ (record (EvRedisDel key) w)).
    + apply T, HP. reflexivity.
    + apply (frame_redis (delete key (redis w)) (record (EvRedisDel key) w)).
  - apply (frame_trans _ (record (EvRedisSet key value ttl) w)).
    + apply T, HP. reflexivity.
    + apply (frame_redis (<[key := (value, ttl)]> (redis w))
               (record (EvRedisSet key value ttl) w)).
Qed.

Lemma same_redis_but_keeps (key : string) :
  keeps_cursor_commands (@same_redis_but E key) key.
Proof.
  split; [|intros value ttl]; intros w k Hk; simpl.
  - apply lookup_delete_ne. congruence.
  - apply lookup_insert_ne. congruence.
Qed.

End CursorCommands.

(** ** Inversion of the monad's combinators *)

Section Inversion.
Context {E : Type}.

Lemma bind_returned {A B} (m : M E A) (k : A -> M E B) w b w' :
  bind m k w = (Returned b, w') ->
  exists a w1, m w = (Returned a, w1) /\ k a w1 = (Returned b, w').
Proof.
  unfold bind. destruct (m w) as [[a|e|] w1]; intros H; try discriminate.
  exists a, w1. split; [reflexivity | exact H].
Qed.


Lemma try_catch_returned {A} (m : M E A) (h : Err -> M E A) w a w' :
  try_catch m h w = (Returned a, w') ->
  m w = (Returned a, w')
  \/ exists e w1, m w = (Thrown e, w1) /\ h e w1 = (Returned a, w').
Proof.
  unfold try_catch. destruct (m w) as [[a0|e|] w1]; intros H;
    try discriminate.
  - left. exact H.
  - right. exists e, w1. split; [reflexivity | exact H].
Qed.


End Inversion.

(** ** Thread discovery *)

Section Discovery.
Context {E : Type} (C : Collab E).

Lemma elem_of_set_add (x y : string) (s : list string) :
  y ∈ set_add x s <-> y = x \/ y ∈ s.
Proof.
  unfold set_add. case_bool_decide as Hx.
  - split; [tauto|]. intros [->|H]; assumption.
  - rewrite elem_of_app, list_elem_of_singleton. tauto.
Qed.

Lemma NoDup_set_add (x : string) (s : list string) :
  NoDup s -> NoDup (set_add x s).
Proof.
  intros Hs. unfold set_add. case_bool_decide as Hx; [assumption|].
  apply NoDup_app. split; [assumption|]. split.
  - intros y Hy Hy'. apply list_elem_of_singleton in Hy'. congruence.
  - apply NoDup_singleton.
Qed.

Lemma length_set_add (x : string) (s : list string) :
  (length (set_add x s) <= S (length s))%nat.
Proof.
  unfold set_add. case_bool_decide; [lia|].
  rewrite length_app. simpl. lia.
Qed.

Lemma filter_page_ok (known : gset string) (remaining : Z)
    (page : list JsStr) (threadIds : list string) :
  discovered_ok known remaining threadIds ->
  discovered_ok known remaining (filter_page known remaining page threadIds).
Proof.
  revert threadIds. induction page as [|thread rest IH];
    intros threadIds Hok; simpl; [assumption|].
  destruct (Z.geb_spec (Z.of_nat (length threadIds)) remaining) as [Hge|Hlt];
    [assumption|].
  apply IH. destruct thread as [| |id]; try assumption.
  destruct (truthy (JsString id) && negb (bool_decide (id ∈ known))) eqn:Hc;
    [|assumption].
  apply andb_true_iff in Hc as [_ Hn].
  apply negb_true_iff, bool_decide_eq_false in Hn.
  destruct Hok as (Hnd & Hnew & Hlen). repeat split.
  - apply NoDup_set_add, Hnd.
  - intros x Hx. apply elem_of_set_add in Hx as [->|Hx]; [assumption|].
    apply Hnew, Hx.
  - pose proof (length_set_add id threadIds). lia.
Qed.

(** What the loop has established when it exits normally: the set is
    well formed, and either the listing is exhausted or the set is full. *)
Lemma pagination_loop_returned (fuel : nat) (gmail : string)
    (known : gset string) (remaining : Z) (pageToken : JsStr)
    (threadIds : list string) (w : World E) r w' :
  discovered_ok known remaining threadIds ->
  pagination_loop C fuel gmail known remaining pageToken threadIds w
    = (Returned r, w') ->
  discovered_ok known remaining r.2
  /\ (is_defined r.1 = false \/ remaining <= Z.of_nat (length r.2)).
Proof.
  revert pageToken threadIds w.
  induction fuel as [|fuel IH]; intros pageToken threadIds w Hok; simpl;
    destruct (is_defined pageToken
              && (Z.of_nat (length threadIds) <? remaining)) eqn:Hguard;
    intros Hrun; try discriminate.
  - inversion Hrun; subst; simpl. split; [assumption|].
    apply andb_false_iff in Hguard as [Hd|Hl]; [left; assumption|].
    right. apply Z.ltb_ge in Hl. exact Hl.
  - apply bind_returned in Hrun as (page & w1 & _ & Hrest).
    eapply IH; [|exact Hrest]. apply filter_page_ok, Hok.
  - inversion Hrun; subst; simpl. split; [assumption|].
    apply andb_false_iff in Hguard as [Hd|Hl]; [left; assumption|].
    right. apply Z.ltb_ge in Hl. exact Hl.
Qed.

Lemma discovered_ok_nil (known : gset string) (remaining : Z) :
  0 < remaining -> discovered_ok known remaining [].
Proof.
  intros H. repeat split.
  - apply NoDup_nil_2.
  - intros x Hx. apply elem_of_nil in Hx. contradiction.
  - simpl. lia.
Qed.

(** The successful exits of [fetchNewThreads] past the capacity check:
    the loop returned, and the cursor was updated from its result. *)
Lemma fetchNewThreads_returned (fuel : nat) (gmail : string)
    (existing : list string) (userId key : string) (w : World E) ids w' :
  0 < MAX_THREADS_PER_USER - Z.of_nat (length existing) ->
  fetchNewThreads C fuel gmail existing userId key w = (Returned ids, w') ->
  exists pageToken w1,
    pagination_loop C fuel gmail (list_to_set existing)
      (MAX_THREADS_PER_USER - Z.of_nat (length existing))
      (stored key w) [] (record (EvRedisGet key) w)
      = (Returned (pageToken, ids), w1)
    /\ (update_pagination key pageToken ids
          (MAX_THREADS_PER_USER - Z.of_nat (length existing)) w1).2 = w'.
Proof.
  intros Hpos. unfold fetchNewThreads, bind at 1, redis_get. cbv zeta.
  destruct (Z.leb_spec (MAX_THREADS_PER_USER - Z.of_nat (length existing)) 0)
    as [Hle|_]; [lia|].
  intros Hrun. apply try_catch_returned in Hrun as [Hrun|Hrun].
  - apply bind_returned in Hrun as ([pageToken ids'] & w1 & Hloop & Hrest).
    simpl in Hrest.
    apply bind_returned in Hrest as ([] & w2 & Hupd & Hret).
    inversion Hret; subst. exists pageToken, w1. split; [exact Hloop|].
    rewrite Hupd. reflexivity.
  - destruct Hrun as (e & w1 & _ & Hh).
    apply bind_returned in Hh as ([] & w2 & _ & Hthrow). discriminate.
Qed.

(** C1. [fetchNewThreads]: when the cap minus the number of processed
    threads is not positive, the empty list is returned at once, after the
    cursor was read and without any call to the mailbox; otherwise a
    returned list has no identifier of the processed ones, no repetition,
    and at most as many entries as the cap leaves. *)
Theorem fetchNewThreads_postcondition (fuel : nat) (gmail : string)
    (existing : list string) (userId key : string) (w : World E) :
  let remaining := MAX_THREADS_PER_USER - Z.of_nat (length existing) in
  (remaining <= 0 ->
     exists w',
       fetchNewThreads C fuel gmail existing userId key w = (Returned [], w')
       /\ ext w' = ext w
       /\ observe is_list_call (trace w') = observe is_list_call (trace w)
       /\ observe (fun ev => negb (is_log ev)) (trace w')
          = observe (fun ev => negb (is_log ev)) (trace w) ++ [EvRedisGet key])
  /\ (0 < remaining ->
       forall ids w',
         fetchNewThreads C fuel gmail existing userId key w
           = (Returned ids, w') ->
         NoDup ids
         /\ (forall x, x ∈ ids -> x ∉ existing)
         /\ Z.of_nat (length ids) <= remaining).
Proof.
  intros remaining. split.
  - intros Hle. eexists. split; [|split; [|split]].
    + unfold fetchNewThreads, bind at 1, redis_get. cbv zeta.
      fold remaining. destruct (Z.leb_spec remaining 0) as [_|Hgt]; [|lia].
      reflexivity.
    + reflexivity.
    + simpl. rewrite !observe_app. simpl. rewrite !app_nil_r. reflexivity.
    + simpl. rewrite !observe_app. simpl. rewrite !app_nil_r. reflexivity.
  - intros Hpos ids w' Hrun.
    apply fetchNewThreads_returned in Hrun as (pageToken & w1 & Hloop & _);
      [|exact Hpos].
    apply pagination_loop_returned in Hloop as [(Hnd & Hnew & Hlen) _];
      [|apply discovered_ok_nil, Hpos].
    simpl in *. repeat split; try assumption.
    intros x Hx Hex. apply (Hnew x Hx). apply elem_of_list_to_set, Hex.
Qed.

Lemma fetchThreadBatch_resolves (gmail : string) (token : JsStr)
    (w : World E) response e' :
  threads_list C gmail token (ext w) = (inr response, e') ->
  fetchThreadBatch C gmail token w
  = (Returned (mkThreadPage (default [] (threads response))
                            (resp_nextPageToken response)),
     set_ext e' (record (EvThreadsList token) w)).
Proof.
  intros H. unfold fetchThreadBatch, try_catch, bind, call. rewrite H.
  reflexivity.
Qed.

Lemma fetchThreadBatch_rejects (gmail : string) (token : JsStr)
    (w : World E) err e' :
  threads_list C gmail token (ext w) = (inl err, e') ->
  fetchThreadBatch C gmail token w
  = (Thrown err,
     record (EvLog (ErrorFetchingThreadBatch err))
            (set_ext e' (record (EvThreadsList token) w))).
Proof.
  intros H. unfold fetchThreadBatch, try_catch, bind, call. rewrite H.
  reflexivity.
Qed.

(** One turn of the loop on a page that was fetched. *)
Lemma pagination_loop_step (fuel : nat) (gmail : string)
    (known : gset string) (remaining : Z) (pageToken : JsStr)
    (threadIds : list string) (w : World E) response e' :
  is_defined pageToken && (Z.of_nat (length threadIds) <? remaining) = true ->
  threads_list C gmail pageToken (ext w) = (inr response, e') ->
  pagination_loop C (S fuel) gmail known remaining pageToken threadIds w
  = pagination_loop C fuel gmail known remaining
      (resp_nextPageToken response)
      (filter_page known remaining (default [] (threads response)) threadIds)
      (set_ext e' (record (EvThreadsList pageToken) w)).
Proof.
  intros Hguard Hcall. cbn [pagination_loop]. rewrite Hguard.
  unfold bind. rewrite (fetchThreadBatch_resolves _ _ _ _ _ Hcall).
  reflexivity.
Qed.

(** The loop settles when the listing ends within the fuel it is given. *)
Lemma pagination_loop_total (fuel : nat) (gmail : string)
    (known : gset string) (remaining : Z) (pageToken : JsStr)
    (threadIds : list string) (w : World E) :
  listing_ends C gmail fuel pageToken (ext w) ->
  (pagination_loop C fuel gmail known remaining pageToken threadIds w).1
    <> OutOfFuel.
Proof.
  intros Hends. remember (ext w) as e eqn:He.
  revert threadIds w He.
  induction Hends as [n e|n token e err e' Hcall
                     |n token e response e' Hcall Hends IH];
    intros threadIds w He; subst e.
  - destruct n; simpl; discriminate.
  - simpl. destruct (is_defined token && _); [|discriminate].
    unfold bind. rewrite (fetchThreadBatch_rejects _ _ _ _ _ Hcall).
    discriminate.
  - simpl. destruct (is_defined token && _); [|discriminate].
    unfold bind. rewrite (fetchThreadBatch_resolves _ _ _ _ _ Hcall).
    apply IH. reflexivity.
Qed.

(** Below the cap, [fetchNewThreads] is still running whenever its loop
    is. *)
Lemma fetchNewThreads_runs_out (fuel : nat) (gmail : string)
    (existing : list string) (userId key : string) (w : World E) :
  0 < MAX_THREADS_PER_USER - Z.of_nat (length existing) ->
  (pagination_loop C fuel gmail (list_to_set existing)
     (MAX_THREADS_PER_USER - Z.of_nat (length existing))
     (stored key w) [] (record (EvRedisGet key) w)).1 = OutOfFuel ->
  (fetchNewThreads C fuel gmail existing userId key w).1 = OutOfFuel.
Proof.
  intros Hpos Hloop. unfold fetchNewThreads, bind at 1, redis_get. cbv zeta.
  destruct (Z.leb_spec (MAX_THREADS_PER_USER - Z.of_nat (length existing)) 0)
    as [Hle|_]; [lia|].
  unfold try_catch, bind at 1.
  destruct (pagination_loop _ _ _ _ _ _ _ _) as [r w1]. simpl in Hloop.
  subst r. reflexivity.
Qed.

Lemma fetchNewThreads_total (fuel : nat) (gmail : string)
    (existing : list string) (userId key : string) (w : World E) :
  listing_ends C gmail fuel (stored key w) (ext w) ->
  (fetchNewThreads C fuel gmail existing userId key w).1 <> OutOfFuel.
Proof.
  intros Hends. unfold fetchNewThreads, bind at 1, redis_get. cbv zeta.
  destruct (_ <=? 0); [discriminate|].
  unfold try_catch, bind at 1.
  pose proof (pagination_loop_total fuel gmail (list_to_set existing)
                (MAX_THREADS_PER_USER - Z.of_nat (length existing))
                (stored key w) [] (record (EvRedisGet key) w) Hends) as Hloop.
  destruct (pagination_loop _ _ _ _ _ _ _ _) as [[r|e|] w1]; simpl in *.
  - unfold bind, update_pagination.
    destruct (negb (truthy r.1) || _); simpl; [discriminate|].
    destruct r.1; simpl; discriminate.
  - discriminate.
  - congruence.
Qed.

Lemma update_pagination_returns (key : string) (pageToken : JsStr)
    (ids : list string) (remaining : Z) (w : World E) :
  (update_pagination key pageToken ids remaining w).1 = Returned tt.
Proof.
  unfold update_pagination.
  destruct (negb (truthy pageToken) || _); [reflexivity|].
  destruct pageToken; reflexivity.
Qed.

Lemma pagination_loop_same_redis (fuel : nat) (gmail : string)
    (known : gset string) (remaining : Z) (pageToken : JsStr)
    (threadIds : list string) (w : World E) :
  redis (pagination_loop C fuel gmail known remaining pageToken threadIds w).2
  = redis w.
Proof.
  apply (stable_pagination_loop C same_redis), tolerant_same_redis.
Qed.



(** On success the entry is written in one case and deleted in all
    others, as [cursor_updated] says. *)
Lemma fetchNewThreads_cursor_updated (fuel : nat) (gmail : string)
    (existing : list string) (userId key : string) (w : World E) ids w' :
  0 < MAX_THREADS_PER_USER - Z.of_nat (length existing) ->
  fetchNewThreads C fuel gmail existing userId key w = (Returned ids, w') ->
  cursor_updated C fuel gmail existing key w ids w'.
Proof.
  intros Hpos Hrun.
  apply fetchNewThreads_returned in Hrun as (pageToken & w1 & Hloop & Hupd);
    [|exact Hpos].
  pose proof (pagination_loop_same_redis fuel gmail (list_to_set existing)
                (MAX_THREADS_PER_USER - Z.of_nat (length existing))
                (stored key w) [] (record (EvRedisGet key) w)) as Hredis.
  rewrite Hloop in Hredis. simpl in Hredis.
  exists pageToken, w1. split; [exact Hloop|]. split; [exact Hredis|].
  subst w'. unfold update_pagination. split.
  - intros [Ht Hlt].
    destruct pageToken as [| |token]; try discriminate.
    exists token. split; [reflexivity|].
    rewrite Ht. simpl.
    destruct (Z.geb_spec (Z.of_nat (length ids))
                (MAX_THREADS_PER_USER - Z.of_nat (length existing)));
      [lia|].
    simpl. rewrite Hredis. reflexivity.
  - intros Hnot.
    destruct (truthy pageToken) eqn:Ht; simpl.
    + destruct (Z.geb_spec (Z.of_nat (length ids))
                  (MAX_THREADS_PER_USER - Z.of_nat (length existing)))
        as [Hge|Hlt].
      * simpl. rewrite Hredis. reflexivity.
      * exfalso. apply Hnot. split; [reflexivity | exact Hlt].
    + simpl. rewrite Hredis. reflexivity.
Qed.

(** At the exit of the loop a defined token comes with a full set, so the
    entry is in fact deleted on every successful exit. *)
Lemma fetchNewThreads_deletes_cursor (fuel : nat) (gmail : string)
    (existing : list string) (userId key : string) (w : World E) ids w' :
  0 < MAX_THREADS_PER_USER - Z.of_nat (length existing) ->
  fetchNewThreads C fuel gmail existing userId key w = (Returned ids, w') ->
  redis w' = delete key (redis w).
Proof.
  intros Hpos Hrun.
  destruct (fetchNewThreads_cursor_updated _ _ _ _ _ _ _ _ Hpos Hrun)
    as (pageToken & w1 & Hloop & _ & _ & Hdel).
  apply Hdel. intros [Ht Hlt].
  apply pagination_loop_returned in Hloop as [_ [Hundef|Hfull]];
    [| |apply discovered_ok_nil, Hpos]; simpl in *.
  - destruct pageToken; discriminate.
  - lia.
Qed.

Lemma processMessage_touches_own_cursor (fuel : nat) (message : Message)
    (b : Body) :
  body message = Some b ->
  stable (same_redis_but ("pagination:" +:+ userId b))
    (processMessage C fuel message).
Proof.
  intros Hb. unfold processMessage. rewrite Hb.
  set (k := "pagination:" +:+ userId b).
  pose proof (tolerant_same_redis_but (E:=E) k processing_calls) as T.
  stable_auto T.
  - apply stable_getExistingThreads; [exact _|].
    apply tolerant_same_redis_but.
  - apply stable_fetchNewThreads; [exact _| |apply same_redis_but_keeps].
    apply tolerant_same_redis_but.
  - apply stable_processThreads; [exact _|].
    apply tolerant_same_redis_but.
Qed.

(** The block "Update pagination state", lines 330-335, on any token,
    any threads found and any capacity: what it writes, and when. *)
Lemma update_pagination_run (key : string) (pageToken : JsStr)
    (threadIds : list string) (remaining : Z) (w0 : World E) :
  (truthy pageToken = true /\ Z.of_nat (length threadIds) < remaining ->
   exists token,
     pageToken = JsString token
     /\ update_pagination key pageToken threadIds remaining w0
        = (Returned tt,
           set_redis (<[key := (token, 3600)]> (redis w0))
             (record (EvRedisSet key token 3600) w0)))
  /\ (~ (truthy pageToken = true /\ Z.of_nat (length threadIds) < remaining) ->
      update_pagination key pageToken threadIds remaining w0
      = (Returned tt,
         set_redis (delete key (redis w0)) (record (EvRedisDel key) w0))).
Proof.
  unfold update_pagination. split.
  - intros [Ht Hlt].
    destruct pageToken as [| |token]; try discriminate.
    exists token. split; [reflexivity|].
    rewrite Ht.
    destruct (Z.geb_spec (Z.of_nat (length threadIds)) remaining); [lia|].
    reflexivity.
  - intros Hnot.
    destruct (truthy pageToken) eqn:Ht; [|reflexivity].
    destruct (Z.geb_spec (Z.of_nat (length threadIds)) remaining)
      as [Hge|Hlt]; [reflexivity|].
    exfalso. apply Hnot. split; [reflexivity | exact Hlt].
Qed.

(** C5. The block that updates the pagination state after the loop
    writes the entry at the cursor key with the page token and an expiry
    of 3600 seconds if and only if the token is truthy and fewer threads
    were found than the capacity left, and deletes the entry otherwise;
    the block runs on the token and the threads with which the loop
    ended. At a successful exit of the loop the token is undefined or
    the capacity is reached, so that every successful exit deletes the
    entry. [processMessage] uses the key [pagination:{userId}] and
    touches no other entry of the store. *)
Theorem cursor_written_iff_more_pages (fuel : nat) (gmail : string)
    (existing : list string) (user key : string) (w : World E) ids w' :
  0 < MAX_THREADS_PER_USER - Z.of_nat (length existing) ->
  fetchNewThreads C fuel gmail existing user key w = (Returned ids, w') ->
  cursor_updated C fuel gmail existing key w ids w'
  /\ (exists pageToken w1,
        pagination_loop C fuel gmail (list_to_set existing)
          (MAX_THREADS_PER_USER - Z.of_nat (length existing))
          (stored key w) [] (record (EvRedisGet key) w)
        = (Returned (pageToken, ids), w1)
        /\ update_pagination key pageToken ids
             (MAX_THREADS_PER_USER - Z.of_nat (length existing)) w1
           = (Returned tt, w'))
  /\ (forall pageToken threadIds remaining (w0 : World E),
        (truthy pageToken = true
         /\ Z.of_nat (length threadIds) < remaining ->
         exists token,
           pageToken = JsString token
           /\ update_pagination key pageToken threadIds remaining w0
              = (Returned tt,
                 set_redis (<[key := (token, 3600)]> (redis w0))
                   (record (EvRedisSet key token 3600) w0)))
        /\ (~ (truthy pageToken = true
               /\ Z.of_nat (length threadIds) < remaining) ->
            update_pagination key pageToken threadIds remaining w0
            = (Returned tt,
               set_redis (delete key (redis w0))
                 (record (EvRedisDel key) w0))))
  /\ redis w' = delete key (redis w)
  /\ (forall message b w0,
        body message = Some b ->
        same_redis_but ("pagination:" +:+ userId b) w0
          (processMessage C fuel message w0).2).
Proof.
  intros Hpos Hrun. split; [|split; [|split; [|split]]].
  - eapply fetchNewThreads_cursor_updated; eassumption.
  - destruct (fetchNewThreads_returned _ _ _ _ _ _ _ _ Hpos Hrun)
      as (pageToken & w1 & Hloop & Hupd).
    exists pageToken, w1. split; [exact Hloop|].
    pose proof (update_pagination_returns key pageToken ids
                  (MAX_THREADS_PER_USER - Z.of_nat (length existing)) w1)
      as Hret.
    destruct (update_pagination key pageToken ids
                (MAX_THREADS_PER_USER - Z.of_nat (length existing)) w1)
      as [o w2].
    simpl in Hret, Hupd. subst. reflexivity.
  - intros pageToken threadIds remaining w0.
    apply update_pagination_run.
  - eapply fetchNewThreads_deletes_cursor; eassumption.
  - intros message b w0 Hb.
    apply (processMessage_touches_own_cursor fuel message b Hb w0).
Qed.


End Discovery.

(** ** The admission gate and the handler *)

Section Gate.
Context {E : Type} (C : Collab E).

Lemma admission_refused_iff (message : Message) (w : World E) :
  admission_refused message w = true
  <-> MAX_CONCURRENT_MESSAGES <= activeProcessingCount w
      \/ admission_key message ∈ processingMessages w.
Proof.
  unfold admission_refused.
  rewrite orb_true_iff, bool_decide_eq_true, Z.geb_le. tauto.
Qed.

Lemma admission_accepted_iff (message : Message) (w : World E) :
  admission_refused message w = false
  <-> activeProcessingCount w < MAX_CONCURRENT_MESSAGES
      /\ admission_key message ∉ processingMessages w.
Proof.
  unfold admission_refused.
  rewrite orb_false_iff, bool_decide_eq_false.
  destruct (Z.geb_spec (activeProcessingCount w) MAX_CONCURRENT_MESSAGES);
    split; intros [? ?]; split; first [assumption | lia | reflexivity
                                      | discriminate].
Qed.

(** A refused message only leaves one debug line. *)
Lemma onMessage_refused (fuel : nat) (message : Message) (w : World E) :
  admission_refused message w = true ->
  exists l,
    onMessage C fuel message w = (Returned tt, record (EvLog l) w)
    /\ (l = DebugAlreadyProcessing (admission_key message)
        \/ l = DebugMaxConcurrent).
Proof.
  unfold admission_refused, onMessage. intros H.
  destruct (bool_decide (admission_key message ∈ processingMessages w)).
  - eexists. split; [reflexivity | left; reflexivity].
  - simpl in H. rewrite H.
    eexists. split; [reflexivity | right; reflexivity].
Qed.

(** An admitted message is attempted under the raised gate, and the
    cleanup follows whenever the attempt settles. *)
Lemma onMessage_admitted (fuel : nat) (message : Message) (w : World E) r w1 :
  admission_refused message w = false ->
  attempt C fuel message (acquire (admission_key message) w) = (r, w1) ->
  onMessage C fuel message w
  = match r with
    | OutOfFuel => (OutOfFuel, w1)
    | _ => (r, record (EvLog (DebugCompleted (activeProcessingCount w1 - 1)))
                 (release (admission_key message) w1))
    end.
Proof.
  unfold admission_refused, onMessage. intros H Hrun.
  apply orb_false_iff in H as [H1 H2]. rewrite H1, H2.
  unfold bind at 1, modify at 1, try_finally. rewrite Hrun.
  destruct r; reflexivity.
Qed.

Lemma attempt_same_gate (fuel : nat) (message : Message) (w : World E) :
  same_gate w (attempt C fuel message w).2.
Proof.
  apply (stable_attempt C same_gate); [apply tolerant_same_gate|].
  intros key.
  apply (redis_frame_keeps same_gate (fun _ => true));
    [apply tolerant_same_gate | reflexivity].
Qed.

Lemma attempt_grows (fuel : nat) (message : Message) (w : World E) :
  grows w (attempt C fuel message w).2.
Proof.
  apply (stable_attempt C grows); [apply tolerant_grows|].
  intros key.
  apply (redis_frame_keeps grows (fun _ => true));
    [apply tolerant_grows | reflexivity].
Qed.

(** *** The invariant of the interleaved handlers *)

Lemma initial_invariant (s : Sys E) : initial s -> gate_invariant s.
Proof.
  intros (Hc & Hs & Hfl). unfold gate_invariant.
  rewrite Hc, Hs, Hfl. simpl. repeat split.
  - lia.
  - unfold MAX_CONCURRENT_MESSAGES. lia.
  - apply NoDup_nil_2.
Qed.

Lemma turn_invariant (s s' : Sys E) :
  turn s s' -> gate_invariant s -> gate_invariant s'.
Proof.
  intros Hturn.
  destruct Hturn as [message w fl Href|message w fl Hacc
                    |w w' fl [Hc Hs]|id w fl fl' Hperm];
    unfold gate_invariant; simpl; intros (Hbound & Hcount & Hnd & Hset).
  - repeat split; first [assumption | lia].
  - apply admission_accepted_iff in Hacc as [Hlt Hnotin].
    repeat split; try lia.
    + constructor; [|assumption].
      intros Hin. apply Hnotin. rewrite Hset.
      apply elem_of_list_to_set, Hin.
    + rewrite Hset. reflexivity.
  - rewrite Hc, Hs. repeat split; first [assumption | lia].
  - pose proof (Permutation_length Hperm) as Hlen. simpl in Hlen.
    assert (NoDup (id :: fl')) as Hnd' by (rewrite <- Hperm; exact Hnd).
    apply NoDup_cons in Hnd' as [Hnotin Hnd''].
    repeat split; try lia; try assumption.
    rewrite Hset, (list_to_set_perm_L _ _ Hperm). simpl.
    apply set_eq. intros x.
    rewrite elem_of_difference, elem_of_union, elem_of_singleton,
      elem_of_list_to_set.
    split; [intros [[->|Hx] Hne]; [contradiction | exact Hx]|].
    intros Hx. split; [right; exact Hx|]. intros ->. contradiction.
Qed.

Lemma reachable_invariant (s : Sys E) : reachable s -> gate_invariant s.
Proof.
  intros (s0 & Hinit & Hrtc). apply initial_invariant in Hinit.
  induction Hrtc as [|x y z Hturn _ IH]; [assumption|].
  apply IH. eapply turn_invariant; eassumption.
Qed.

(** A settled run of the handler is a sequence of turns: a refusal, or an
    admission, the work of the attempt, and the cleanup. *)
Lemma onMessage_run_is_turns (fuel : nat) (message : Message)
    (w : World E) (fl : list string) :
  (onMessage C fuel message w).1 <> OutOfFuel ->
  rtc turn (mkSys w fl) (mkSys (onMessage C fuel message w).2 fl).
Proof.
  intros Hsettled.
  destruct (admission_refused message w) eqn:Hadm.
  - destruct (onMessage_refused fuel message w Hadm) as (l & -> & _).
    apply rtc_once, turn_work, same_gate_record.
  - destruct (attempt C fuel message (acquire (admission_key message) w))
      as [r w1] eqn:Hatt.
    pose proof (attempt_same_gate fuel message
                  (acquire (admission_key message) w)) as Hgate.
    rewrite Hatt in Hgate. simpl in Hgate.
    rewrite (onMessage_admitted _ _ _ _ _ Hadm Hatt) in Hsettled |- *.
    assert ((match r with
             | OutOfFuel => (OutOfFuel, w1)
             | _ => (r, record (EvLog (DebugCompleted
                                         (activeProcessingCount w1 - 1)))
                          (release (admission_key message) w1))
             end).2
            = record (EvLog (DebugCompleted (activeProcessingCount w1 - 1)))
                (release (admission_key message) w1)) as ->
        by (destruct r; [reflexivity | reflexivity | contradiction]).
    eapply rtc_l; [apply (turn_admit message w fl Hadm)|].
    eapply rtc_l; [apply turn_work, Hgate|].
    eapply rtc_l; [apply (turn_cleanup (admission_key message) w1 _ fl);
                   reflexivity|].
    apply rtc_once, turn_work, same_gate_record.
Qed.

(** The callback is its three phases. *)
Lemma onMessage_phased (fuel : nat) (message : Message) (w : World E) :
  onMessage C fuel message w = phased C fuel message w.
Proof.
  unfold onMessage, phased, admission, bind.
  destruct (bool_decide (admission_key message ∈ processingMessages w));
    [reflexivity|].
  destruct (activeProcessingCount w >=? MAX_CONCURRENT_MESSAGES);
    reflexivity.
Qed.

(** The head of the callback refuses with one debug line, or admits by
    raising the gate. *)
Lemma admission_run (message : Message) (w : World E) :
  admission message w
  = if admission_refused message w
    then (Returned false,
          record (EvLog (if bool_decide (admission_key message
                                           ∈ processingMessages w)
                         then DebugAlreadyProcessing (admission_key message)
                         else DebugMaxConcurrent)) w)
    else (Returned true, acquire (admission_key message) w).
Proof.
  unfold admission, admission_refused.
  destruct (bool_decide (admission_key message ∈ processingMessages w));
    [reflexivity|].
  destruct (activeProcessingCount w >=? MAX_CONCURRENT_MESSAGES);
    reflexivity.
Qed.

Lemma cleanup_run (message : Message) (w : World E) :
  cleanup message w
  = (Returned tt,
     record (EvLog (DebugCompleted (activeProcessingCount w - 1)))
       (release (admission_key message) w)).
Proof. reflexivity. Qed.

(** A step of the phases is made of turns. *)
Lemma step_turns (s s' : Sys E) : step s s' -> rtc turn s s'.
Proof.
  intros [message w fl admitted w' Hrun|w w' fl Hgate|message w fl fl' Hperm].
  - rewrite admission_run in Hrun.
    destruct (admission_refused message w) eqn:Hadm;
      injection Hrun as <- <-.
    + apply rtc_once, turn_work, same_gate_record.
    + apply rtc_once, turn_admit, Hadm.
  - apply rtc_once, turn_work, Hgate.
  - rewrite cleanup_run. cbn [snd].
    eapply rtc_l; [apply (turn_cleanup _ w fl fl' Hperm)|].
    apply rtc_once, turn_work, same_gate_record.
Qed.

Lemma steps_invariant (s0 s : Sys E) :
  initial s0 -> rtc step s0 s -> gate_invariant s.
Proof.
  intros Hinit Hrtc. apply reachable_invariant. exists s0.
  split; [exact Hinit|]. clear Hinit.
  induction Hrtc as [|x y z Hstep _ IH]; [apply rtc_refl|].
  etrans; [apply step_turns, Hstep | exact IH].
Qed.

(** C2. The callback is the sequence of its three phases: the head with
    the two guards and the admission, the [try] block, which keeps the
    gate as it is, and the [finally] block. In every state that these
    phases reach from the initial one, however the handlers interleave,
    the active count is at most the limit of 10, it counts exactly the
    handlers in flight, and no admission key is in flight twice. A
    message delivered at the limit, or with a key in flight, is refused
    with one debug line. Every settled run of an admitted handler,
    whether its processing succeeded or failed, has removed the key and
    taken the count back by one. *)
Theorem admission_gate_invariant :
  (forall fuel message (w : World E),
     onMessage C fuel message w = phased C fuel message w)
  /\ (forall fuel message (w : World E),
        same_gate w (attempt C fuel message w).2)
  /\ (forall s0 s : Sys E,
        initial s0 -> rtc step s0 s ->
        activeProcessingCount (sys_world s) <= MAX_CONCURRENT_MESSAGES
        /\ gate_invariant s)
  /\ (forall fuel message (w : World E),
        MAX_CONCURRENT_MESSAGES <= activeProcessingCount w
        \/ admission_key message ∈ processingMessages w ->
        exists l,
          admission message w = (Returned false, record (EvLog l) w)
          /\ onMessage C fuel message w
             = (Returned tt, record (EvLog l) w))
  /\ (forall message (w : World E),
        activeProcessingCount w < MAX_CONCURRENT_MESSAGES ->
        admission_key message ∉ processingMessages w ->
        admission message w
        = (Returned true, acquire (admission_key message) w))
  /\ (forall fuel message (w : World E) r w',
       admission_refused message w = false ->
       onMessage C fuel message w = (r, w') ->
       r <> OutOfFuel ->
       activeProcessingCount w'
       = activeProcessingCount (acquire (admission_key message) w) - 1
       /\ (processingMessages w'
           = processingMessages (acquire (admission_key message) w)
             ∖ {[admission_key message]})
       /\ (admission_key message ∉ processingMessages w')
       /\ activeProcessingCount w' = activeProcessingCount w).
Proof.
  split; [|split; [|split; [|split; [|split]]]].
  - apply onMessage_phased.
  - apply attempt_same_gate.
  - intros s0 s Hinit Hs.
    pose proof (steps_invariant s0 s Hinit Hs) as Hinv.
    split; [|exact Hinv]. destruct Hinv as ([_ H] & _). exact H.
  - intros fuel message w Hfull.
    apply admission_refused_iff in Hfull.
    eexists. split.
    + rewrite admission_run, Hfull. reflexivity.
    + rewrite onMessage_phased. unfold phased, bind.
      rewrite admission_run, Hfull. reflexivity.
  - intros message w Hlt Hnotin.
    rewrite admission_run.
    rewrite (proj2 (admission_accepted_iff message w) (conj Hlt Hnotin)).
    reflexivity.
  - intros fuel message w r w' Hacc Hrun Hr.
    destruct (attempt C fuel message (acquire (admission_key message) w))
      as [r0 w1] eqn:Hatt.
    pose proof (attempt_same_gate fuel message
                  (acquire (admission_key message) w)) as [Hc Hs].
    rewrite Hatt in Hc, Hs. simpl in Hc, Hs.
    rewrite (onMessage_admitted _ _ _ _ _ Hacc Hatt) in Hrun.
    assert (w' = record (EvLog (DebugCompleted (activeProcessingCount w1 - 1)))
                   (release (admission_key message) w1)) as ->.
    { destruct r0; inversion Hrun; subst; try reflexivity.
      contradiction. }
    simpl. rewrite Hc, Hs. simpl. repeat split.
    + rewrite elem_of_difference, elem_of_singleton. tauto.
    + lia.
Qed.

Lemma observe_snoc_true (p : Event -> bool) (tr : list Event) (ev : Event) :
  p ev = true -> observe p (tr ++ [ev]) = observe p tr ++ [ev].
Proof.
  intros H. rewrite observe_app. f_equal.
  unfold observe. rewrite filter_cons_True by exact H. reflexivity.
Qed.

Lemma observe_snoc_false (p : Event -> bool) (tr : list Event) (ev : Event) :
  p ev = false -> observe p (tr ++ [ev]) = observe p tr.
Proof.
  intros H. rewrite observe_app.
  unfold observe at 2. rewrite filter_cons_False by (rewrite H; discriminate).
  apply app_nil_r.
Qed.

Lemma retry_guard (message : Message) :
  (default 0 (deliveryCount message) + 1 <=? maxRetries)
  = (default 0 (deliveryCount message) <? maxRetries).
Proof.
  destruct (Z.leb_spec (default 0 (deliveryCount message) + 1) maxRetries),
           (Z.ltb_spec (default 0 (deliveryCount message)) maxRetries);
    first [reflexivity | lia].
Qed.

(** [handleMessageError] settles the message exactly once, by the call
    that [settlement_on_failure] names, and it settles. *)
Lemma handleMessageError_settles (message : Message) (e : Err) (w : World E) :
  observe is_settlement (trace (handleMessageError C message e w).2)
  = observe is_settlement (trace w) ++ [settlement_on_failure message e]
  /\ (handleMessageError C message e w).1 <> OutOfFuel.
Proof.
  unfold handleMessageError, settlement_on_failure. cbv zeta.
  rewrite retry_guard.
  destruct (default 0 (deliveryCount message) <? maxRetries);
    unfold bind, call.
  - destruct (abandonMessage C message (ext w)) as [[err|[]] e'];
      simpl; (split; [|discriminate]).
    + apply observe_snoc_true. reflexivity.
    + rewrite observe_snoc_false by reflexivity.
      apply observe_snoc_true. reflexivity.
  - destruct (deadLetterMessage C message "Max retries exceeded" e (ext w))
      as [[err|[]] e']; simpl; (split; [|discriminate]).
    + apply observe_snoc_true. reflexivity.
    + rewrite observe_snoc_false by reflexivity.
      apply observe_snoc_true. reflexivity.
Qed.

Lemma processMessage_no_settlement (fuel : nat) (message : Message)
    (w : World E) :
  quiet is_settlement w (processMessage C fuel message w).2.
Proof.
  apply (stable_processMessage C (quiet is_settlement)).
  - apply tolerant_quiet. event_cases.
  - intros key.
    apply (redis_frame_keeps (quiet is_settlement) is_cursor_write);
      [apply tolerant_quiet; event_cases | tauto].
Qed.

(** The cleanup adds no settlement to what the attempt did. *)
Lemma onMessage_settlements (fuel : nat) (message : Message) (w : World E) :
  admission_refused message w = false ->
  (attempt C fuel message (acquire (admission_key message) w)).1 <> OutOfFuel ->
  observe is_settlement (trace (onMessage C fuel message w).2)
  = observe is_settlement
      (trace (attempt C fuel message (acquire (admission_key message) w)).2).
Proof.
  intros Hacc Hfuel.
  destruct (attempt C fuel message (acquire (admission_key message) w))
    as [r w1] eqn:Hatt.
  rewrite (onMessage_admitted _ _ _ _ _ Hacc Hatt). simpl in *.
  destruct r; simpl; try contradiction;
    apply observe_snoc_false; reflexivity.
Qed.

(** A rejection of the [try] block is answered by one settlement, the
    one that [settlement_on_failure] names. *)
Lemma guarded_failure_settles (fuel : nat) (message : Message)
    (w : World E) e w1 :
  admission_refused message w = false ->
  guarded C fuel message (acquire (admission_key message) w) = (Thrown e, w1) ->
  observe is_settlement (trace (onMessage C fuel message w).2)
  = observe is_settlement (trace w1) ++ [settlement_on_failure message e].
Proof.
  intros Hacc Hguard.
  assert (attempt C fuel message (acquire (admission_key message) w)
          = handleMessageError C message e
              (record (EvLog (ErrorProcessingMessage e)) w1)) as Hatt.
  { unfold attempt, try_catch. rewrite Hguard. reflexivity. }
  destruct (handleMessageError_settles message e
              (record (EvLog (ErrorProcessingMessage e)) w1)) as [Hset Hfuel].
  rewrite onMessage_settlements; [|exact Hacc|rewrite Hatt; exact Hfuel].
  rewrite Hatt, Hset. simpl.
  rewrite observe_snoc_false by reflexivity. reflexivity.
Qed.


Lemma started_no_settlement (fuel : nat) (message : Message) (w : World E) :
  observe is_settlement
    (trace (processMessage C fuel message
              (record (EvLog (DebugStarting (activeProcessingCount w + 1)))
                      (acquire (admission_key message) w))).2)
  = observe is_settlement (trace w).
Proof.
  rewrite (processMessage_no_settlement fuel message _). simpl.
  apply observe_snoc_false. reflexivity.
Qed.

(** C3. When the processing of an admitted message fails with [e], the
    handler settles the message once: it abandons it when the delivery
    count is below the maximum of 3 attempts, and otherwise moves it to
    the dead-letter sink with the reason "Max retries exceeded" and the
    description of [e]; a delivery count of 4 is dead-lettered. *)
Theorem failure_abandons_or_dead_letters (fuel : nat) (message : Message)
    (w : World E) e w1 :
  admission_refused message w = false ->
  guarded C fuel message (acquire (admission_key message) w) = (Thrown e, w1) ->
  observe is_settlement (trace (onMessage C fuel message w).2)
  = observe is_settlement (trace w1) ++ [settlement_on_failure message e]
  /\ (processMessage C fuel message
        (record (EvLog (DebugStarting (activeProcessingCount w + 1)))
                (acquire (admission_key message) w)) = (Thrown e, w1) ->
      observe is_settlement (trace w1) = observe is_settlement (trace w))
  /\ (default 0 (deliveryCount message) < maxRetries ->
      settlement_on_failure message e = EvAbandon message)
  /\ (maxRetries <= default 0 (deliveryCount message) ->
      settlement_on_failure message e
      = EvDeadLetter message "Max retries exceeded" e)
  /\ (deliveryCount message = Some 4 ->
      settlement_on_failure message e
      = EvDeadLetter message "Max retries exceeded" e).
Proof.
  intros Hacc Hguard.
  split; [|split; [|split; [|split]]].
  - apply guarded_failure_settles; assumption.
  - intros Hproc.
    pose proof (started_no_settlement fuel message w) as Hq.
    rewrite Hproc in Hq. exact Hq.
  - intros Hlt. unfold settlement_on_failure.
    destruct (Z.ltb_spec (default 0 (deliveryCount message)) maxRetries);
      [reflexivity | lia].
  - intros Hge. unfold settlement_on_failure.
    destruct (Z.ltb_spec (default 0 (deliveryCount message)) maxRetries);
      [lia | reflexivity].
  - intros Hfour. unfold settlement_on_failure. rewrite Hfour. reflexivity.
Qed.

(** C4. Admission is refused exactly when the active count has reached
    the maximum or the admission key is already in flight. A refused
    message changes nothing: the count, the in-flight set, the cursor
    store and the collaborators (the dedup ledger among them) are what
    they were, and nothing but one debug line is recorded, so no
    processing took place and the message was neither completed,
    abandoned nor dead-lettered. An accepted message starts processing. *)
Theorem admission_refused_exactly_when (fuel : nat) (message : Message)
    (w : World E) :
  (admission_refused message w = true
   <-> MAX_CONCURRENT_MESSAGES <= activeProcessingCount w
       \/ admission_key message ∈ processingMessages w)
  /\ (admission_refused message w = true ->
      (onMessage C fuel message w).1 = Returned tt
      /\ activeProcessingCount (onMessage C fuel message w).2
         = activeProcessingCount w
      /\ processingMessages (onMessage C fuel message w).2
         = processingMessages w
      /\ redis (onMessage C fuel message w).2 = redis w
      /\ ext (onMessage C fuel message w).2 = ext w
      /\ observe (fun ev => negb (is_log ev))
           (trace (onMessage C fuel message w).2)
         = observe (fun ev => negb (is_log ev)) (trace w))
  /\ (admission_refused message w = false ->
      (trace w ++ [EvLog (DebugStarting (activeProcessingCount w + 1))])
        `prefix_of` trace (onMessage C fuel message w).2).
Proof.
  split; [apply admission_refused_iff|]. split.
  - intros Href.
    destruct (onMessage_refused fuel message w Href) as (l & -> & _).
    simpl. repeat split. apply observe_snoc_false. reflexivity.
  - intros Hacc.
    destruct (attempt C fuel message (acquire (admission_key message) w))
      as [r w1] eqn:Hatt.
    rewrite (onMessage_admitted _ _ _ _ _ Hacc Hatt).
    assert ((trace w ++ [EvLog (DebugStarting (activeProcessingCount w + 1))])
              `prefix_of` trace w1) as Hpre.
    { revert Hatt. unfold attempt, try_catch, guarded, bind at 1, log_count.
      simpl.
      set (w0 := record (EvLog (DebugStarting (activeProcessingCount w + 1)))
                        (acquire (admission_key message) w)).
      set (rest := bind (processMessage C fuel message) _).
      pose proof (stable_bind grows (processMessage C fuel message)
                    (fun _ => do! call (EvComplete message)
                                    (completeMessage C message) in
                              log (DebugProcessedOk (admission_key message))))
        as Hrest.
      assert (grows w0 (rest w0).2) as Hg.
      { apply Hrest.
        - apply (stable_processMessage C grows); [apply tolerant_grows|].
          intros key.
          apply (redis_frame_keeps grows (fun _ => true));
            [apply tolerant_grows | reflexivity].
        - intros _. pose proof (tolerant_grows (E:=E) (fun _ => true)) as T.
          stable_auto T. }
      destruct (rest w0) as [[[]|e|] w2]; simpl in Hg; intros Hatt.
      - inversion Hatt; subst. exact Hg.
      - pose proof (stable_bind grows (log (ErrorProcessingMessage e))
                      (fun _ => handleMessageError C message e)) as Hh.
        assert (grows w2 w1) as Hg2.
        { replace w1 with
            ((do! log (ErrorProcessingMessage e) in
              handleMessageError C message e) w2).2
            by (rewrite Hatt; reflexivity).
          apply Hh.
          - pose proof (tolerant_grows (E:=E) (fun _ => true)) as T.
            stable_auto T.
          - intros _. apply stable_handleMessageError; [exact _|].
            apply tolerant_grows. }
        unfold grows in *. etrans; eassumption.
      - inversion Hatt; subst. exact Hg. }
    destruct r; simpl; try exact Hpre;
      (etrans; [exact Hpre | apply prefix_app_r; reflexivity]).
Qed.

(** C10. Two distinct messages without identifier have the same
    admission key, the empty string; while the first is in flight, the
    second is refused as a duplicate, whatever else the admitted handlers
    have done in between. *)
Theorem messages_without_id_collide (fuel : nat) (m1 m2 : Message)
    (w w2 : World E) :
  messageId m1 = None -> messageId m2 = None -> m1 <> m2 ->
  admission_refused m1 w = false ->
  same_gate (acquire (admission_key m1) w) w2 ->
  admission_key m1 = "" /\ admission_key m2 = ""
  /\ admission_refused m2 w2 = true
  /\ onMessage C fuel m2 w2
     = (Returned tt, record (EvLog (DebugAlreadyProcessing "")) w2).
Proof.
  intros H1 H2 _ _ [_ Hs].
  assert (admission_key m1 = "") as K1
      by (unfold admission_key; rewrite H1; reflexivity).
  assert (admission_key m2 = "") as K2
      by (unfold admission_key; rewrite H2; reflexivity).
  assert ("" ∈ processingMessages w2) as Hin.
  { rewrite Hs, K1. simpl. apply elem_of_union_l, elem_of_singleton.
    reflexivity. }
  repeat split; try assumption.
  - apply admission_refused_iff. right. rewrite K2. exact Hin.
  - unfold onMessage. rewrite K2.
    rewrite (bool_decide_eq_true_2 _ Hin). reflexivity.
Qed.

End Gate.

(** ** Settling: computations that need no fuel *)

Section Totality.
Context {E : Type}.

Lemma total_ret {A} (a : A) : total (@ret E A a).
Proof. intros w. discriminate. Qed.

Lemma total_throw {A} (e : Err) : total (@throw E A e).
Proof. intros w. discriminate. Qed.

Lemma total_log (l : LogLine) : total (@log E l).
Proof. intros w. discriminate. Qed.

Lemma total_call {A} (ev : Event) (f : E -> (Err + A) * E) : total (call ev f).
Proof.
  intros w. unfold call. destruct (f (ext w)) as [[err|a] e']; discriminate.
Qed.

Lemma total_bind {A B} (m : M E A) (k : A -> M E B) :
  total m -> (forall a, total (k a)) -> total (bind m k).
Proof.
  intros Hm Hk w. unfold bind. specialize (Hm w).
  destruct (m w) as [[a|e|] w1]; simpl in *;
    [apply Hk | discriminate | congruence].
Qed.

Lemma total_try_catch {A} (m : M E A) (h : Err -> M E A) :
  total m -> (forall e, total (h e)) -> total (try_catch m h).
Proof.
  intros Hm Hh w. unfold try_catch. specialize (Hm w).
  destruct (m w) as [[a|e|] w1]; simpl in *;
    [discriminate | apply Hh | congruence].
Qed.

Lemma total_for_each {A} (xs : list A) (f : A -> M E unit) :
  (forall x, total (f x)) -> total (for_each xs f).
Proof.
  intros Hf. induction xs as [|x xs IH]; simpl.
  - apply total_ret.
  - apply total_bind; [apply Hf | intros _; exact IH].
Qed.

Lemma total_promise_all_map {A B} (f : A -> M E B) (xs : list A) :
  (forall x, total (f x)) -> total (promise_all (map f xs)).
Proof.
  intros Hf. induction xs as [|x xs IH]; simpl.
  - apply total_ret.
  - intros w. pose proof (Hf x w) as Hx.
    destruct (f x w) as [[b|e|] w1]; simpl in *; try congruence;
      specialize (IH w1);
      destruct (promise_all (map f xs) w1) as [[l|e'|] w2]; simpl in *;
      congruence.
Qed.

(** A computation whose handler returns settles with a value whenever
    its body settles. *)
Lemma try_catch_log_returns (m : M E unit) (l : Err -> LogLine) :
  total m -> forall w, (try_catch m (fun e => log (l e)) w).1 = Returned tt.
Proof.
  intros Hm w. unfold try_catch. specialize (Hm w).
  destruct (m w) as [[[]|e|] w1]; simpl in *;
    [reflexivity | reflexivity | congruence].
Qed.

End Totality.

Ltac total_step :=
  lazymatch goal with
  | |- total (ret _) => apply total_ret
  | |- total (throw _) => apply total_throw
  | |- total (log _) => apply total_log
  | |- total (call _ _) => apply total_call
  | |- total (bind _ _) => apply total_bind
  | |- total (try_catch _ _) => apply total_try_catch
  | |- total (for_each _ _) => apply total_for_each
  | |- total (promise_all (map _ _)) => apply total_promise_all_map
  | |- total (match ?x with _ => _ end) => destruct x
  end.

Ltac total_auto :=
  repeat (first [progress intros | progress cbv zeta | total_step]).

(** ** Batch fetching and dispatch *)

Section Slices.
Context {E : Type} (C : Collab E).

Lemma total_fetchThreadsData (gmail : string) (batch : list string) :
  total (fetchThreadsData C gmail batch).
Proof.
  unfold fetchThreadsData. total_auto. unfold fetchThreadOrNull. total_auto.
Qed.

Lemma total_batchGetMessages (gmail : string) (messageIds : list JsStr) :
  total (batchGetMessages C gmail messageIds).
Proof.
  unfold batchGetMessages. total_auto. unfold getMessage. total_auto.
Qed.

Lemma total_autoAnnotate (gmail : string) (batch : list string)
    (userId : string) :
  total (autoAnnotate C gmail batch userId).
Proof.
  unfold autoAnnotate. total_auto. unfold annotateOrLog. total_auto.
Qed.

Lemma total_processThread (threadId userId : string) :
  total (processThread C threadId userId).
Proof. unfold processThread. total_auto. Qed.

Lemma total_embedThreads (batch : list string) (userId : string) :
  total (embedThreads C batch userId).
Proof.
  unfold embedThreads. total_auto. unfold embedOrLog. total_auto.
  apply total_processThread.
Qed.

(** A slice never rejects and always settles. *)
Lemma processBatch_returns (gmail : string) (batch : list string)
    (userId : string) (w : World E) :
  (processBatch C gmail batch userId w).1 = Returned tt.
Proof.
  unfold processBatch. apply try_catch_log_returns. total_auto.
  - apply total_fetchThreadsData.
  - apply total_batchGetMessages.
  - apply total_autoAnnotate.
  - apply total_embedThreads.
Qed.

Lemma processThreads_from_returns (n : nat) (gmail : string)
    (threadIds : list string) (userId : string) (i : nat) (w : World E) :
  (length threadIds <= i + n * BATCH_SIZE)%nat ->
  (processThreads_from C n gmail threadIds userId i w).1 = Returned tt.
Proof.
  revert i w. induction n as [|n IH]; intros i w Hlen; simpl.
  - destruct (Nat.ltb_spec i (length threadIds)); [lia | reflexivity].
  - destruct (Nat.ltb_spec i (length threadIds)); [|reflexivity].
    unfold bind.
    pose proof (processBatch_returns gmail
                  (take BATCH_SIZE (drop i threadIds)) userId w) as Hb.
    destruct (processBatch C gmail _ userId w) as [r w1]. simpl in Hb.
    subst r. apply IH. lia.
Qed.

(** [processThreads] always returns: no failure inside a slice reaches
    its caller. *)
Lemma processThreads_returns (gmail : string) (threadIds : list string)
    (userId : string) (w : World E) :
  (processThreads C gmail threadIds userId w).1 = Returned tt.
Proof.
  apply processThreads_from_returns. unfold BATCH_SIZE. lia.
Qed.

End Slices.

(** ** Parallel sub-fetches *)

Section Parallel.
Context {E : Type}.

(** When every promise resolves, so does [Promise.all], entry by entry,
    and what the promises record adds up. *)
Lemma promise_all_map_returns {A B} (f : A -> M E B) (P : A -> B -> Prop)
    (p : Event -> bool) (ev : A -> Event) (xs : list A) (w : World E) :
  (forall x w0, exists b,
      (f x w0).1 = Returned b /\ P x b
      /\ observe p (trace (f x w0).2) = observe p (trace w0) ++ [ev x]) ->
  exists l,
    (promise_all (map f xs) w).1 = Returned l
    /\ Forall2 P xs l
    /\ observe p (trace (promise_all (map f xs) w).2)
       = observe p (trace w) ++ map ev xs.
Proof.
  intros Hf. revert w. induction xs as [|x xs IH]; intros w; simpl.
  - exists []. rewrite app_nil_r. repeat split. constructor.
  - destruct (Hf x w) as (b & Hb & HP & Hobs).
    destruct (f x w) as [r w1]. simpl in Hb, Hobs. subst r.
    destruct (IH w1) as (l & Hl & Hall & Hobs').
    destruct (promise_all (map f xs) w1) as [r w2]. simpl in Hl, Hobs'.
    subst r. simpl. exists (b :: l). split; [reflexivity|].
    split; [constructor; assumption|].
    rewrite Hobs', Hobs, <- app_assoc. reflexivity.
Qed.

(** Every promise was started: the calls are made whatever the outcome. *)
Lemma promise_all_map_observes {A B} (f : A -> M E B)
    (p : Event -> bool) (ev : A -> Event) (xs : list A) (w : World E) :
  (forall x w0,
      (f x w0).1 <> OutOfFuel
      /\ observe p (trace (f x w0).2) = observe p (trace w0) ++ [ev x]) ->
  observe p (trace (promise_all (map f xs) w).2)
  = observe p (trace w) ++ map ev xs.
Proof.
  intros Hf. revert w. induction xs as [|x xs IH]; intros w; simpl.
  - rewrite app_nil_r. reflexivity.
  - destruct (Hf x w) as (Hfuel & Hobs).
    destruct (f x w) as [r w1]. simpl in Hfuel, Hobs.
    specialize (IH w1).
    destruct r as [b|e|]; [| |congruence];
      destruct (promise_all (map f xs) w1) as [[l|e'|] w2]; simpl in *;
      rewrite IH, Hobs, <- app_assoc; reflexivity.
Qed.

(** One rejected promise rejects [Promise.all]. *)
Lemma promise_all_map_rejects {A B} (f : A -> M E B) (xs : list A) (x : A)
    (w : World E) :
  (forall y, total (f y)) ->
  x ∈ xs ->
  (forall w0, exists e, (f x w0).1 = Thrown e) ->
  exists e, (promise_all (map f xs) w).1 = Thrown e.
Proof.
  intros Htot Hin Hx. revert w.
  induction xs as [|y xs IH]; intros w; [inversion Hin|].
  assert (total (promise_all (map f xs))) as Hrest
      by (apply total_promise_all_map, Htot).
  simpl. pose proof (Htot y w) as Hy.
  destruct (f y w) as [[b|e|] w1] eqn:Hfy; simpl in Hy; [| |congruence].
  - apply elem_of_cons in Hin as [->|Hin].
    + destruct (Hx w) as (e & He). rewrite Hfy in He. discriminate.
    + destruct (IH Hin w1) as (e & He).
      destruct (promise_all (map f xs) w1) as [r w2]. simpl in He. subst r.
      exists e. reflexivity.
  - specialize (Hrest w1).
    destruct (promise_all (map f xs) w1) as [[l|e'|] w2]; simpl in *;
      [exists e; reflexivity | exists e; reflexivity | congruence].
Qed.

End Parallel.

Ltac observe_simpl :=
  repeat first [ rewrite observe_snoc_true by reflexivity
               | rewrite observe_snoc_false by reflexivity ].

(** ** Dispatch of a slice *)

Section Dispatch.
Context {E : Type} (C : Collab E).

Lemma fetchThreadOrNull_spec (gmail threadId : string) (w : World E) :
  exists entry,
    (fetchThreadOrNull C gmail threadId w).1 = Returned entry
    /\ answer_of C gmail threadId entry
    /\ observe is_thread_get (trace (fetchThreadOrNull C gmail threadId w).2)
       = observe is_thread_get (trace w) ++ [EvThreadsGet threadId].
Proof.
  unfold fetchThreadOrNull, try_catch, bind, call.
  destruct (threads_get C gmail threadId (ext w)) as [[err|d] e'] eqn:Hget;
    simpl.
  - exists None. split; [reflexivity|]. split.
    + exists (ext w), e', err. exact Hget.
    + observe_simpl. reflexivity.
  - exists (Some d). split; [reflexivity|]. split.
    + exists (ext w), e'. exact Hget.
    + observe_simpl. reflexivity.
Qed.

(** Every thread of the slice is fetched, and every entry of the result
    is the mailbox's answer for its thread, [null] for a failed fetch. *)
Lemma fetchThreadsData_spec (gmail : string) (batch : list string)
    (w : World E) :
  exists l,
    (fetchThreadsData C gmail batch w).1 = Returned l
    /\ Forall2 (answer_of C gmail) batch l
    /\ observe is_thread_get (trace (fetchThreadsData C gmail batch w).2)
       = observe is_thread_get (trace w) ++ map EvThreadsGet batch.
Proof.
  unfold fetchThreadsData. apply promise_all_map_returns.
  intros x w0. apply fetchThreadOrNull_spec.
Qed.

Lemma getMessage_spec (gmail : string) (id : JsStr) (w : World E) :
  (getMessage C gmail id w).1 <> OutOfFuel
  /\ observe is_message_get (trace (getMessage C gmail id w).2)
     = observe is_message_get (trace w) ++ [EvMessagesGet id].
Proof.
  unfold getMessage, call.
  destruct (messages_get C gmail id (ext w)) as [[err|[]] e']; simpl;
    (split; [discriminate | observe_simpl; reflexivity]).
Qed.

(** Every message of the slice is requested, whatever the outcome. *)
Lemma batchGetMessages_calls (gmail : string) (messageIds : list JsStr)
    (w : World E) :
  observe is_message_get (trace (batchGetMessages C gmail messageIds w).2)
  = observe is_message_get (trace w) ++ map EvMessagesGet messageIds.
Proof.
  pose proof (promise_all_map_observes (getMessage C gmail) is_message_get
                EvMessagesGet messageIds w (getMessage_spec gmail)) as H.
  unfold batchGetMessages, try_catch.
  destruct (promise_all (map (getMessage C gmail) messageIds) w)
    as [[l|e|] w1]; simpl in *; try exact H.
  observe_simpl. exact H.
Qed.

(** One message that cannot be fetched rejects the whole call. *)
Lemma batchGetMessages_rejects (gmail : string) (messageIds : list JsStr)
    (id : JsStr) (w : World E) :
  id ∈ messageIds ->
  (forall s, exists err s', messages_get C gmail id s = (inl err, s')) ->
  exists e, (batchGetMessages C gmail messageIds w).1 = Thrown e.
Proof.
  intros Hin Hfail.
  destruct (promise_all_map_rejects (getMessage C gmail) messageIds id w)
    as (e & He).
  - intros y. unfold getMessage. apply total_call.
  - exact Hin.
  - intros w0. unfold getMessage, call.
    destruct (Hfail (ext w0)) as (err & s' & ->). exists err. reflexivity.
  - exists e. unfold batchGetMessages, try_catch.
    destruct (promise_all (map (getMessage C gmail) messageIds) w)
      as [r w1]. simpl in He. subst r. reflexivity.
Qed.

Lemma embedOrLog_spec (userId threadId : string) (w : World E) :
  exists u : unit,
    (embedOrLog C userId threadId w).1 = Returned u
    /\ True
    /\ observe is_embedding_start (trace (embedOrLog C userId threadId w).2)
       = observe is_embedding_start (trace w)
         ++ [EvSelectAnnotations threadId userId].
Proof.
  exists tt. unfold embedOrLog, processThread, try_catch, bind, call, throw.
  destruct (select_annotations C threadId userId (ext w))
    as [[err|[[[|row rows]|] [e|]]] e']; simpl;
    try (repeat split; observe_simpl; reflexivity);
    destruct (embed_thread C userId threadId (created_at row)
                (recipients row) e') as [[err|[]] e'']; simpl;
    repeat split; observe_simpl; reflexivity.
Qed.

(** The embedding step starts for every thread of the slice, in order,
    and no failure in it rejects. *)
Lemma embedThreads_spec (batch : list string) (userId : string)
    (w : World E) :
  exists l,
    (embedThreads C batch userId w).1 = Returned l
    /\ observe is_embedding_start (trace (embedThreads C batch userId w).2)
       = observe is_embedding_start (trace w)
         ++ map (fun threadId => EvSelectAnnotations threadId userId) batch.
Proof.
  destruct (promise_all_map_returns (embedOrLog C userId)
              (fun _ _ => True) is_embedding_start
              (fun threadId => EvSelectAnnotations threadId userId) batch w
              (embedOrLog_spec userId))
    as (l & Hl & _ & Hobs).
  exists l. split; assumption.
Qed.

Lemma for_each_returns {A} (f : A -> M E unit) (xs : list A) (w : World E) :
  (forall x w0, (f x w0).1 = Returned tt) ->
  (for_each xs f w).1 = Returned tt.
Proof.
  intros Hf. revert w. induction xs as [|x xs IH]; intros w; simpl;
    [reflexivity|].
  unfold bind. specialize (Hf x w).
  destruct (f x w) as [r w1]. simpl in Hf. subst r. apply IH.
Qed.

(** [autoAnnotate] absorbs the failure of any single thread: it returns
    as soon as its first query resolves. *)
Lemma autoAnnotate_absorbs (gmail : string) (batch : list string)
    (userId : string) (w : World E) s' :
  select_user_annotations C userId (ext w) = (inr tt, s') ->
  (autoAnnotate C gmail batch userId w).1 = Returned tt.
Proof.
  intros Hsel. unfold autoAnnotate, try_catch, bind at 1, call.
  rewrite Hsel. simpl.
  set (w1 := set_ext s' (record (EvSelectUserAnnotations userId) w)).
  pose proof (for_each_returns (annotateOrLog C gmail userId) batch w1) as H.
  destruct (for_each batch (annotateOrLog C gmail userId) w1) as [r w2].
  simpl in H. rewrite H; [reflexivity|].
  intros x w0. unfold annotateOrLog, try_catch, call.
  destruct (annotate_thread C gmail x userId (ext w0)) as [[err|[]] e'];
    reflexivity.
Qed.

(** It rejects when that query rejects. *)
Lemma autoAnnotate_rejects (gmail : string) (batch : list string)
    (userId : string) (w : World E) err s' :
  select_user_annotations C userId (ext w) = (inl err, s') ->
  (autoAnnotate C gmail batch userId w).1 = Thrown err.
Proof.
  intros Hsel. unfold autoAnnotate, try_catch, bind at 1, call.
  rewrite Hsel. reflexivity.
Qed.

(** A slice whose threads hold messages goes on to fetch them. *)
Lemma processBatch_fetched (gmail : string) (batch : list string)
    (userId : string) (w : World E) l w1 :
  fetchThreadsData C gmail batch w = (Returned l, w1) ->
  extractMessageIds l <> [] ->
  processBatch C gmail batch userId w
  = try_catch
      (do! batchGetMessages C gmail (extractMessageIds l) in
       do! autoAnnotate C gmail batch userId in
       do! embedThreads C batch userId in
       ret tt)
      (fun e => log (ErrorProcessingBatch e)) w1.
Proof.
  intros Hfetch Hne. unfold processBatch, try_catch at 1, bind at 1.
  rewrite Hfetch. cbv zeta.
  destruct (extractMessageIds l) as [|m ms] eqn:Hm; [contradiction|].
  reflexivity.
Qed.

Lemma fetcher_quiet (p : Event -> bool) (gmail : string)
    (batch : list string) (w : World E) l w1 r w2 :
  (forall ev, fetch_calls ev = true -> p ev = false) ->
  fetchThreadsData C gmail batch w = (Returned l, w1) ->
  batchGetMessages C gmail (extractMessageIds l) w1 = (r, w2) ->
  observe p (trace w2) = observe p (trace w).
Proof.
  intros Hp Hfetch Hbatch.
  pose proof (stable_fetchThreadsData C (quiet p) gmail batch
                (tolerant_quiet p fetch_calls Hp) w) as H1.
  pose proof (stable_batchGetMessages C (quiet p) gmail (extractMessageIds l)
                (tolerant_quiet p fetch_calls Hp) w1) as H2.
  rewrite Hfetch in H1. rewrite Hbatch in H2. unfold quiet in *.
  simpl in *. congruence.
Qed.

(** C7, as the code has it. A thread that cannot be fetched yields [null]
    for its entry and the other threads of the slice are fetched all the
    same. A message body that cannot be fetched is not isolated: every
    message is requested, and one rejection rejects [batchGetMessages];
    the slice then ends without annotation and without embedding, its
    error is logged, and neither the later slices nor the message fail. *)
Theorem sub_fetch_failures_in_a_slice (gmail : string) (batch : list string)
    (user : string) (w : World E) :
  (exists l,
     (fetchThreadsData C gmail batch w).1 = Returned l
     /\ Forall2 (answer_of C gmail) batch l
     /\ observe is_thread_get (trace (fetchThreadsData C gmail batch w).2)
        = observe is_thread_get (trace w) ++ map EvThreadsGet batch)
  /\ (forall messageIds id w1,
       id ∈ messageIds ->
       (forall s, exists err s', messages_get C gmail id s = (inl err, s')) ->
       exists e, (batchGetMessages C gmail messageIds w1).1 = Thrown e)
  /\ (forall l w1 e w2,
       fetchThreadsData C gmail batch w = (Returned l, w1) ->
       extractMessageIds l <> [] ->
       batchGetMessages C gmail (extractMessageIds l) w1 = (Thrown e, w2) ->
       processBatch C gmail batch user w
       = (Returned tt, record (EvLog (ErrorProcessingBatch e)) w2)
       /\ observe is_message_get (trace w2)
          = observe is_message_get (trace w1)
            ++ map EvMessagesGet (extractMessageIds l)
       /\ observe is_annotation_call
            (trace (processBatch C gmail batch user w).2)
          = observe is_annotation_call (trace w)
       /\ observe is_embedding_call
            (trace (processBatch C gmail batch user w).2)
          = observe is_embedding_call (trace w))
  /\ (forall threadIds w0,
       (processThreads C gmail threadIds user w0).1 = Returned tt).
Proof.
  split; [apply fetchThreadsData_spec|].
  split; [intros messageIds id w1; apply batchGetMessages_rejects|].
  split; [|intros threadIds w0; apply processThreads_returns].
  intros l w1 e w2 Hfetch Hne Hbatch.
  assert (processBatch C gmail batch user w
          = (Returned tt, record (EvLog (ErrorProcessingBatch e)) w2)) as Hrun.
  { rewrite (processBatch_fetched _ _ _ _ _ _ Hfetch Hne).
    unfold try_catch, bind at 1. rewrite Hbatch. reflexivity. }
  rewrite Hrun. simpl. split; [reflexivity|]. split; [|split].
  - pose proof (batchGetMessages_calls gmail (extractMessageIds l) w1) as H.
    rewrite Hbatch in H. exact H.
  - observe_simpl.
    eapply fetcher_quiet; [|exact Hfetch|exact Hbatch]. event_cases.
  - observe_simpl.
    eapply fetcher_quiet; [|exact Hfetch|exact Hbatch]. event_cases.
Qed.

(** C8, as the code has it. In a slice whose messages were fetched,
    [autoAnnotate] is awaited first. When it returns, which it does even
    if annotating single threads failed, the embedding step is started for
    every thread of the slice, and the slice returns whatever happens in
    that step. When [autoAnnotate] itself rejects, the embedding step is
    skipped for the slice: the error is logged and the slice returns. *)
Theorem dispatch_of_a_slice (gmail : string) (batch : list string)
    (user : string) (w : World E) l w1 fetched w2 :
  fetchThreadsData C gmail batch w = (Returned l, w1) ->
  extractMessageIds l <> [] ->
  batchGetMessages C gmail (extractMessageIds l) w1 = (Returned fetched, w2) ->
  (forall s', select_user_annotations C user (ext w2) = (inr tt, s') ->
     (autoAnnotate C gmail batch user w2).1 = Returned tt)
  /\ (forall w3,
       autoAnnotate C gmail batch user w2 = (Returned tt, w3) ->
       processBatch C gmail batch user w
       = (Returned tt, (embedThreads C batch user w3).2)
       /\ observe is_embedding_start
            (trace (processBatch C gmail batch user w).2)
          = observe is_embedding_start (trace w3)
            ++ map (fun threadId => EvSelectAnnotations threadId user) batch)
  /\ (forall e w3,
       autoAnnotate C gmail batch user w2 = (Thrown e, w3) ->
       processBatch C gmail batch user w
       = (Returned tt, record (EvLog (ErrorProcessingBatch e)) w3)
       /\ observe is_embedding_call
            (trace (processBatch C gmail batch user w).2)
          = observe is_embedding_call (trace w)).
Proof.
  intros Hfetch Hne Hbatch. split; [|split].
  - intros s'. apply autoAnnotate_absorbs.
  - intros w3 Hann.
    destruct (embedThreads_spec batch user w3) as (done & Hret & Hobs).
    assert (processBatch C gmail batch user w
            = (Returned tt, (embedThreads C batch user w3).2)) as Hrun.
    { rewrite (processBatch_fetched _ _ _ _ _ _ Hfetch Hne).
      unfold try_catch, bind at 1. rewrite Hbatch.
      unfold bind at 1. rewrite Hann. unfold bind.
      destruct (embedThreads C batch user w3) as [r w4]. simpl in Hret.
      subst r. reflexivity. }
    rewrite Hrun. split; [reflexivity | exact Hobs].
  - intros e w3 Hann.
    assert (processBatch C gmail batch user w
            = (Returned tt, record (EvLog (ErrorProcessingBatch e)) w3))
      as Hrun.
    { rewrite (processBatch_fetched _ _ _ _ _ _ Hfetch Hne).
      unfold try_catch, bind at 1. rewrite Hbatch.
      unfold bind at 1. rewrite Hann. reflexivity. }
    rewrite Hrun. split; [reflexivity|]. simpl. observe_simpl.
    pose proof (stable_autoAnnotate C (quiet is_embedding_call) gmail batch
                  user (tolerant_quiet is_embedding_call annotation_calls
                          ltac:(event_cases)) w2) as Hq.
    rewrite Hann in Hq. unfold quiet in Hq. simpl in Hq. rewrite Hq.
    eapply fetcher_quiet; [|exact Hfetch|exact Hbatch]. event_cases.
Qed.

End Dispatch.

(** ** What reaches the coordinator *)

Section Coordinator.
Context {E : Type} (C : Collab E).









End Coordinator.

(** ** The handler settles *)

Section Settling.
Context {E : Type} (C : Collab E).

Lemma total_try_finally {A} (m : M E A) (c : M E unit) :
  total m -> total c -> total (try_finally m c).
Proof.
  intros Hm Hc w. unfold try_finally. specialize (Hm w).
  destruct (m w) as [[a|e|] w1]; simpl in *; try congruence;
    specialize (Hc w1); destruct (c w1) as [[[]|e'|] w2]; simpl in *;
    congruence.
Qed.

Lemma total_processMessage (fuel : nat) (message : Message) :
  (forall gmail token e, listing_ends C gmail fuel token e) ->
  total (processMessage C fuel message).
Proof.
  intros Hends. unfold processMessage. total_auto.
  - unfold getExistingThreads. total_auto.
  - intros w. apply fetchNewThreads_total, Hends.
  - intros w. rewrite processThreads_returns. discriminate.
Qed.

(** When the listing of the mailbox ends within the fuel, from whatever
    page it is taken up, the handler settles on every message. *)
Lemma onMessage_settles (fuel : nat) (message : Message) (w : World E) :
  (forall gmail token e, listing_ends C gmail fuel token e) ->
  (onMessage C fuel message w).1 <> OutOfFuel.
Proof.
  intros Hends. unfold onMessage.
  destruct (bool_decide _); [discriminate|].
  destruct (_ >=? _); [discriminate|].
  revert w. apply total_bind; [intros w; discriminate|]. intros _.
  apply total_try_finally.
  - unfold attempt, guarded. total_auto.
    + intros w; discriminate.
    + apply total_processMessage, Hends.
    + intros w. apply handleMessageError_settles.
  - apply total_bind; intros; intros w; discriminate.
Qed.

End Settling.

(** The listing of the two-page mailbox ends within two fetches. *)
Lemma two_pages_listing_ends (gmail : string) (token : JsStr) (e : nat) :
  listing_ends (Examples.scripted Examples.calm) gmail 2 token e.
Proof.
  destruct (Examples.is_p2 token) eqn:Hp2.
  - eapply ends_next; [simpl; unfold Examples.two_pages; rewrite Hp2;
                       reflexivity|].
    apply ends_undefined.
  - eapply ends_next; [simpl; unfold Examples.two_pages; rewrite Hp2;
                       reflexivity|].
    eapply ends_next; [reflexivity|]. apply ends_undefined.
Qed.

(** On that mailbox the handler settles on every message, with fuel for
    two pages. *)
Lemma calm_handler_settles (message : Message) (w : World nat) :
  (onMessage (Examples.scripted Examples.calm) 2 message w).1 <> OutOfFuel.
Proof. apply onMessage_settles. apply two_pages_listing_ends. Qed.

(** A listing that never ends and never shows a new thread keeps the
    loop running: no amount of fuel lets [fetchNewThreads] settle. *)
Lemma endless_listing_runs_out (fuel : nat) (token : JsStr) (w : World nat) :
  is_defined token = true ->
  (pagination_loop (Examples.scripted
                      (Examples.with_list Examples.endless Examples.calm))
     fuel "tok" (list_to_set ["t2"]) 499 token [] w).1 = OutOfFuel.
Proof.
  revert token w. induction fuel as [|fuel IH]; intros token w Hdef.
  - cbn [pagination_loop]. rewrite Hdef. reflexivity.
  - erewrite pagination_loop_step;
      [|rewrite Hdef; reflexivity|reflexivity].
    replace (filter_page _ _ _ _) with (@nil string)
      by (vm_compute; reflexivity).
    apply IH. reflexivity.
Qed.

Lemma endless_discovery_runs_out (fuel : nat) :
  (fetchNewThreads (Examples.scripted
                      (Examples.with_list Examples.endless Examples.calm))
     fuel "tok" ["t2"] "u1" "pagination:u1" Examples.idle).1 = OutOfFuel.
Proof.
  apply fetchNewThreads_runs_out; [reflexivity|].
  apply endless_listing_runs_out. reflexivity.
Qed.

(** * Further properties of the service *)

(** ** Finer frames *)

Section FineFrames.
Context {E : Type} (C : Collab E).
Context (R : relation (World E)) `{!Frame R}.

Lemma stable_batchGetMessages_fine (gmail : string)
    (messageIds : list JsStr) :
  tolerant R message_calls -> stable R (batchGetMessages C gmail messageIds).
Proof. intros T. unfold batchGetMessages, getMessage. stable_auto T. Qed.

Lemma stable_processThread_fine (threadId userId : string) :
  tolerant R embedding_calls -> stable R (processThread C threadId userId).
Proof. intros T. unfold processThread. stable_auto T. Qed.

Lemma stable_embedThreads_fine (batch : list string) (userId : string) :
  tolerant R embedding_calls -> stable R (embedThreads C batch userId).
Proof.
  intros T. unfold embedThreads. stable_auto T.
  unfold embedOrLog. stable_auto T.
  apply stable_processThread_fine, T.
Qed.

(** What follows the thread fetches in a slice. *)
Lemma stable_after_fetch (gmail : string) (batch : list string)
    (userId : string) (messageIds : list JsStr) :
  tolerant R message_calls -> tolerant R annotation_calls ->
  tolerant R embedding_calls ->
  stable R (do! batchGetMessages C gmail messageIds in
            do! autoAnnotate C gmail batch userId in
            do! embedThreads C batch userId in
            ret tt).
Proof.
  intros T1 T2 T3. stable_auto T1.
  - apply stable_batchGetMessages_fine, T1.
  - apply stable_autoAnnotate; [exact _ | exact T2].
  - apply stable_embedThreads_fine, T3.
Qed.

End FineFrames.

(** ** The slices of [processThreads] *)

Section SliceLoop.
Context {E : Type} (C : Collab E).

(** A slice requests each of its threads, once and in order, whatever
    fails in it. *)
Lemma processBatch_thread_gets (gmail : string) (batch : list string)
    (userId : string) (w : World E) :
  observe is_thread_get (trace (processBatch C gmail batch userId w).2)
  = observe is_thread_get (trace w) ++ map EvThreadsGet batch.
Proof.
  destruct (fetchThreadsData_spec C gmail batch w) as (l & Hl & _ & Hobs).
  unfold processBatch, try_catch, bind at 1.
  destruct (fetchThreadsData C gmail batch w) as [r w1]. simpl in Hl, Hobs.
  subst r. cbv zeta.
  destruct (length (extractMessageIds l) =? 0)%nat; [exact Hobs|].
  pose proof (stable_after_fetch C (quiet is_thread_get) gmail batch userId
                (extractMessageIds l)
                (tolerant_quiet is_thread_get message_calls
                   ltac:(event_cases))
                (tolerant_quiet is_thread_get annotation_calls
                   ltac:(event_cases))
                (tolerant_quiet is_thread_get embedding_calls
                   ltac:(event_cases)) w1) as Hq.
  unfold quiet in Hq.
  destruct ((do! batchGetMessages C gmail (extractMessageIds l) in
             do! autoAnnotate C gmail batch userId in
             do! embedThreads C batch userId in
             ret tt) w1) as [[[]|e|] w2]; simpl in *.
  - rewrite Hq. exact Hobs.
  - observe_simpl. rewrite Hq. exact Hobs.
  - rewrite Hq. exact Hobs.
Qed.

(** With enough turns, the loop is the sequence of [processBatch] on the
    slices. *)
Lemma processThreads_from_slices (n : nat) (gmail : string)
    (threadIds : list string) (userId : string) (i : nat) (w : World E) :
  (length threadIds <= i + n * BATCH_SIZE)%nat ->
  processThreads_from C n gmail threadIds userId i w
  = for_each (slices_from n threadIds i)
      (fun batch => processBatch C gmail batch userId) w.
Proof.
  revert i w. induction n as [|n IH]; intros i w Hlen; simpl.
  - destruct (Nat.ltb_spec i (length threadIds)); [lia | reflexivity].
  - destruct (Nat.ltb_spec i (length threadIds)); [|reflexivity].
    simpl. unfold bind.
    destruct (processBatch C gmail _ userId w) as [[[]|e|] w1];
      try reflexivity.
    apply IH. lia.
Qed.

Lemma slices_from_concat (n : nat) (threadIds : list string) (i : nat) :
  (length threadIds <= i + n * BATCH_SIZE)%nat ->
  concat (slices_from n threadIds i) = drop i threadIds.
Proof.
  revert i. induction n as [|n IH]; intros i Hlen; simpl.
  - destruct (Nat.ltb_spec i (length threadIds)); [lia|].
    rewrite drop_ge by lia. reflexivity.
  - destruct (Nat.ltb_spec i (length threadIds)).
    + simpl. rewrite IH by lia.
      rewrite <- (drop_drop threadIds BATCH_SIZE i).
      apply take_drop.
    + rewrite drop_ge by lia. reflexivity.
Qed.

Lemma slices_from_sizes (n : nat) (threadIds : list string) (i : nat) :
  Forall (fun batch => (1 <= length batch <= BATCH_SIZE)%nat)
    (slices_from n threadIds i).
Proof.
  revert i. induction n as [|n IH]; intros i; simpl;
    destruct (Nat.ltb_spec i (length threadIds)); try constructor.
  - rewrite length_take, length_drop. unfold BATCH_SIZE. lia.
  - apply IH.
Qed.

Lemma slices_from_lookup (n : nat) (threadIds : list string) (i k : nat)
    (batch : list string) :
  slices_from n threadIds i !! k = Some batch ->
  batch = take BATCH_SIZE (drop (i + k * BATCH_SIZE) threadIds).
Proof.
  revert i k. induction n as [|n IH]; intros i k; simpl;
    destruct (Nat.ltb_spec i (length threadIds)); try discriminate.
  destruct k as [|k]; simpl.
  - intros [= <-]. rewrite Nat.add_0_r. reflexivity.
  - intros Hk. apply IH in Hk. subst batch. f_equal. f_equal.
    unfold BATCH_SIZE. lia.
Qed.

Lemma slices_from_length (n : nat) (threadIds : list string) (i : nat) :
  (length threadIds <= i + n * BATCH_SIZE)%nat ->
  (length (slices_from n threadIds i) * BATCH_SIZE
   < length threadIds - i + BATCH_SIZE)%nat
  /\ (length threadIds - i <= length (slices_from n threadIds i) * BATCH_SIZE)%nat.
Proof.
  revert i. induction n as [|n IH]; intros i Hlen; simpl;
    destruct (Nat.ltb_spec i (length threadIds)); simpl;
    try (unfold BATCH_SIZE in *; lia).
  destruct (IH (i + BATCH_SIZE)%nat) as [H1 H2]; [lia|].
  unfold BATCH_SIZE in *. lia.
Qed.

(** X1. [processThreads] works through consecutive slices of the thread
    identifiers, one [processBatch] after the other: the slices are not
    empty, hold at most 100 identifiers, are [threadIds.slice(100k,
    100k + 100)] for k = 0, 1, ..., cover the list exactly once, and there
    are as few of them as that allows. *)
Theorem processThreads_slices (gmail : string) (threadIds : list string)
    (userId : string) (w : World E) :
  processThreads C gmail threadIds userId w
  = for_each (slices threadIds)
      (fun batch => processBatch C gmail batch userId) w
  /\ concat (slices threadIds) = threadIds
  /\ Forall (fun batch => (1 <= length batch <= BATCH_SIZE)%nat)
       (slices threadIds)
  /\ (forall k batch,
        slices threadIds !! k = Some batch ->
        batch = take BATCH_SIZE (drop (k * BATCH_SIZE) threadIds))
  /\ length (slices threadIds)
     = ((length threadIds + (BATCH_SIZE - 1)) / BATCH_SIZE)%nat.
Proof.
  assert (length threadIds <= 0 + length threadIds * BATCH_SIZE)%nat as Hfuel
      by (unfold BATCH_SIZE; lia).
  split; [apply processThreads_from_slices, Hfuel|].
  split; [apply (slices_from_concat _ _ 0%nat Hfuel)|].
  split; [apply slices_from_sizes|].
  split; [intros k batch H; apply (slices_from_lookup _ _ 0%nat) in H;
          exact H|].
  destruct (slices_from_length _ _ 0%nat Hfuel) as [H1 H2].
  fold (slices threadIds) in H1, H2.
  apply (Nat.div_unique _ _ _
           (length threadIds + (BATCH_SIZE - 1)
            - length (slices threadIds) * BATCH_SIZE)%nat);
    unfold BATCH_SIZE in *; lia.
Qed.

Lemma for_each_thread_gets (gmail userId : string)
    (batches : list (list string)) (w : World E) :
  observe is_thread_get
    (trace (for_each batches
              (fun batch => processBatch C gmail batch userId) w).2)
  = observe is_thread_get (trace w) ++ map EvThreadsGet (concat batches).
Proof.
  revert w. induction batches as [|batch batches IH]; intros w; simpl.
  - rewrite app_nil_r. reflexivity.
  - unfold bind.
    pose proof (processBatch_returns C gmail batch userId w) as Hret.
    pose proof (processBatch_thread_gets gmail batch userId w) as Hobs.
    destruct (processBatch C gmail batch userId w) as [r w1].
    simpl in Hret, Hobs. subst r.
    rewrite IH, Hobs, map_app, app_assoc. reflexivity.
Qed.


End SliceLoop.

(** ** Thread discovery: what is found, and the cursor *)

Section MoreDiscovery.
Context {E : Type} (C : Collab E).

Lemma fetchThreadBatch_returned (gmail : string) (token : JsStr)
    (w : World E) page w1 :
  fetchThreadBatch C gmail token w = (Returned page, w1) ->
  exists response e',
    threads_list C gmail token (ext w) = (inr response, e')
    /\ page = mkThreadPage (default [] (threads response))
                (resp_nextPageToken response)
    /\ w1 = set_ext e' (record (EvThreadsList token) w).
Proof.
  destruct (threads_list C gmail token (ext w)) as [[err|response] e']
    eqn:Hcall.
  - rewrite (fetchThreadBatch_rejects C _ _ _ _ _ Hcall). discriminate.
  - rewrite (fetchThreadBatch_resolves C _ _ _ _ _ Hcall).
    intros [= <- <-]. exists response, e'. repeat split.
Qed.

Lemma filter_page_origin (known : gset string) (remaining : Z)
    (page : list JsStr) (threadIds : list string) (x : string) :
  x ∈ filter_page known remaining page threadIds ->
  x ∈ threadIds \/ (JsString x ∈ page /\ x <> "" /\ x ∉ known).
Proof.
  revert threadIds. induction page as [|thread rest IH];
    intros threadIds; simpl; [tauto|].
  destruct (Z.of_nat (length threadIds) >=? remaining); [tauto|].
  intros Hx. apply IH in Hx as [Hx|(Hin & Hne & Hnew)].
  - destruct thread as [| |id]; try (left; exact Hx).
    destruct (truthy (JsString id) && negb (bool_decide (id ∈ known)))
      eqn:Hc; [|left; exact Hx].
    apply elem_of_set_add in Hx as [->|Hx]; [|left; exact Hx].
    apply andb_true_iff in Hc as [Ht Hn]. right.
    split; [apply list_elem_of_here|]. split.
    + simpl in Ht. apply negb_true_iff, String.eqb_neq in Ht. exact Ht.
    + apply negb_true_iff, bool_decide_eq_false in Hn. exact Hn.
  - right. split; [apply list_elem_of_further, Hin|]. split; assumption.
Qed.

Lemma filter_page_extends (known : gset string) (remaining : Z)
    (page : list JsStr) (threadIds : list string) :
  (length threadIds <= length (filter_page known remaining page threadIds))%nat
  /\ forall x, x ∈ threadIds ->
               x ∈ filter_page known remaining page threadIds.
Proof.
  revert threadIds. induction page as [|thread rest IH];
    intros threadIds; simpl; [split; [lia | tauto]|].
  destruct (Z.of_nat (length threadIds) >=? remaining);
    [split; [lia | tauto]|].
  match goal with
  | |- context [filter_page known remaining rest ?ids] =>
      destruct (IH ids) as [Hlen Hsub];
      assert ((length threadIds <= length ids)%nat
              /\ forall x, x ∈ threadIds -> x ∈ ids) as [Hl Hs]
  end.
  { destruct thread as [| |id]; try (split; [lia | tauto]).
    destruct (truthy (JsString id) && negb (bool_decide (id ∈ known)));
      [|split; [lia | tauto]].
    split.
    - unfold set_add. case_bool_decide; [lia|]. rewrite length_app. lia.
    - intros x Hx. apply elem_of_set_add. right. exact Hx. }
  split; [lia|]. intros x Hx. apply Hsub, Hs, Hx.
Qed.

Lemma filter_page_complete (known : gset string) (remaining : Z)
    (page : list JsStr) (threadIds : list string) (x : string) :
  Z.of_nat (length (filter_page known remaining page threadIds)) < remaining ->
  JsString x ∈ page -> x <> "" -> x ∉ known ->
  x ∈ filter_page known remaining page threadIds.
Proof.
  revert threadIds. induction page as [|thread rest IH];
    intros threadIds; simpl; [intros _ Hin; inversion Hin|].
  destruct (Z.geb_spec (Z.of_nat (length threadIds)) remaining) as [Hge|Hlt];
    [lia|].
  intros Hlen Hin Hne Hnew. apply elem_of_cons in Hin as [<-|Hin].
  - apply filter_page_extends.
    replace (truthy (JsString x) && negb (bool_decide (x ∈ known)))
      with true.
    + apply elem_of_set_add. left. reflexivity.
    + symmetry. apply andb_true_iff. split.
      * simpl. apply negb_true_iff, String.eqb_neq. exact Hne.
      * apply negb_true_iff, bool_decide_eq_false. exact Hnew.
  - apply IH; assumption.
Qed.

(** What the loop returns extends what it started from. *)
Lemma pagination_loop_extends (fuel : nat) (gmail : string)
    (known : gset string) (remaining : Z) (pageToken : JsStr)
    (threadIds : list string) (w : World E) r w' :
  pagination_loop C fuel gmail known remaining pageToken threadIds w
    = (Returned r, w') ->
  (length threadIds <= length r.2)%nat
  /\ forall x, x ∈ threadIds -> x ∈ r.2.
Proof.
  revert pageToken threadIds w.
  induction fuel as [|fuel IH]; intros pageToken threadIds w; simpl;
    destruct (is_defined pageToken && _); intros Hrun; try discriminate;
    try (inversion Hrun; subst; simpl; split; [lia | tauto]).
  apply bind_returned in Hrun as (page & w1 & _ & Hrest).
  apply IH in Hrest as [Hlen Hsub].
  destruct (filter_page_extends known remaining (items page) threadIds)
    as [Hl Hs].
  split; [lia|]. intros x Hx. apply Hsub, Hs, Hx.
Qed.

(** Every identifier the loop adds is shown by the listing it pages
    through, is not empty and is not known. *)
Lemma pagination_loop_origin (fuel : nat) (gmail : string)
    (known : gset string) (remaining : Z) (pageToken : JsStr)
    (threadIds : list string) (w : World E) r w' x :
  pagination_loop C fuel gmail known remaining pageToken threadIds w
    = (Returned r, w') ->
  x ∈ r.2 ->
  x ∈ threadIds
  \/ (is_defined pageToken = true
      /\ shows C gmail pageToken (ext w) x /\ x <> "" /\ x ∉ known).
Proof.
  revert pageToken threadIds w.
  induction fuel as [|fuel IH]; intros pageToken threadIds w; simpl;
    destruct (is_defined pageToken && _) eqn:Hguard; intros Hrun Hx;
    try discriminate;
    try (inversion Hrun; subst; left; exact Hx).
  apply andb_true_iff in Hguard as [Hdef _].
  apply bind_returned in Hrun as (page & w1 & Hfetch & Hrest).
  apply fetchThreadBatch_returned in Hfetch
    as (response & e' & Hcall & -> & ->).
  simpl in Hrest.
  destruct (IH _ _ _ Hrest Hx) as [Hin|(Hdef' & Hshows & Hne & Hnew)].
  - apply filter_page_origin in Hin as [Hin|(Hin & Hne & Hnew)];
      [left; exact Hin|].
    right. split; [exact Hdef|]. split; [|split; assumption].
    eapply shows_here; eassumption.
  - right. split; [exact Hdef|]. split; [|split; assumption].
    eapply shows_later; eassumption.
Qed.

(** When the loop returns with room left, it has every identifier that
    the listing shows and that is neither empty nor known. *)
Lemma pagination_loop_complete (fuel : nat) (gmail : string)
    (known : gset string) (remaining : Z) (pageToken : JsStr)
    (threadIds : list string) (w : World E) r w' x :
  pagination_loop C fuel gmail known remaining pageToken threadIds w
    = (Returned r, w') ->
  Z.of_nat (length r.2) < remaining ->
  is_defined pageToken = true ->
  shows C gmail pageToken (ext w) x -> x <> "" -> x ∉ known ->
  x ∈ r.2.
Proof.
  revert pageToken threadIds w.
  induction fuel as [|fuel IH]; intros pageToken threadIds w; simpl;
    destruct (is_defined pageToken && _) eqn:Hguard;
    intros Hrun Hroom Hdef Hshows Hne Hnew; try discriminate;
    try (exfalso; inversion Hrun; subst; simpl in *;
         rewrite Hdef in Hguard; simpl in Hguard;
         apply Z.ltb_ge in Hguard; lia).
  apply bind_returned in Hrun as (page & w1 & Hfetch & Hrest).
  apply fetchThreadBatch_returned in Hfetch
    as (response & e' & Hcall & -> & ->).
  simpl in Hrest.
  pose proof (pagination_loop_extends _ _ _ _ _ _ _ _ _ Hrest) as [Hlen Hsub].
  inversion Hshows as [token e response0 e0 x0 Hcall0 Hin
                      |token e response0 e0 x0 Hcall0 Hnext Hlater]; subst;
    rewrite Hcall in Hcall0; inversion Hcall0; subst.
  - apply Hsub. apply filter_page_complete; try assumption. lia.
  - eapply IH; try eassumption.
Qed.

(** X3. Every identifier that [fetchNewThreads] returns was shown by the
    listing of the mailbox, paged through from the stored cursor (from the
    start when there is none), and is not the empty string. *)
Theorem fetchNewThreads_returns_listed_threads (fuel : nat) (gmail : string)
    (existing : list string) (user key : string) (w : World E) ids w' x :
  fetchNewThreads C fuel gmail existing user key w = (Returned ids, w') ->
  x ∈ ids ->
  shows C gmail (stored key w) (ext w) x /\ x <> "".
Proof.
  intros Hrun Hx.
  destruct (Z.leb_spec (MAX_THREADS_PER_USER - Z.of_nat (length existing)) 0)
    as [Hle|Hpos].
  - revert Hrun. unfold fetchNewThreads, bind at 1, redis_get. cbv zeta.
    destruct (Z.leb_spec (MAX_THREADS_PER_USER - Z.of_nat (length existing))
                0); [|lia].
    intros [= <- _]. inversion Hx.
  - apply fetchNewThreads_returned in Hrun as (pageToken & w1 & Hloop & _);
      [|exact Hpos].
    destruct (pagination_loop_origin _ _ _ _ _ _ _ _ _ x Hloop Hx)
      as [Hnil|(_ & Hshows & Hne & _)]; [inversion Hnil|].
    split; assumption.
Qed.

(** X4. When [fetchNewThreads] returns fewer identifiers than the cap
    leaves room for, nothing was skipped: every thread that the listing
    shows from the stored cursor on, with a non-empty identifier that is
    not among the processed ones, is in the result. *)
Theorem fetchNewThreads_complete_below_cap (fuel : nat) (gmail : string)
    (existing : list string) (user key : string) (w : World E) ids w' x :
  fetchNewThreads C fuel gmail existing user key w = (Returned ids, w') ->
  Z.of_nat (length ids)
  < MAX_THREADS_PER_USER - Z.of_nat (length existing) ->
  shows C gmail (stored key w) (ext w) x ->
  x <> "" -> x ∉ existing ->
  x ∈ ids.
Proof.
  intros Hrun Hroom Hshows Hne Hnew.
  apply fetchNewThreads_returned in Hrun as (pageToken & w1 & Hloop & _);
    [|lia].
  apply (pagination_loop_complete _ _ _ _ _ _ _ _ _ x Hloop); try assumption.
  - unfold stored. destruct (redis w !! key) as [[v ttl]|]; reflexivity.
  - rewrite elem_of_list_to_set. exact Hnew.
Qed.

End MoreDiscovery.

(** Reduction of the fields of a world that was built step by step. *)
Ltac world_simpl :=
  cbn [fst snd log bind throw ret redis_del redis_set set_redis set_ext
       set_gate record trace redis ext activeProcessingCount
       processingMessages].

Tactic Notation "world_simpl" "in" hyp(H) :=
  cbn [fst snd log bind throw ret redis_del redis_set set_redis set_ext
       set_gate record trace redis ext activeProcessingCount
       processingMessages] in H.

(** ** The cursor is read and deleted, never written *)

Section CursorLifetime.
Context {E : Type} (C : Collab E).

#[export] Instance same_or_deleted_frame (key : string) :
  Frame (@same_or_deleted E key).
Proof.
  split.
  - intros w. left. reflexivity.
  - intros w1 w2 w3 [H1|H1] [H2|H2]; unfold same_or_deleted;
      rewrite H2, H1; [left | right | right | right]; try reflexivity.
    apply map_eq. intros k.
    destruct (decide (key = k)) as [->|Hne].
    + rewrite !lookup_delete_eq. reflexivity.
    + rewrite !lookup_delete_ne by exact Hne. reflexivity.
  - intros e w. left. reflexivity.
Qed.

Lemma tolerant_same_or_deleted (key : string) (P : Event -> bool) :
  tolerant (@same_or_deleted E key) P.
Proof. intros ev w _. left. reflexivity. Qed.

(** In every run of [fetchNewThreads], settled or not, the store is left
    as it was or without the entry at the key, and no [redis.set] is
    issued. *)
Lemma fetchNewThreads_cursor_lifetime (fuel : nat) (gmail : string)
    (existing : list string) (user key : string) (w : World E) :
  same_or_deleted key w (fetchNewThreads C fuel gmail existing user key w).2
  /\ observe is_redis_set
       (trace (fetchNewThreads C fuel gmail existing user key w).2)
     = observe is_redis_set (trace w).
Proof.
  destruct (fetchNewThreads C fuel gmail existing user key w) as [o w']
    eqn:Hrun.
  cbn [snd]. revert Hrun.
  unfold fetchNewThreads, bind at 1, redis_get. cbv zeta.
  destruct (Z.leb_spec (MAX_THREADS_PER_USER - Z.of_nat (length existing)) 0)
    as [Hle|Hpos].
  - intros [= _ <-]. world_simpl.
    split; [left; reflexivity|]. observe_simpl. reflexivity.
  - set (w0 := record (EvRedisGet key) w).
    pose proof (pagination_loop_same_redis C fuel gmail
                  (list_to_set existing)
                  (MAX_THREADS_PER_USER - Z.of_nat (length existing))
                  (stored key w) [] w0) as Hredis.
    pose proof (stable_pagination_loop C (quiet is_redis_set) fuel gmail
                  (list_to_set existing)
                  (MAX_THREADS_PER_USER - Z.of_nat (length existing))
                  (stored key w) []
                  (tolerant_quiet is_redis_set loop_calls
                     ltac:(event_cases)) w0) as Hquiet.
    unfold quiet in Hquiet.
    assert (observe is_redis_set (trace w0) = observe is_redis_set (trace w))
      as Hw0 by (unfold w0; world_simpl; observe_simpl; reflexivity).
    unfold try_catch, bind at 1.
    destruct (pagination_loop C fuel gmail (list_to_set existing) _ _ _ w0)
      as [[r|e|] w1] eqn:Hloop; cbn [snd] in Hredis, Hquiet.
    + apply pagination_loop_returned in Hloop as [_ Hexit];
        [|apply discovered_ok_nil, Hpos].
      unfold bind, update_pagination.
      replace (negb (truthy r.1)
               || (Z.of_nat (length r.2)
                   >=? MAX_THREADS_PER_USER - Z.of_nat (length existing)))
        with true.
      * intros [= _ <-]. world_simpl. split.
        -- unfold same_or_deleted. world_simpl. right. rewrite Hredis.
           reflexivity.
        -- observe_simpl. rewrite Hquiet. exact Hw0.
      * symmetry. apply orb_true_iff. destruct Hexit as [Hundef|Hfull].
        -- left. destruct r.1; [reflexivity | discriminate | discriminate].
        -- right. apply Z.geb_le. exact Hfull.
    + intros [= _ <-]. world_simpl. split.
      * unfold same_or_deleted. world_simpl. left. rewrite Hredis.
        reflexivity.
      * observe_simpl. rewrite Hquiet. exact Hw0.
    + intros [= _ <-]. split.
      * unfold same_or_deleted. world_simpl. left. rewrite Hredis.
        reflexivity.
      * rewrite Hquiet. exact Hw0.
Qed.

Lemma stable_fetchNewThreads_lifetime (fuel : nat) (gmail : string)
    (existing : list string) (user key : string) :
  stable (same_or_deleted key)
    (fetchNewThreads C fuel gmail existing user key).
Proof. intros w. apply fetchNewThreads_cursor_lifetime. Qed.

Lemma stable_processMessage_lifetime (fuel : nat) (message : Message) :
  stable (same_or_deleted (cursor_key message))
    (processMessage C fuel message).
Proof.
  unfold processMessage, cursor_key.
  destruct (body message) as [b|]; [|apply stable_throw; exact _].
  pose proof (tolerant_same_or_deleted ("pagination:" +:+ userId b)
                processing_calls) as T.
  stable_auto T.
  - apply stable_getExistingThreads; try exact _.
    apply tolerant_same_or_deleted.
  - apply stable_fetchNewThreads_lifetime.
  - apply stable_processThreads; try exact _.
    apply tolerant_same_or_deleted.
Qed.

Lemma stable_attempt_lifetime (fuel : nat) (message : Message) :
  stable (same_or_deleted (cursor_key message)) (attempt C fuel message).
Proof.
  pose proof (tolerant_same_or_deleted (cursor_key message) (fun _ => true))
    as T.
  unfold attempt, guarded. stable_auto T.
  - apply stable_log_count; try exact _. apply tolerant_same_or_deleted.
  - apply stable_processMessage_lifetime.
  - apply stable_handleMessageError; try exact _.
    apply tolerant_same_or_deleted.
Qed.

(** X5. The pipeline never stores a cursor. Whatever a delivery runs
    into, the cursor store is afterwards as it was before, or has lost the
    entry [pagination:{userId}] of the message's user; and no run of
    [fetchNewThreads] issues a [redis.set]. *)
Theorem pipeline_never_stores_cursor (fuel : nat) (message : Message)
    (w : World E) :
  (redis (onMessage C fuel message w).2 = redis w
   \/ redis (onMessage C fuel message w).2
      = delete (cursor_key message) (redis w))
  /\ (forall gmail existing user key w0,
        observe is_redis_set
          (trace (fetchNewThreads C fuel gmail existing user key w0).2)
        = observe is_redis_set (trace w0)).
Proof.
  split; [|intros; apply fetchNewThreads_cursor_lifetime].
  destruct (admission_refused message w) eqn:Hadm.
  - destruct (onMessage_refused C fuel message w Hadm) as (l & -> & _).
    left. reflexivity.
  - pose proof (stable_attempt_lifetime fuel message
                  (acquire (admission_key message) w)) as Hatt.
    destruct (attempt C fuel message (acquire (admission_key message) w))
      as [r w1] eqn:Hrun.
    rewrite (onMessage_admitted C _ _ _ _ _ Hadm Hrun).
    destruct r; exact Hatt.
Qed.

(** X6. Below the cap, discovery takes the listing up where the stored
    cursor points: after reading the cursor, the first thing
    [fetchNewThreads] does is to request the page at the stored token, or
    the first page ([null]) when nothing is stored. *)
Theorem fetchNewThreads_resumes_at_cursor (fuel : nat) (gmail : string)
    (existing : list string) (user key : string) (w : World E) :
  0 < MAX_THREADS_PER_USER - Z.of_nat (length existing) ->
  (trace w ++ [EvRedisGet key; EvThreadsList (stored key w)])
    `prefix_of`
    trace (fetchNewThreads C (S fuel) gmail existing user key w).2.
Proof.
  intros Hpos.
  set (remaining := MAX_THREADS_PER_USER - Z.of_nat (length existing)).
  set (w0 := record (EvRedisGet key) w).
  assert (is_defined (stored key w) && (Z.of_nat (length (@nil string))
                                        <? remaining) = true) as Hguard.
  { apply andb_true_iff. split.
    - unfold stored. destruct (redis w !! key) as [[v ttl]|]; reflexivity.
    - apply Z.ltb_lt. simpl. exact Hpos. }
  assert (forall m : M E (list string),
             grows (record (EvThreadsList (stored key w)) w0) (m w0).2 ->
             (trace w ++ [EvRedisGet key; EvThreadsList (stored key w)])
               `prefix_of` trace (m w0).2) as Hfrom.
  { intros m Hg. unfold grows, w0 in Hg. world_simpl in Hg.
    rewrite <- app_assoc in Hg. exact Hg. }
  unfold fetchNewThreads, bind at 1, redis_get. cbv zeta. fold remaining.
  destruct (Z.leb_spec remaining 0) as [Hle|_]; [lia|].
  fold w0. apply Hfrom. unfold try_catch, bind at 1.
  destruct (threads_list C gmail (stored key w) (ext w0))
    as [[err|response] e'] eqn:Hcall.
  - cbn [pagination_loop]. rewrite Hguard. unfold bind at 1.
    rewrite (fetchThreadBatch_rejects C _ _ _ _ _ Hcall).
    unfold grows. world_simpl. apply prefix_app_r, prefix_app_r.
    reflexivity.
  - rewrite (pagination_loop_step C _ _ _ _ _ _ _ _ _ Hguard Hcall).
    set (w1 := set_ext e' (record (EvThreadsList (stored key w)) w0)).
    pose proof (stable_pagination_loop C grows fuel gmail
                  (list_to_set existing) remaining
                  (resp_nextPageToken response)
                  (filter_page (list_to_set existing) remaining
                     (default [] (threads response)) [])
                  (tolerant_grows loop_calls) w1) as Hloop.
    assert (forall w2, grows w1 w2 ->
                       trace (record (EvThreadsList (stored key w)) w0)
                         `prefix_of` trace w2) as Hstart
        by (intros w2 Hg; exact Hg).
    destruct (pagination_loop C fuel gmail _ _ _ _ w1) as [[r|e|] w2];
      cbn [snd] in Hloop; apply Hstart in Hloop; unfold grows.
    + pose proof (stable_update_pagination grows key r.1 r.2 remaining
                    (redis_frame_keeps grows (fun _ => true) key
                       (tolerant_grows _) (fun _ _ => eq_refl)) w2) as Hupd.
      pose proof (update_pagination_returns key r.1 r.2 remaining w2) as Hret.
      unfold bind.
      destruct (update_pagination key r.1 r.2 remaining w2) as [o3 w3].
      cbn [fst snd] in Hret, Hupd. subst o3. cbn [snd ret].
      etrans; [exact Hloop | exact Hupd].
    + world_simpl. etrans; [exact Hloop|].
      apply prefix_app_r. reflexivity.
    + exact Hloop.
Qed.

End CursorLifetime.

(** ** A delivery, end to end *)

Section EndToEnd.
Context {E : Type} (C : Collab E).

(** What [fetchNewThreads] returns, at the cap and below it. *)
Lemma fetchNewThreads_result (fuel : nat) (gmail : string)
    (existing : list string) (user key : string) (w : World E) ids w' :
  fetchNewThreads C fuel gmail existing user key w = (Returned ids, w') ->
  NoDup ids
  /\ (forall x, x ∈ ids -> x ∉ existing)
  /\ Z.of_nat (length ids)
     <= Z.max 0 (MAX_THREADS_PER_USER - Z.of_nat (length existing)).
Proof.
  intros Hrun.
  destruct (Z.leb_spec (MAX_THREADS_PER_USER - Z.of_nat (length existing)) 0)
    as [Hle|Hpos].
  - revert Hrun. unfold fetchNewThreads, bind at 1, redis_get. cbv zeta.
    destruct (Z.leb_spec (MAX_THREADS_PER_USER - Z.of_nat (length existing))
                0); [|lia].
    intros [= <- _]. repeat split.
    + apply NoDup_nil_2.
    + intros x Hx. inversion Hx.
    + simpl. lia.
  - apply fetchNewThreads_returned in Hrun as (pageToken & w1 & Hloop & _);
      [|exact Hpos].
    apply pagination_loop_returned in Hloop as [(Hnd & Hnew & Hlen) _];
      [|apply discovered_ok_nil, Hpos].
    simpl in *. repeat split; try assumption.
    + intros x Hx Hex. apply (Hnew x Hx). apply elem_of_list_to_set, Hex.
    + lia.
Qed.

(** A returned ledger is the answer of the database. *)
Lemma getExistingThreads_returned (user : string) (w : World E) existing w' :
  getExistingThreads C user w = (Returned existing, w') ->
  exists r e',
    select_thread_embeddings C user (ext w) = (inr r, e')
    /\ error r = None
    /\ existing = default [] (data r).
Proof.
  unfold getExistingThreads, bind, call.
  destruct (select_thread_embeddings C user (ext w)) as [[err|r] e'];
    [discriminate|].
  destruct (error r) as [e|] eqn:Herr; [discriminate|].
  intros [= <- _]. exists r, e'. repeat split. exact Herr.
Qed.

Lemma processThreads_thread_gets (gmail : string) (threadIds : list string)
    (user : string) (w : World E) :
  observe is_thread_get (trace (processThreads C gmail threadIds user w).2)
  = observe is_thread_get (trace w) ++ map EvThreadsGet threadIds.
Proof.
  assert (length threadIds <= 0 + length threadIds * BATCH_SIZE)%nat as Hfuel
      by (unfold BATCH_SIZE; lia).
  unfold processThreads. rewrite processThreads_from_slices by exact Hfuel.
  rewrite for_each_thread_gets.
  rewrite (slices_from_concat _ _ 0%nat Hfuel). reflexivity.
Qed.

(** X7. [processMessage] hands to [processThreads] exactly the threads
    that [fetchNewThreads] returned for the ledger that
    [getExistingThreads] read, and the requests [threads.get] that the
    receiver itself makes for the delivery are one for each of these
    threads, in their order: no thread twice, none that the ledger holds,
    no more than the cap of 500 leaves room for. A delivery that does not
    get through discovery makes no such request. (The requests that the
    annotation service makes on its own for the threads of a slice are
    not the receiver's; they are the subject of X18.) *)
Theorem processMessage_requests_new_threads (fuel : nat)
    (message : Message) (w : World E) :
  (forall b existing w1 ids w2,
     body message = Some b ->
     getExistingThreads C (userId b)
       (record (EvLog (DebugProcessingForUser (userId b))) w)
     = (Returned existing, w1) ->
     fetchNewThreads C fuel (accessToken b) existing (userId b)
       ("pagination:" +:+ userId b) w1 = (Returned ids, w2) ->
     processMessage C fuel message w
     = (Returned tt, (processThreads C (accessToken b) ids (userId b) w2).2)
     /\ observe is_thread_get (trace (processMessage C fuel message w).2)
        = observe is_thread_get (trace w) ++ map EvThreadsGet ids
     /\ NoDup ids
     /\ (forall x, x ∈ ids -> x ∉ existing)
     /\ Z.of_nat (length ids)
        <= Z.max 0 (MAX_THREADS_PER_USER - Z.of_nat (length existing))
     /\ Z.of_nat (length ids) <= MAX_THREADS_PER_USER)
  /\ ((processMessage C fuel message w).1 <> Returned tt ->
      observe is_thread_get (trace (processMessage C fuel message w).2)
      = observe is_thread_get (trace w)).
Proof.
  split.
  - intros b existing w1 ids w2 Hbody Hledger Hfetch.
    assert (observe is_thread_get (trace w1) = observe is_thread_get (trace w))
      as Hq1.
    { pose proof (stable_getExistingThreads C (quiet is_thread_get) (userId b)
                    (tolerant_quiet is_thread_get discovery_calls
                       ltac:(event_cases))
                    (record (EvLog (DebugProcessingForUser (userId b))) w))
        as Hq.
      rewrite Hledger in Hq. cbn [snd] in Hq. unfold quiet in Hq.
      rewrite Hq. world_simpl. observe_simpl. reflexivity. }
    assert (observe is_thread_get (trace w2) = observe is_thread_get (trace w1))
      as Hq2.
    { pose proof (stable_fetchNewThreads C (quiet is_thread_get) fuel
                    (accessToken b) existing (userId b)
                    ("pagination:" +:+ userId b)
                    (tolerant_quiet is_thread_get discovery_calls
                       ltac:(event_cases))
                    (redis_frame_keeps (quiet is_thread_get) discovery_calls _
                       (tolerant_quiet is_thread_get discovery_calls
                          ltac:(event_cases))
                       ltac:(event_cases)) w1) as Hq.
      rewrite Hfetch in Hq. exact Hq. }
    assert (processMessage C fuel message w
            = (Returned tt,
               (processThreads C (accessToken b) ids (userId b) w2).2))
      as Hrun.
    { pose proof (processThreads_returns C (accessToken b) ids (userId b) w2)
        as Hret.
      unfold processMessage. rewrite Hbody.
      unfold bind at 1, log at 1. unfold bind at 1. rewrite Hledger.
      cbv zeta. unfold bind at 1. rewrite Hfetch.
      destruct (processThreads C (accessToken b) ids (userId b) w2)
        as [o wf]. cbn [fst snd] in *. subst o. reflexivity. }
    split; [exact Hrun|]. rewrite Hrun. cbn [snd].
    apply fetchNewThreads_result in Hfetch as (Hnd & Hnew & Hlen).
    split; [rewrite processThreads_thread_gets, Hq2, Hq1; reflexivity|].
    split; [exact Hnd|]. split; [exact Hnew|]. split; [exact Hlen|].
    unfold MAX_THREADS_PER_USER in *. lia.
  - destruct (processMessage C fuel message w) as [o wf] eqn:Hrun.
    cbn [fst snd]. revert Hrun. unfold processMessage.
    destruct (body message) as [b|] eqn:Hbody.
    2:{ intros [= <- <-] _. reflexivity. }
    unfold bind at 1. cbn [log]. set (w0 := record _ w).
    assert (observe is_thread_get (trace w0)
            = observe is_thread_get (trace w))
      as Hw0 by (unfold w0; world_simpl; observe_simpl; reflexivity).
    pose proof (stable_getExistingThreads C (quiet is_thread_get) (userId b)
                  (tolerant_quiet is_thread_get discovery_calls
                     ltac:(event_cases)) w0) as Hq1.
    unfold bind at 1.
    destruct (getExistingThreads C (userId b) w0) as [[existing|e|] w1]
      eqn:Hledger; cbn [snd] in Hq1; unfold quiet in Hq1.
    2,3: intros [= <- <-] _; rewrite Hq1, Hw0; reflexivity.
    pose proof (stable_fetchNewThreads C (quiet is_thread_get) fuel
                  (accessToken b) existing (userId b)
                  ("pagination:" +:+ userId b)
                  (tolerant_quiet is_thread_get discovery_calls
                     ltac:(event_cases))
                  (redis_frame_keeps (quiet is_thread_get) discovery_calls _
                     (tolerant_quiet is_thread_get discovery_calls
                        ltac:(event_cases))
                     ltac:(event_cases)) w1) as Hq2.
    cbv zeta. unfold bind at 1.
    destruct (fetchNewThreads C fuel (accessToken b) existing (userId b)
                ("pagination:" +:+ userId b) w1) as [[ids|e|] w2] eqn:Hfetch;
      cbn [snd] in Hq2; unfold quiet in Hq2.
    2,3: intros [= <- <-] _; rewrite Hq2, Hq1, Hw0; reflexivity.
    intros Hrun Hne. exfalso. apply Hne.
    pose proof (processThreads_returns C (accessToken b) ids (userId b) w2)
      as Hret.
    rewrite Hrun in Hret. exact Hret.
Qed.

End EndToEnd.

(** ** Annotation and embedding over the slices *)

Section Handling.
Context {E : Type} (C : Collab E).

(** The world that [Promise.all] leaves is the one its promises leave,
    one after the other. *)
Lemma promise_all_cons_world {A} (p : M E A) (ps : list (M E A))
    (w : World E) :
  (p w).1 <> OutOfFuel ->
  (promise_all (p :: ps) w).2 = (promise_all ps (p w).2).2.
Proof.
  simpl. destruct (p w) as [[a|e|] w1]; simpl; intros H;
    [| |contradiction];
    destruct (promise_all ps w1) as [[l|e'|] w2]; reflexivity.
Qed.

(** The embedding step of one thread: the annotations are queried, and
    the thread is handed over at most once, with the first row. *)
Lemma embedOrLog_embeds (userId threadId : string) (w : World E) :
  (embedOrLog C userId threadId w).1 = Returned tt
  /\ exists rows,
       map fst rows `sublist_of` [threadId]
       /\ Forall (first_annotation C userId) rows
       /\ observe is_embed_call (trace (embedOrLog C userId threadId w).2)
          = observe is_embed_call (trace w) ++ map (embed_event userId) rows.
Proof.
  unfold embedOrLog, processThread, try_catch, bind, call, throw.
  destruct (select_annotations C threadId userId (ext w))
    as [[err|[[[|row rows]|] [e|]]] e'] eqn:Hsel; simpl;
    try (split; [reflexivity|]; exists []; split; [apply sublist_nil_l|];
         split; [apply List.Forall_nil|];
         observe_simpl; rewrite app_nil_r; reflexivity).
  assert (first_annotation C userId (threadId, row)) as Hrow.
  { exists (ext w), e', {| data := Some (row :: rows); error := None |}, rows.
    repeat split. exact Hsel. }
  destruct (embed_thread C userId threadId (created_at row)
              (recipients row) e') as [[err|[]] e'']; simpl;
    (split; [reflexivity|]; exists [(threadId, row)]; split; [reflexivity|];
     split; [apply List.Forall_cons; [exact Hrow | apply List.Forall_nil]|];
     observe_simpl; reflexivity).
Qed.

Lemma embedThreads_embeds (batch : list string) (userId : string)
    (w : World E) :
  exists rows,
    map fst rows `sublist_of` batch
    /\ Forall (first_annotation C userId) rows
    /\ observe is_embed_call (trace (embedThreads C batch userId w).2)
       = observe is_embed_call (trace w) ++ map (embed_event userId) rows.
Proof.
  unfold embedThreads. revert w.
  induction batch as [|t batch IH]; intros w.
  - exists []. split; [reflexivity|]. split; [apply List.Forall_nil|].
    simpl. rewrite app_nil_r. reflexivity.
  - destruct (embedOrLog_embeds userId t w)
      as (Hret & rows1 & Hsub1 & Hrows1 & Hobs1).
    cbn [map]. rewrite promise_all_cons_world by (rewrite Hret; discriminate).
    destruct (IH (embedOrLog C userId t w).2)
      as (rows2 & Hsub2 & Hrows2 & Hobs2).
    exists (rows1 ++ rows2). split; [|split].
    + rewrite map_app. apply (sublist_app _ [t] _ batch); assumption.
    + apply Forall_app. split; assumption.
    + rewrite Hobs2, Hobs1, map_app, app_assoc. reflexivity.
Qed.

(** In a slice, only the embedding step hands threads over. *)
Lemma processBatch_embeds (gmail : string) (batch : list string)
    (userId : string) (w : World E) :
  exists rows,
    map fst rows `sublist_of` batch
    /\ Forall (first_annotation C userId) rows
    /\ observe is_embed_call (trace (processBatch C gmail batch userId w).2)
       = observe is_embed_call (trace w) ++ map (embed_event userId) rows.
Proof.
  assert (forall w' : World E,
             observe is_embed_call (trace w')
             = observe is_embed_call (trace w) ->
             exists rows,
               map fst rows `sublist_of` batch
               /\ Forall (first_annotation C userId) rows
               /\ observe is_embed_call (trace w')
                  = observe is_embed_call (trace w)
                    ++ map (embed_event userId) rows) as Hnone.
  { intros w' Hq. exists []. split; [apply sublist_nil_l|].
    split; [apply List.Forall_nil|].
    rewrite Hq, app_nil_r. reflexivity. }
  pose proof (stable_fetchThreadsData C (quiet is_embed_call) gmail batch
                (tolerant_quiet is_embed_call fetch_calls ltac:(event_cases))
                w) as Hq1.
  destruct (processBatch C gmail batch userId w) as [o wf] eqn:Hrun.
  cbn [snd]. revert Hrun. unfold processBatch, try_catch, bind at 1.
  destruct (fetchThreadsData C gmail batch w) as [[l|e|] w1];
    cbn [snd] in Hq1; unfold quiet in Hq1.
  2:{ cbn [log]. intros [= _ <-]. apply Hnone. world_simpl. observe_simpl.
      exact Hq1. }
  2:{ intros [= _ <-]. apply Hnone, Hq1. }
  cbv zeta. destruct (length (extractMessageIds l) =? 0)%nat.
  { intros [= _ <-]. apply Hnone, Hq1. }
  pose proof (stable_batchGetMessages_fine C (quiet is_embed_call) gmail
                (extractMessageIds l)
                (tolerant_quiet is_embed_call message_calls
                   ltac:(event_cases)) w1) as Hq2.
  unfold bind at 1.
  destruct (batchGetMessages C gmail (extractMessageIds l) w1)
    as [[m|e|] w2]; cbn [snd] in Hq2; unfold quiet in Hq2.
  2:{ cbn [log]. intros [= _ <-]. apply Hnone. world_simpl. observe_simpl.
      congruence. }
  2:{ intros [= _ <-]. apply Hnone. congruence. }
  pose proof (stable_autoAnnotate C (quiet is_embed_call) gmail batch userId
                (tolerant_quiet is_embed_call annotation_calls
                   ltac:(event_cases)) w2) as Hq3.
  unfold bind at 1.
  destruct (autoAnnotate C gmail batch userId w2) as [[[]|e|] w3];
    cbn [snd] in Hq3; unfold quiet in Hq3.
  2:{ cbn [log]. intros [= _ <-]. apply Hnone. world_simpl. observe_simpl.
      congruence. }
  2:{ intros [= _ <-]. apply Hnone. congruence. }
  destruct (embedThreads_embeds batch userId w3)
    as (rows & Hsub & Hrows & Hobs).
  unfold bind at 1.
  destruct (embedThreads C batch userId w3) as [[u|e|] w4];
    cbn [snd] in Hobs; cbn [ret log]; intros [= _ <-]; exists rows;
    (split; [exact Hsub|]); (split; [exact Hrows|]);
    world_simpl; observe_simpl; congruence.
Qed.

Lemma for_each_embeds (gmail userId : string)
    (batches : list (list string)) (w : World E) :
  exists rowss,
    Forall2 (fun rows batch => map fst rows ⊆+ batch) rowss batches
    /\ Forall (Forall (first_annotation C userId)) rowss
    /\ observe is_embed_call
         (trace (for_each batches
                   (fun batch => processBatch C gmail batch userId) w).2)
       = observe is_embed_call (trace w)
         ++ map (embed_event userId) (concat rowss).
Proof.
  revert w. induction batches as [|batch batches IH]; intros w.
  - exists []. split; [constructor|]. split; [apply List.Forall_nil|].
    simpl. rewrite app_nil_r. reflexivity.
  - cbn [for_each]. unfold bind.
    pose proof (processBatch_returns C gmail batch userId w) as Hret.
    destruct (processBatch_embeds gmail batch userId w)
      as (rows1 & Hsub1 & Hrows1 & Hobs1).
    destruct (processBatch C gmail batch userId w) as [r w1].
    cbn [fst snd] in Hret, Hobs1. subst r.
    destruct (IH w1) as (rowss & Hsub2 & Hrows2 & Hobs2).
    exists (rows1 :: rowss). split; [|split].
    + constructor; [apply sublist_submseteq, Hsub1 | exact Hsub2].
    + apply List.Forall_cons; assumption.
    + rewrite Hobs2, Hobs1. cbn [concat]. rewrite map_app, app_assoc.
      reflexivity.
Qed.

(** A thread whose annotations are answered with a first row is handed
    over with that row. *)
Lemma embedOrLog_hands_over (userId threadId : string) (w : World E)
    q s' row rest :
  select_annotations C threadId userId (ext w) = (inr q, s') ->
  error q = None ->
  data q = Some (row :: rest) ->
  embed_event userId (threadId, row)
    ∈ trace (embedOrLog C userId threadId w).2.
Proof.
  intros Hsel Herr Hdata.
  unfold embedOrLog, processThread, try_catch, bind, call, throw.
  rewrite Hsel. simpl. rewrite Herr, Hdata. simpl.
  destruct (embed_thread C userId threadId (created_at row)
              (recipients row) s') as [[err|[]] e'']; simpl;
    rewrite ?elem_of_app;
    [left; left; right | right]; apply list_elem_of_here.
Qed.

Lemma embedThreads_hands_over (batch : list string) (userId : string)
    (w : World E) t row :
  t ∈ batch ->
  (forall s, exists q s' rest,
      select_annotations C t userId s = (inr q, s')
      /\ error q = None /\ data q = Some (row :: rest)) ->
  embed_event userId (t, row) ∈ trace (embedThreads C batch userId w).2.
Proof.
  intros Hin Hsel. revert w.
  induction batch as [|t0 batch IH]; intros w; [inversion Hin|].
  unfold embedThreads. cbn [map].
  destruct (embedOrLog_embeds userId t0 w) as (Hret & _).
  rewrite promise_all_cons_world by (rewrite Hret; discriminate).
  apply elem_of_cons in Hin as [<-|Hin].
  - destruct (Hsel (ext w)) as (q & s' & rest & Hq & Herr & Hdata).
    pose proof (embedOrLog_hands_over userId t w q s' row rest Hq Herr Hdata)
      as Hhere.
    pose proof (stable_embedThreads_fine C grows batch userId
                  (tolerant_grows embedding_calls)
                  (embedOrLog C userId t w).2) as [k Hk].
    unfold embedThreads in Hk. rewrite Hk.
    apply elem_of_app. left. exact Hhere.
  - apply (IH Hin).
Qed.

(** X8. Over a whole run of [processThreads], the threads are handed to
    the embeddings service slice after slice: for every slice, in the
    order of the slices, each occurrence of a thread of the slice is
    handed over at most once, for the user of the run, and with the first
    row that the annotations query answered for this thread and this
    user. Nothing is said of the order inside a slice, where the
    embedding steps of the threads run side by side. The embedding step
    of a slice hands over every thread of the slice for which the
    annotations query answers with a first row. *)
Theorem processThreads_embeds_each_thread_once (gmail : string)
    (threadIds : list string) (userId : string) (w : World E) :
  (exists rowss,
     Forall2 (fun rows batch => map fst rows ⊆+ batch) rowss
       (slices threadIds)
     /\ Forall (Forall (first_annotation C userId)) rowss
     /\ observe is_embed_call
          (trace (processThreads C gmail threadIds userId w).2)
        = observe is_embed_call (trace w)
          ++ map (embed_event userId) (concat rowss))
  /\ (forall batch (w0 : World E) t row,
        t ∈ batch ->
        (forall s, exists q s' rest,
            select_annotations C t userId s = (inr q, s')
            /\ error q = None /\ data q = Some (row :: rest)) ->
        embed_event userId (t, row)
          ∈ trace (embedThreads C batch userId w0).2).
Proof.
  split.
  - assert (length threadIds <= 0 + length threadIds * BATCH_SIZE)%nat
      as Hfuel by (unfold BATCH_SIZE; lia).
    unfold processThreads. rewrite processThreads_from_slices by exact Hfuel.
    apply for_each_embeds.
  - intros batch w0 t row. apply embedThreads_hands_over.
Qed.

(** Each thread of the list is handed to the annotation step, once and in
    order, whatever the step answers. *)
Lemma for_each_annotates (gmail userId : string) (batch : list string)
    (w : World E) :
  (for_each batch (annotateOrLog C gmail userId) w).1 = Returned tt
  /\ observe is_annotate_thread
       (trace (for_each batch (annotateOrLog C gmail userId) w).2)
     = observe is_annotate_thread (trace w)
       ++ map (fun t => EvAnnotateThread t userId) batch.
Proof.
  revert w. induction batch as [|t batch IH]; intros w; cbn [for_each map].
  - rewrite app_nil_r. split; reflexivity.
  - unfold bind, annotateOrLog at 1 3, try_catch, call.
    destruct (annotate_thread C gmail t userId (ext w)) as [[err|[]] e'];
      cbn [log fst snd];
      match goal with
      | |- context [for_each batch _ ?w1] =>
          destruct (IH w1) as (Hret & Hobs)
      end;
      (split; [exact Hret|]); rewrite Hobs; world_simpl; observe_simpl;
      rewrite <- app_assoc; reflexivity.
Qed.

(** [autoAnnotate] annotates every thread it is given, or, when its
    first query fails, none. *)
Lemma autoAnnotate_annotates (gmail : string) (batch : list string)
    (userId : string) (w : World E) :
  observe is_annotate_thread (trace (autoAnnotate C gmail batch userId w).2)
  = observe is_annotate_thread (trace w)
    ++ map (fun t => EvAnnotateThread t userId)
         (match (autoAnnotate C gmail batch userId w).1 with
          | Returned _ => batch
          | _ => []
          end).
Proof.
  destruct (autoAnnotate C gmail batch userId w) as [o wf] eqn:Hrun.
  cbn [fst snd]. revert Hrun.
  unfold autoAnnotate, try_catch, bind at 1, call.
  destruct (select_user_annotations C userId (ext w)) as [[err|[]] e'].
  - intros [= <- <-]. simpl. observe_simpl. rewrite app_nil_r. reflexivity.
  - match goal with
    | |- context [for_each batch _ ?w1] =>
        destruct (for_each_annotates gmail userId batch w1) as (Hret & Hobs);
        destruct (for_each batch (annotateOrLog C gmail userId) w1)
          as [r w2]
    end.
    cbn [fst snd] in Hret, Hobs. subst r. intros [= <- <-]. rewrite Hobs.
    world_simpl. observe_simpl. reflexivity.
Qed.

(** A slice is annotated as a whole or not at all. *)
Lemma processBatch_annotates (gmail : string) (batch : list string)
    (userId : string) (w : World E) :
  exists done,
    done `sublist_of` [batch]
    /\ observe is_annotate_thread
         (trace (processBatch C gmail batch userId w).2)
       = observe is_annotate_thread (trace w)
         ++ map (fun t => EvAnnotateThread t userId) (concat done).
Proof.
  assert (forall w' : World E,
             observe is_annotate_thread (trace w')
             = observe is_annotate_thread (trace w) ->
             exists done,
               done `sublist_of` [batch]
               /\ observe is_annotate_thread (trace w')
                  = observe is_annotate_thread (trace w)
                    ++ map (fun t => EvAnnotateThread t userId)
                         (concat done)) as Hnone.
  { intros w' Hq. exists []. split; [apply sublist_nil_l|].
    rewrite Hq. simpl. rewrite app_nil_r. reflexivity. }
  pose proof (stable_fetchThreadsData C (quiet is_annotate_thread) gmail
                batch
                (tolerant_quiet is_annotate_thread fetch_calls
                   ltac:(event_cases)) w) as Hq1.
  destruct (processBatch C gmail batch userId w) as [o wf] eqn:Hrun.
  cbn [snd]. revert Hrun. unfold processBatch, try_catch, bind at 1.
  destruct (fetchThreadsData C gmail batch w) as [[l|e|] w1];
    cbn [snd] in Hq1; unfold quiet in Hq1.
  2:{ cbn [log]. intros [= _ <-]. apply Hnone. world_simpl. observe_simpl.
      exact Hq1. }
  2:{ intros [= _ <-]. apply Hnone, Hq1. }
  cbv zeta. destruct (length (extractMessageIds l) =? 0)%nat.
  { intros [= _ <-]. apply Hnone, Hq1. }
  pose proof (stable_batchGetMessages_fine C (quiet is_annotate_thread) gmail
                (extractMessageIds l)
                (tolerant_quiet is_annotate_thread message_calls
                   ltac:(event_cases)) w1) as Hq2.
  unfold bind at 1.
  destruct (batchGetMessages C gmail (extractMessageIds l) w1)
    as [[m|e|] w2]; cbn [snd] in Hq2; unfold quiet in Hq2.
  2:{ cbn [log]. intros [= _ <-]. apply Hnone. world_simpl. observe_simpl.
      congruence. }
  2:{ intros [= _ <-]. apply Hnone. congruence. }
  pose proof (autoAnnotate_annotates gmail batch userId w2) as Ha.
  unfold bind at 1.
  destruct (autoAnnotate C gmail batch userId w2) as [[[]|e|] w3];
    cbn [fst snd] in Ha.
  2:{ cbn [log]. intros [= _ <-]. apply Hnone. world_simpl. observe_simpl.
      rewrite Ha. simpl. rewrite app_nil_r. congruence. }
  2:{ intros [= _ <-]. apply Hnone. rewrite Ha. simpl. rewrite app_nil_r.
      congruence. }
  pose proof (stable_embedThreads_fine C (quiet is_annotate_thread) batch
                userId
                (tolerant_quiet is_annotate_thread embedding_calls
                   ltac:(event_cases)) w3) as Hq4.
  unfold bind at 1.
  destruct (embedThreads C batch userId w3) as [[u|e|] w4];
    cbn [snd] in Hq4; unfold quiet in Hq4; cbn [ret log];
    intros [= _ <-]; exists [batch];
    (split; [reflexivity|]); world_simpl; observe_simpl;
    cbn [concat]; rewrite app_nil_r; congruence.
Qed.

(** X9. Annotation goes by whole slices: over a run of [processThreads],
    the threads handed to the annotation step are those of some of the
    slices, slice after slice in order, each such slice in full; the
    threads of the other slices are not annotated at all. *)
Theorem processThreads_annotates_whole_slices (gmail : string)
    (threadIds : list string) (userId : string) (w : World E) :
  exists done,
    done `sublist_of` slices threadIds
    /\ observe is_annotate_thread
         (trace (processThreads C gmail threadIds userId w).2)
       = observe is_annotate_thread (trace w)
         ++ map (fun t => EvAnnotateThread t userId) (concat done).
Proof.
  assert (length threadIds <= 0 + length threadIds * BATCH_SIZE)%nat as Hfuel
      by (unfold BATCH_SIZE; lia).
  unfold processThreads. rewrite processThreads_from_slices by exact Hfuel.
  unfold slices. generalize (slices_from (length threadIds) threadIds 0).
  intros batches. revert w.
  induction batches as [|batch batches IH]; intros w.
  - exists []. split; [reflexivity|]. simpl. rewrite app_nil_r. reflexivity.
  - cbn [for_each]. unfold bind.
    pose proof (processBatch_returns C gmail batch userId w) as Hret.
    destruct (processBatch_annotates gmail batch userId w)
      as (done1 & Hsub1 & Hobs1).
    destruct (processBatch C gmail batch userId w) as [r w1].
    cbn [fst snd] in Hret, Hobs1. subst r.
    destruct (IH w1) as (done2 & Hsub2 & Hobs2).
    exists (done1 ++ done2). split.
    + apply (sublist_app _ [batch] _ batches); assumption.
    + rewrite Hobs2, Hobs1, concat_app, map_app, app_assoc. reflexivity.
Qed.

End Handling.

(** * Properties of the embeddings service *)

Section EmbeddingsProperties.
Import Embeddings.
#[local] Open Scope effects_scope.
Context {S : Type} (C : Services S).
Context (render : Patterns -> list AnnotationRow -> string -> string).
Context (formatDate : string -> string).

Lemma requests_app (l1 l2 : list Event) :
  requests (l1 ++ l2) = requests l1 ++ requests l2.
Proof. apply omap_app. Qed.

Lemma answers_app (l1 l2 : list Event) :
  answers (l1 ++ l2) = answers l1 ++ answers l2.
Proof. apply omap_app. Qed.

Lemma pauses_app (l1 l2 : list Event) :
  pauses (l1 ++ l2) = pauses l1 ++ pauses l2.
Proof. apply omap_app. Qed.

Lemma throttled_app (l1 l2 : list Event) :
  throttled (l1 ++ l2) = throttled l1 ++ throttled l2.
Proof. apply omap_app. Qed.

Lemma upserts_app (l1 l2 : list Event) :
  upserts (l1 ++ l2) = upserts l1 ++ upserts l2.
Proof. apply omap_app. Qed.

Lemma lines_app (l1 l2 : list Event) :
  lines (l1 ++ l2) = lines l1 ++ lines l2.
Proof. apply omap_app. Qed.

(** What the events of an extraction are not. *)
Lemma extraction_upserts (new : list Event) :
  forallb of_extraction new = true -> upserts new = [].
Proof.
  induction new as [|ev new IH]; [reflexivity|].
  cbn [forallb]. intros [Hev Hnew]%andb_true_iff.
  destruct ev as [[]| | | | |]; try discriminate; apply IH, Hnew.
Qed.

Lemma extraction_alive (new : list Event) :
  forallb of_extraction new = true ->
  forallb (fun ev => negb (of_dead_handler ev)) new = true.
Proof.
  induction new as [|ev new IH]; [reflexivity|].
  cbn [forallb]. intros [Hev Hnew]%andb_true_iff.
  apply andb_true_iff. split; [|apply IH, Hnew].
  destruct ev as [[]| | | | |]; try discriminate; reflexivity.
Qed.

(** The retry loop settles: it sends the message between one and three
    times, pauses before each repetition, repeats only after a
    rate-limit answer, and merges what the model answered. *)
Lemma retry_loop_spec (fuel : nat) (message : AnnotationRow)
    (retryCount : nat) (lastError : option Err) (patterns : Patterns)
    (w : World S) :
  (MAX_RETRIES <= retryCount + fuel)%nat ->
  exists retryCount' lastError' w' new c,
    retry_loop C fuel message retryCount lastError patterns w
    = (Returned (retryCount', lastError',
                 fold_left merge (answers new) patterns), w')
    /\ trace w' = trace w ++ new
    /\ requests new = replicate c message
    /\ (c <= MAX_RETRIES - retryCount)%nat
    /\ ((retryCount < MAX_RETRIES)%nat -> (1 <= c)%nat)
    /\ pauses new = map backoff_base (seq (Datatypes.S retryCount) (c - 1))
    /\ (c - 1 <= length (throttled new))%nat
    /\ forallb of_extraction new = true.
Proof.
  revert retryCount lastError w.
  induction fuel as [|fuel IH]; intros retryCount lastError w Hfuel;
    cbn [retry_loop];
    destruct (Nat.ltb_spec retryCount MAX_RETRIES) as [Hlt|Hge];
    try (unfold MAX_RETRIES in *; lia);
    try (exists retryCount, lastError, w, [], 0%nat;
         rewrite app_nil_r; repeat split; simpl; lia).
  unfold bind at 1, try_catch, bind at 1, call.
  destruct (extractPatterns C message (ext w)) as [[err|[sp|]] s'].
  - destruct (is_rate_limit err) eqn:Hrate.
    + cbv zeta.
      destruct (Nat.ltb_spec (Datatypes.S retryCount) MAX_RETRIES)
        as [Hlt'|Hge'].
      * cbn [bind log sleep ret record trace ext].
        match goal with
        | |- context [retry_loop C fuel message _ _ patterns ?w1] =>
            destruct (IH (Datatypes.S retryCount) (Some err) w1)
              as (rc' & le' & w' & new & c & Hrun & Htr & Hreq & Hc & Hc1
                  & Hp & Ht & Hex);
            [lia|]
        end.
        specialize (Hc1 Hlt').
        exists rc', le', w',
          ([EvExtractPatterns message (inl err);
            EvLog (WarnRateLimit (Datatypes.S retryCount) MAX_RETRIES);
            EvSleep (backoff_base (Datatypes.S retryCount))] ++ new),
          (Datatypes.S c).
        split; [rewrite answers_app; exact Hrun|]. split.
        { rewrite Htr. cbn [record trace]. rewrite <- !app_assoc.
          reflexivity. }
        split; [rewrite requests_app, Hreq; reflexivity|].
        split; [lia|]. split; [lia|]. split.
        { rewrite pauses_app, Hp. destruct c as [|c]; [lia|].
          simpl. rewrite !Nat.sub_0_r. reflexivity. }
        split; [|exact Hex].
        rewrite throttled_app, length_app. simpl. rewrite Hrate. simpl. lia.
      * cbn [bind log ret record trace ext].
        eexists _, _, _, [EvExtractPatterns message (inl err); EvLog _],
          1%nat.
        split; [reflexivity|]. cbn [record trace]. rewrite <- app_assoc.
        repeat split; simpl; lia.
    + cbn [bind log ret record trace ext].
      eexists _, _, _, [EvExtractPatterns message (inl err); EvLog _],
        1%nat.
      split; [reflexivity|]. cbn [record trace]. rewrite <- app_assoc.
      repeat split; simpl; lia.
  - cbn [ret]. eexists _, _, _, [EvExtractPatterns message (inr (Some sp))],
      1%nat.
    split; [reflexivity|]. repeat split; simpl; lia.
  - cbn [ret]. eexists _, _, _, [EvExtractPatterns message (inr None)],
      1%nat.
    split; [reflexivity|]. repeat split; simpl; lia.
Qed.

Lemma extractOne_spec (message : AnnotationRow) (patterns : Patterns)
    (w : World S) :
  exists w' new c,
    extractOne C message patterns w
    = (Returned (fold_left merge (answers new) patterns), w')
    /\ trace w' = trace w ++ new
    /\ requests new = replicate c message
    /\ (1 <= c <= MAX_RETRIES)%nat
    /\ pauses new = map backoff_base (seq 1 (c - 1))
    /\ (c - 1 <= length (throttled new))%nat
    /\ forallb of_extraction new = true.
Proof.
  destruct (retry_loop_spec MAX_RETRIES message 0 None patterns w)
    as (rc & le & w1 & new & c & Hrun & Htr & Hreq & Hc & Hc' & Hp & Ht
        & Hex);
    [lia|].
  specialize (Hc' ltac:(unfold MAX_RETRIES; lia)).
  unfold extractOne, bind at 1. rewrite Hrun. cbn [fst snd].
  destruct (rc =? MAX_RETRIES)%nat.
  - exists (record (EvLog (ErrorAfterRetries MAX_RETRIES le)) w1),
      (new ++ [EvLog (ErrorAfterRetries MAX_RETRIES le)]), c.
    rewrite answers_app, requests_app, pauses_app, throttled_app,
      forallb_app.
    cbn [answers requests pauses throttled omap forallb of_extraction].
    rewrite !app_nil_r, Hex. split; [reflexivity|].
    cbn [record trace]. rewrite Htr, <- app_assoc.
    repeat split; try assumption; lia.
  - exists w1, new, c. split; [reflexivity|].
    repeat split; try assumption; lia.
Qed.

Lemma extractAll_spec (messages : list AnnotationRow) (patterns : Patterns)
    (w : World S) :
  exists w' new counts,
    extractAll C messages patterns w
    = (Returned (fold_left merge (answers new) patterns), w')
    /\ trace w' = trace w ++ new
    /\ Forall2 (fun _ c => (1 <= c <= MAX_RETRIES)%nat) messages counts
    /\ requests new = attempts messages counts
    /\ pauses new
       = flat_map (fun c => map backoff_base (seq 1 (c - 1))) counts
    /\ (length (requests new)
        <= length messages + length (throttled new))%nat
    /\ forallb of_extraction new = true.
Proof.
  revert patterns w.
  induction messages as [|m messages IH]; intros patterns w.
  - exists w, [], []. rewrite app_nil_r. repeat split; try constructor.
  - destruct (extractOne_spec m patterns w)
      as (w1 & new1 & c & Hrun1 & Htr1 & Hreq1 & Hc & Hp1 & Ht1 & Hex1).
    destruct (IH (fold_left merge (answers new1) patterns) w1)
      as (w2 & new2 & counts & Hrun2 & Htr2 & Hall & Hreq2 & Hp2 & Ht2
          & Hex2).
    exists w2, (new1 ++ new2), (c :: counts).
    cbn [extractAll]. unfold bind at 1. rewrite Hrun1, Hrun2.
    rewrite answers_app, fold_left_app, requests_app, pauses_app,
      throttled_app, forallb_app, Hex1, Hex2.
    split; [reflexivity|].
    split; [rewrite Htr2, Htr1, app_assoc; reflexivity|].
    split; [constructor; assumption|].
    unfold attempts in *. cbn [zip_with concat flat_map].
    rewrite Hreq1, Hp1, Hp2. split; [rewrite Hreq2; reflexivity|].
    split; [reflexivity|]. split; [|reflexivity].
    rewrite !length_app, length_replicate. cbn [length]. lia.
Qed.

(** The bounds on the requests that follow from the attempts. *)
Lemma attempts_length (messages : list AnnotationRow) (counts : list nat) :
  Forall2 (fun _ c => (1 <= c <= MAX_RETRIES)%nat) messages counts ->
  (length messages <= length (attempts messages counts)
   <= MAX_RETRIES * length messages)%nat.
Proof.
  intros Hall. unfold attempts.
  induction Hall as [|m c ms counts Hc Hall IH];
    cbn [zip_with concat length]; [lia|].
  rewrite length_app, length_replicate. lia.
Qed.

(** [extractStylePatterns], for callers. *)
Lemma extractStylePatterns_spec (messages : list AnnotationRow)
    (w : World S) :
  exists w' new counts,
    extractStylePatterns C messages w
    = (Returned (if (length messages =? 0)%nat then empty_patterns
                 else to_result
                        (fold_left merge (answers new) empty_patterns)),
       w')
    /\ trace w' = trace w ++ new
    /\ Forall2 (fun _ c => (1 <= c <= MAX_RETRIES)%nat) messages counts
    /\ requests new = attempts messages counts
    /\ pauses new
       = flat_map (fun c => map backoff_base (seq 1 (c - 1))) counts
    /\ (length (requests new)
        <= length messages + length (throttled new))%nat
    /\ forallb of_extraction new = true.
Proof.
  unfold extractStylePatterns.
  destruct messages as [|m messages].
  - exists w, [], []. rewrite app_nil_r. cbn [length Nat.eqb].
    repeat split; try constructor.
  - cbn [length Nat.eqb].
    destruct (extractAll_spec (m :: messages) empty_patterns w)
      as (w' & new & counts & Hrun & Hrest).
    exists w', new, counts. unfold bind. rewrite Hrun.
    split; [reflexivity | exact Hrest].
Qed.

(** X10. [extractStylePatterns] never rejects and always settles. It
    sends every message to the language model at least once and at most
    three times, message after message, and returns the merge of the
    patterns the model answered with, completed by the defaults; for an
    empty list of messages it asks nothing and returns the empty
    patterns, whose scalar fields are empty. *)
Theorem extractStylePatterns_settles (messages : list AnnotationRow)
    (w : World S) :
  exists w' new counts,
    extractStylePatterns C messages w
    = (Returned (if (length messages =? 0)%nat then empty_patterns
                 else to_result
                        (fold_left merge (answers new) empty_patterns)),
       w')
    /\ trace w' = trace w ++ new
    /\ Forall2 (fun _ c => (1 <= c <= MAX_RETRIES)%nat) messages counts
    /\ requests new
       = concat (zip_with (fun m c => replicate c m) messages counts)
    /\ (length messages <= length (requests new)
        <= MAX_RETRIES * length messages)%nat.
Proof.
  destruct (extractStylePatterns_spec messages w)
    as (w' & new & counts & Hrun & Htr & Hall & Hreq & _).
  exists w', new, counts.
  split; [exact Hrun|]. split; [exact Htr|]. split; [exact Hall|].
  split; [exact Hreq|]. rewrite Hreq. apply attempts_length, Hall.
Qed.

(** X11. A message is sent again only after a rate-limit answer, and
    after a pause: over a run of [extractStylePatterns] the repeated
    requests are as many as the pauses and no more than the rate-limit
    answers; the pauses before the second and the third attempt have the
    base delays 8 s and 16 s. *)
Theorem extractStylePatterns_retries_on_rate_limit
    (messages : list AnnotationRow) (w : World S) :
  exists new counts,
    trace (extractStylePatterns C messages w).2 = trace w ++ new
    /\ requests new = attempts messages counts
    /\ pauses new
       = flat_map (fun c => map backoff_base (seq 1 (c - 1))) counts
    /\ Forall (fun base => base = 8000 \/ base = 16000) (pauses new)
    /\ length (requests new)
       = (length messages + length (pauses new))%nat
    /\ (length (pauses new) <= length (throttled new))%nat.
Proof.
  destruct (extractStylePatterns_spec messages w)
    as (w' & new & counts & Hrun & Htr & Hall & Hreq & Hp & Ht & _).
  exists new, counts. rewrite Hrun. cbn [snd].
  split; [exact Htr|]. split; [exact Hreq|]. split; [exact Hp|].
  assert (Forall (fun base => base = 8000 \/ base = 16000) (pauses new)
          /\ length (attempts messages counts)
             = (length messages + length (pauses new))%nat) as [H1 H2].
  { rewrite Hp. clear -Hall. unfold attempts.
    induction Hall as [|m c ms counts Hc Hall [IH1 IH2]];
      cbn [zip_with concat flat_map length]; [split; [constructor|lia]|].
    split.
    - apply Forall_app. split; [|exact IH1].
      assert (c = 1 \/ c = 2 \/ c = 3)%nat as [->|[->| ->]]
          by (unfold MAX_RETRIES in Hc; lia);
        cbn [Nat.sub seq map].
      + constructor.
      + constructor; [left; reflexivity | constructor].
      + constructor; [left; reflexivity|].
        constructor; [right; reflexivity | constructor].
    - rewrite !length_app, length_replicate, length_map, length_seq, IH2.
      lia. }
  split; [exact H1|]. rewrite Hreq. split; [exact H2|].
  rewrite Hreq in Ht. lia.
Qed.

(** One turn of the retry loop on a rate-limit answer. *)
Lemma retry_loop_throttled (fuel : nat) (message : AnnotationRow)
    (retryCount : nat) (lastError : option Err) (patterns : Patterns)
    (w : World S) err s' :
  extractPatterns C message (ext w) = (inl err, s') ->
  is_rate_limit err = true ->
  (retryCount < MAX_RETRIES)%nat ->
  retry_loop C (Datatypes.S fuel) message retryCount lastError patterns w
  = let w1 := mkWorld s' (trace w ++ [EvExtractPatterns message (inl err)]) in
    if (Datatypes.S retryCount <? MAX_RETRIES)%nat then
      retry_loop C fuel message (Datatypes.S retryCount) (Some err) patterns
        (record (EvSleep (backoff_base (Datatypes.S retryCount)))
           (record (EvLog (WarnRateLimit (Datatypes.S retryCount)
                             MAX_RETRIES)) w1))
    else
      (Returned (Datatypes.S retryCount, Some err, patterns),
       record (EvLog (ErrorStylePatterns err)) w1).
Proof.
  intros Hcall Hrate Hlt. cbn [retry_loop].
  destruct (Nat.ltb_spec retryCount MAX_RETRIES) as [_|Hge]; [|lia].
  unfold bind at 1, try_catch, bind at 1, call. rewrite Hcall, Hrate.
  cbv zeta.
  destruct (Datatypes.S retryCount <? MAX_RETRIES)%nat; reflexivity.
Qed.

(** When every answer is a rate-limit error, a message costs three
    requests and two pauses, leaves the patterns as they are, and is
    reported twice. *)
Lemma extractOne_throttled (message : AnnotationRow) (patterns : Patterns)
    (w : World S) :
  (forall m s, exists err s',
      extractPatterns C m s = (inl err, s') /\ is_rate_limit err = true) ->
  exists w' new,
    extractOne C message patterns w = (Returned patterns, w')
    /\ trace w' = trace w ++ new
    /\ requests new = replicate 3 message
    /\ pauses new = [8000; 16000]
    /\ length (errors new) = 2%nat.
Proof.
  intros Hall. unfold extractOne, MAX_RETRIES.
  destruct (Hall message (ext w)) as (e1 & s1 & Hc1 & Hr1).
  unfold bind at 1.
  rewrite (retry_loop_throttled _ _ _ _ _ _ _ _ Hc1 Hr1)
    by (unfold MAX_RETRIES; lia).
  cbv zeta. cbn [Nat.ltb Nat.leb MAX_RETRIES].
  match goal with
  | |- context [retry_loop C 2 message 1 _ patterns ?w1] =>
      destruct (Hall message (ext w1)) as (e2 & s2 & Hc2 & Hr2);
      rewrite (retry_loop_throttled _ _ _ _ _ w1 _ _ Hc2 Hr2)
        by (unfold MAX_RETRIES; lia)
  end.
  cbv zeta. cbn [Nat.ltb Nat.leb MAX_RETRIES].
  match goal with
  | |- context [retry_loop C 1 message 2 _ patterns ?w1] =>
      destruct (Hall message (ext w1)) as (e3 & s3 & Hc3 & Hr3);
      rewrite (retry_loop_throttled _ _ _ _ _ w1 _ _ Hc3 Hr3)
        by (unfold MAX_RETRIES; lia)
  end.
  cbv zeta. cbn [Nat.ltb Nat.leb MAX_RETRIES fst snd Nat.eqb].
  eexists _,
    [EvExtractPatterns message (inl e1); EvLog (WarnRateLimit 1 3);
     EvSleep (backoff_base 1);
     EvExtractPatterns message (inl e2); EvLog (WarnRateLimit 2 3);
     EvSleep (backoff_base 2);
     EvExtractPatterns message (inl e3); EvLog (ErrorStylePatterns e3);
     EvLog (ErrorAfterRetries 3 (Some e3))].
  split; [reflexivity|].
  split; [cbn [record trace ext]; rewrite <- !app_assoc; reflexivity|].
  repeat split.
Qed.

(** X13. Under a persistent rate limit (every answer of the language
    model is a rate-limit error), [extractStylePatterns] still returns:
    every message costs three requests and two pauses, with base delays
    8 s and 16 s, and is reported by two error lines; the result holds
    nothing but the defaults. *)
Theorem extractStylePatterns_under_rate_limit
    (messages : list AnnotationRow) (w : World S) :
  (forall m s, exists err s',
      extractPatterns C m s = (inl err, s') /\ is_rate_limit err = true) ->
  exists w' new,
    extractStylePatterns C messages w
    = (Returned (if (length messages =? 0)%nat then empty_patterns
                 else to_result empty_patterns), w')
    /\ trace w' = trace w ++ new
    /\ requests new = flat_map (replicate 3) messages
    /\ pauses new = flat_map (fun _ => [8000; 16000]) messages
    /\ length (errors new) = (2 * length messages)%nat.
Proof.
  intros Hall.
  assert (forall patterns w0,
             exists w' new,
               extractAll C messages patterns w0 = (Returned patterns, w')
               /\ trace w' = trace w0 ++ new
               /\ requests new = flat_map (replicate 3) messages
               /\ pauses new = flat_map (fun _ => [8000; 16000]) messages
               /\ length (errors new) = (2 * length messages)%nat) as Hrun.
  { induction messages as [|m ms IH]; intros patterns w0.
    - exists w0, []. rewrite app_nil_r. repeat split.
    - destruct (extractOne_throttled m patterns w0 Hall)
        as (w1 & new1 & Hrun1 & Htr1 & Hreq1 & Hp1 & He1).
      destruct (IH patterns w1) as (w2 & new2 & Hrun2 & Htr2 & Hreq2 & Hp2
                                    & He2).
      exists w2, (new1 ++ new2). cbn [extractAll]. unfold bind at 1.
      rewrite Hrun1, Hrun2. split; [reflexivity|].
      split; [rewrite Htr2, Htr1, app_assoc; reflexivity|].
      rewrite requests_app, pauses_app. unfold errors.
      rewrite omap_app, length_app. fold (errors new1). fold (errors new2).
      rewrite Hreq1, Hreq2, Hp1, Hp2, He1, He2. cbn [flat_map length].
      repeat split. lia. }
  unfold extractStylePatterns. destruct messages as [|m ms].
  - exists w, []. rewrite app_nil_r. repeat split.
  - cbn [length Nat.eqb]. destruct (Hrun empty_patterns w)
      as (w' & new & Hrun' & Hrest).
    exists w', new. unfold bind. rewrite Hrun'. split; [reflexivity|].
    exact Hrest.
Qed.

(** [getThreadAnnotations] with both identifiers present: the database is
    asked once; a rejection propagates, an answer that carries an error
    is logged and read as no rows. *)
Lemma getThreadAnnotations_spec (thread user : string) (w : World S) :
  thread <> "" -> user <> "" ->
  match select_annotations C thread user (ext w) with
  | (inl err, s') =>
      getThreadAnnotations C (JsString thread) (JsString user) w
      = (Thrown err,
         mkWorld s' (trace w ++ [EvSelectAnnotations thread user]))
  | (inr r, s') =>
      exists pre,
        getThreadAnnotations C (JsString thread) (JsString user) w
        = (Returned (rows_of r),
           mkWorld s' (trace w ++ EvSelectAnnotations thread user :: pre))
        /\ (pre = []
            \/ exists e, pre = [EvLog (ErrorGetThreadAnnotations e)])
  end.
Proof.
  intros Ht Hu.
  assert (getThreadAnnotations C (JsString thread) (JsString user) w
          = (let! r := call (fun _ => EvSelectAnnotations thread user)
                         (select_annotations C thread user) in
             match error r with
             | Some e => do! log (ErrorGetThreadAnnotations e) in ret []
             | None => ret (default [] (data r))
             end) w) as ->.
  { unfold getThreadAnnotations. cbn [truthy].
    apply String.eqb_neq in Ht, Hu. rewrite Ht, Hu. reflexivity. }
  destruct (select_annotations C thread user (ext w)) as [[err|r] s']
    eqn:Hsel; unfold bind at 1, call; rewrite Hsel; [reflexivity|].
  unfold rows_of. destruct (error r) as [e|].
  - exists [EvLog (ErrorGetThreadAnnotations e)].
    unfold bind, log, ret, record. cbn [trace ext]. rewrite <- app_assoc.
    split; [reflexivity|]. right. exists e. reflexivity.
  - exists []. split; [reflexivity|]. left. reflexivity.
Qed.

(** The [catch] of [createThreadContext] is never reached. *)
Lemma createThreadContext_spec (messages : list AnnotationRow)
    (recipient : string) (w : World S) :
  exists w' new counts text,
    createThreadContext C render messages recipient w = (Returned text, w')
    /\ (messages = [] -> text = render empty_patterns [] recipient)
    /\ trace w' = trace w ++ new
    /\ Forall2 (fun _ c => (1 <= c <= MAX_RETRIES)%nat) messages counts
    /\ requests new = attempts messages counts
    /\ forallb of_extraction new = true
    /\ (messages = [] -> w' = w).
Proof.
  destruct (extractStylePatterns_spec messages w)
    as (w' & new & counts & Hrun & Htr & Hall & Hreq & _ & _ & Hex).
  exists w', new, counts. unfold createThreadContext, try_catch, bind.
  rewrite Hrun. eexists. split; [reflexivity|].
  split; [intros ->; reflexivity|].
  split; [exact Htr|]. split; [exact Hall|]. split; [exact Hreq|].
  split; [exact Hex|].
  intros ->. revert Hrun. unfold extractStylePatterns. cbn [length Nat.eqb].
  intros [= <-]. reflexivity.
Qed.

(** What follows the two extractions in [processThread]: the embedding
    of the context and the upsert of the row; whatever fails is logged. *)
Lemma processThread_tail (thread : string) (row : string -> EmbeddingRow)
    (text : string) (w : World S) :
  exists w' new,
    try_catch
      (let! threadEmbedding :=
         call (fun _ => EvEmbedQuery text) (embedQuery C text) in
       let! error :=
         call (fun _ => EvUpsert (row threadEmbedding))
           (upsert C (row threadEmbedding)) in
       match error with
       | Some e => log (ErrorUpdatingThreadEmbedding e)
       | None => ret tt
       end)
      (fun e => log (ErrorFailedToProcessThread thread e)) w
    = (Returned tt, w')
    /\ trace w' = trace w ++ new
    /\ requests new = []
    /\ forallb (fun ev => negb (of_dead_handler ev)) new = true
    /\ match embedQuery C text (ext w) with
       | (inr emb, _) => upserts new = [row emb]
       | _ => upserts new = []
       end.
Proof.
  unfold try_catch, bind at 1, call.
  destruct (embedQuery C text (ext w)) as [[err|emb] s1].
  - eexists _, [EvEmbedQuery text; EvLog _]. split; [reflexivity|].
    split; [unfold record; cbn [trace ext]; rewrite <- ?app_assoc;
            reflexivity|].
    repeat split.
  - unfold bind at 1. cbn [ext trace].
    destruct (upsert C (row emb) s1) as [[err|[e|]] s2].
    + eexists _, [EvEmbedQuery text; EvUpsert (row emb); EvLog _].
      split; [reflexivity|].
      split; [unfold record; cbn [trace ext]; rewrite <- ?app_assoc;
              reflexivity|].
      repeat split.
    + eexists _, [EvEmbedQuery text; EvUpsert (row emb); EvLog _].
      split; [reflexivity|].
      split; [unfold record; cbn [trace ext]; rewrite <- ?app_assoc;
              reflexivity|].
      repeat split.
    + eexists _, [EvEmbedQuery text; EvUpsert (row emb)].
      split; [reflexivity|].
      split; [unfold ret; cbn [trace ext]; rewrite <- ?app_assoc;
              reflexivity|].
      repeat split.
Qed.

(** [processThread] once both identifiers are present. *)
Lemma processThread_spec (thread user d recipient : string) (w : World S) :
  thread <> "" -> user <> "" ->
  let rows :=
    match select_annotations C thread user (ext w) with
    | (inr r, _) => rows_of r
    | _ => []
    end in
  exists w' new counts1 counts2,
    processThread C render formatDate (JsString user)
      (Some {| threadId := JsString thread; date := d |}) recipient w
    = (Returned tt, w')
    /\ trace w' = trace w ++ new
    /\ Forall2 (fun _ c => (1 <= c <= MAX_RETRIES)%nat) rows counts1
    /\ Forall2 (fun _ c => (1 <= c <= MAX_RETRIES)%nat) rows counts2
    /\ requests new = attempts rows counts1 ++ attempts rows counts2
    /\ forallb (fun ev => negb (of_dead_handler ev)) new = true
    /\ (length (upserts new) <= 1)%nat
    /\ Forall (fun row =>
                 thread_id row = thread /\ user_id row = user
                 /\ recipient_id row = recipient
                 /\ message_count row = length rows
                 /\ last_message_date row = formatDate d)
         (upserts new).
Proof.
  intros Ht Hu rows. unfold processThread. cbn [threadId date truthy].
  pose proof Ht as Ht'. pose proof Hu as Hu'.
  apply String.eqb_neq in Ht', Hu'. rewrite Ht', Hu'. cbn [negb orb].
  pose proof (getThreadAnnotations_spec thread user w Ht Hu) as Hget.
  unfold try_catch at 1, bind at 1. subst rows.
  destruct (select_annotations C thread user (ext w)) as [[err|r] s1].
  - rewrite Hget.
    eexists _, [EvSelectAnnotations thread user; EvLog _], [], [].
    split; [reflexivity|].
    split; [unfold log, record; cbn [trace ext]; rewrite <- ?app_assoc;
            reflexivity|].
    repeat split; try constructor. simpl. lia.
  - destruct Hget as (pre & Hget & Hpre). rewrite Hget.
    set (w1 := mkWorld s1 (trace w ++ EvSelectAnnotations thread user :: pre)).
    destruct (createThreadContext_spec (rows_of r) recipient w1)
      as (w2 & new1 & counts1 & text & Hctx & _ & Htr1 & Hall1 & Hreq1 & Hex1
          & _).
    unfold bind at 1. rewrite Hctx.
    destruct (extractStylePatterns_spec (rows_of r) w2)
      as (w3 & new2 & counts2 & Hsty & Htr2 & Hall2 & Hreq2 & _ & _ & Hex2).
    set (sp := if (length (rows_of r) =? 0)%nat then empty_patterns
               else to_result
                      (fold_left merge (answers new2) empty_patterns))
      in Hsty.
    unfold bind at 1. rewrite Hsty.
    destruct (processThread_tail thread
                (fun emb =>
                   {| thread_id := thread; user_id := user;
                      recipient_id := recipient; embedding := emb;
                      context := text;
                      message_count := length (rows_of r);
                      last_message_date := formatDate d;
                      style_patterns := sp |}) text w3)
      as (w4 & new3 & Htail & Htr3 & Hreq3 & Halive3 & Hup3).
    exists w4, (EvSelectAnnotations thread user :: pre ++ new1 ++ new2 ++ new3),
      counts1, counts2.
    split; [exact Htail|].
    split.
    { rewrite Htr3, Htr2, Htr1. unfold w1. cbn [trace].
      rewrite <- !app_assoc. reflexivity. }
    split; [exact Hall1|]. split; [exact Hall2|].
    assert (requests pre = [] /\ upserts pre = []
            /\ forallb (fun ev => negb (of_dead_handler ev)) pre = true)
      as (Hreq0 & Hup0 & Halive0).
    { destruct Hpre as [->|(e & ->)]; repeat split. }
    assert (upserts (EvSelectAnnotations thread user
                     :: pre ++ new1 ++ new2 ++ new3) = upserts new3) as Hup.
    { change (EvSelectAnnotations thread user :: pre ++ new1 ++ new2 ++ new3)
        with ([EvSelectAnnotations thread user]
              ++ pre ++ new1 ++ new2 ++ new3).
      rewrite !upserts_app, Hup0, (extraction_upserts _ Hex1),
        (extraction_upserts _ Hex2). reflexivity. }
    split.
    { change (EvSelectAnnotations thread user :: pre ++ new1 ++ new2 ++ new3)
        with ([EvSelectAnnotations thread user]
              ++ pre ++ new1 ++ new2 ++ new3).
      rewrite !requests_app, Hreq0, Hreq1, Hreq2, Hreq3, app_nil_r.
      reflexivity. }
    split.
    { cbn [forallb of_dead_handler negb andb].
      rewrite !forallb_app, Halive0, (extraction_alive _ Hex1),
        (extraction_alive _ Hex2), Halive3. reflexivity. }
    rewrite Hup.
    destruct (embedQuery C text (ext w3)) as [[err|emb] s4];
      rewrite Hup3; cbn [length]; split; try lia; repeat constructor.
Qed.

(** X14. [EmbeddingsService.processThread] never rejects: whatever the
    database, the language model or the embedding model answer, it
    returns. Without a thread identifier or a user it only logs a line
    and calls no service. It writes at most one row, and the handlers of
    [getThreadAnnotations] for missing identifiers and of
    [createThreadContext] are never reached from it. *)
Theorem processThread_never_rejects (userId : JsStr)
    (message : option ThreadRef) (recipient : string) (w : World S) :
  exists w' new,
    processThread C render formatDate userId message recipient w
    = (Returned tt, w')
    /\ trace w' = trace w ++ new
    /\ forallb (fun ev => negb (of_dead_handler ev)) new = true
    /\ (length (upserts new) <= 1)%nat
    /\ (match message with
        | Some m => truthy (threadId m)
        | None => false
        end && truthy userId = false ->
        new = [EvLog ErrorMissingThreadInformation] /\ ext w' = ext w).
Proof.
  assert (exists w' new,
             log ErrorMissingThreadInformation w = (Returned tt, w')
             /\ trace w' = trace w ++ new
             /\ forallb (fun ev => negb (of_dead_handler ev)) new = true
             /\ (length (upserts new) <= 1)%nat
             /\ new = [EvLog ErrorMissingThreadInformation]
             /\ ext w' = ext w) as Hguard.
  { eexists _, [EvLog ErrorMissingThreadInformation].
    split; [reflexivity|]. repeat split. simpl. lia. }
  assert (forall run : Run S unit,
             run = log ErrorMissingThreadInformation ->
             exists w' new,
               run w = (Returned tt, w')
               /\ trace w' = trace w ++ new
               /\ forallb (fun ev => negb (of_dead_handler ev)) new = true
               /\ (length (upserts new) <= 1)%nat
               /\ (match message with
                   | Some m => truthy (threadId m)
                   | None => false
                   end && truthy userId = false ->
                   new = [EvLog ErrorMissingThreadInformation]
                   /\ ext w' = ext w)) as Hmissing.
  { intros run ->.
    destruct Hguard as (w' & new & H1 & H2 & H3 & H4 & H5 & H6).
    exists w', new. repeat split; assumption. }
  destruct message as [[[| |thread] d]|]; destruct userId as [| |user];
    try (apply Hmissing; reflexivity).
  destruct (String.eqb_spec thread "") as [->|Ht];
    [apply Hmissing; reflexivity|].
  destruct (String.eqb_spec user "") as [->|Hu].
  { apply Hmissing. unfold processThread. cbn [threadId truthy].
    destruct (negb (negb (String.eqb thread ""))); reflexivity. }
  destruct (processThread_spec thread user d recipient w Ht Hu)
    as (w' & new & c1 & c2 & Hrun & Htr & _ & _ & _ & Halive & Hup & _).
  exists w', new. split; [exact Hrun|]. split; [exact Htr|].
  split; [exact Halive|]. split; [exact Hup|].
  cbn [threadId truthy]. apply String.eqb_neq in Ht, Hu.
  rewrite Ht, Hu. discriminate.
Qed.

(** X15. [processThread] runs the style extraction twice, once for the
    context and once for the stored patterns: every annotation row of
    the thread is sent to the language model at least twice and at most
    six times. A row that is written carries the thread, the user and
    the number of rows read. *)
Theorem processThread_extracts_twice (thread user d recipient : string)
    (w : World S) r s1 :
  thread <> "" -> user <> "" ->
  select_annotations C thread user (ext w) = (inr r, s1) ->
  exists new counts1 counts2,
    trace (processThread C render formatDate (JsString user)
             (Some {| threadId := JsString thread; date := d |})
             recipient w).2
    = trace w ++ new
    /\ Forall2 (fun _ c => (1 <= c <= MAX_RETRIES)%nat) (rows_of r) counts1
    /\ Forall2 (fun _ c => (1 <= c <= MAX_RETRIES)%nat) (rows_of r) counts2
    /\ requests new
       = attempts (rows_of r) counts1 ++ attempts (rows_of r) counts2
    /\ (2 * length (rows_of r) <= length (requests new)
        <= 6 * length (rows_of r))%nat
    /\ Forall (fun row =>
                 thread_id row = thread /\ user_id row = user
                 /\ message_count row = length (rows_of r))
         (upserts new).
Proof.
  intros Ht Hu Hsel.
  destruct (processThread_spec thread user d recipient w Ht Hu)
    as (w' & new & c1 & c2 & Hrun & Htr & Hall1 & Hall2 & Hreq & _ & _
        & Hrows).
  rewrite Hsel in Hall1, Hall2, Hreq, Hrows.
  exists new, c1, c2. rewrite Hrun. cbn [snd].
  split; [exact Htr|]. split; [exact Hall1|]. split; [exact Hall2|].
  split; [exact Hreq|]. split.
  - rewrite Hreq, length_app.
    pose proof (attempts_length _ _ Hall1).
    pose proof (attempts_length _ _ Hall2).
    unfold MAX_RETRIES in *. lia.
  - eapply Forall_impl; [exact Hrows|].
    intros row (H1 & H2 & _ & H3 & _). repeat split; assumption.
Qed.

(** X16. A thread whose annotations cannot be read, or that has none, is
    embedded all the same: the language model is not asked, the context
    rendered from the empty patterns and no message is embedded, and the
    row written for the thread records no message and the empty
    patterns. *)
Theorem processThread_without_annotations (thread user d recipient : string)
    (w : World S) r s1 emb s2 :
  thread <> "" -> user <> "" ->
  select_annotations C thread user (ext w) = (inr r, s1) ->
  rows_of r = [] ->
  embedQuery C (render empty_patterns [] recipient) s1 = (inr emb, s2) ->
  exists new,
    trace (processThread C render formatDate (JsString user)
             (Some {| threadId := JsString thread; date := d |})
             recipient w).2
    = trace w ++ new
    /\ requests new = []
    /\ upserts new
       = [ {| thread_id := thread; user_id := user;
              recipient_id := recipient; embedding := emb;
              context := render empty_patterns [] recipient;
              message_count := 0;
              last_message_date := formatDate d;
              style_patterns := empty_patterns |} ].
Proof.
  intros Ht Hu Hsel Hrows Hemb.
  pose proof (getThreadAnnotations_spec thread user w Ht Hu) as Hget.
  rewrite Hsel, Hrows in Hget. destruct Hget as (pre & Hget & Hpre).
  set (w1 := mkWorld s1 (trace w ++ EvSelectAnnotations thread user :: pre))
    in Hget.
  destruct (processThread_tail thread
              (fun emb =>
                 {| thread_id := thread; user_id := user;
                    recipient_id := recipient; embedding := emb;
                    context := render empty_patterns [] recipient;
                    message_count := 0;
                    last_message_date := formatDate d;
                    style_patterns := empty_patterns |})
              (render empty_patterns [] recipient) w1)
    as (w4 & new3 & Htail & Htr3 & Hreq3 & _ & Hup3).
  cbn [w1 ext] in Hup3. rewrite Hemb in Hup3.
  assert (processThread C render formatDate (JsString user)
            (Some {| threadId := JsString thread; date := d |}) recipient w
          = (Returned tt, w4)) as Hrun.
  { unfold processThread. cbn [threadId date truthy].
    apply String.eqb_neq in Ht, Hu. rewrite Ht, Hu. cbn [negb orb].
    unfold try_catch at 1, bind at 1. rewrite Hget. exact Htail. }
  rewrite Hrun. cbn [snd].
  exists (EvSelectAnnotations thread user :: pre ++ new3).
  split; [rewrite Htr3; unfold w1; cbn [trace]; rewrite <- app_assoc;
          reflexivity|].
  change (EvSelectAnnotations thread user :: pre ++ new3)
    with ([EvSelectAnnotations thread user] ++ pre ++ new3).
  rewrite !requests_app, !upserts_app, Hreq3, Hup3.
  destruct Hpre as [->|(e & ->)]; split; reflexivity.
Qed.

End EmbeddingsProperties.

(** ** What the merge of the answers holds *)

Section Merging.
Import Embeddings.

Lemma add_all_spec (xs : option (list string)) (s : list string) :
  NoDup s ->
  NoDup (add_all xs s)
  /\ forall x, x ∈ add_all xs s <-> x ∈ s \/ exists l, xs = Some l /\ x ∈ l.
Proof.
  intros Hs. destruct xs as [l|]; cbn [add_all].
  - revert s Hs. induction l as [|y l IH]; intros s Hs; cbn [fold_left].
    + split; [exact Hs|]. intros x. split; [tauto|].
      intros [H|(l & [= <-] & H)]; [exact H | inversion H].
    + destruct (IH (set_add y s) (NoDup_set_add y s Hs)) as [Hnd Hin].
      split; [exact Hnd|]. intros x. rewrite Hin, elem_of_set_add.
      split.
      * intros [[->|H]|(l0 & [= <-] & H)].
        -- right. exists (y :: l). split; [reflexivity|]. left.
        -- left. exact H.
        -- right. exists (y :: l). split; [reflexivity|]. right. exact H.
      * intros [H|(l0 & [= <-] & H)]; [left; right; exact H|].
        apply elem_of_cons in H as [->|H]; [left; left; reflexivity|].
        right. exists l. split; [reflexivity | exact H].
  - split; [exact Hs|]. intros x. split; [tauto|].
    intros [H|(l & [=] & _)]. exact H.
Qed.

Lemma set_fields_collect : Forall collects set_fields.
Proof.
  unfold set_fields.
  repeat first [apply List.Forall_cons | apply List.Forall_nil];
    (split; [reflexivity|]; split; [reflexivity|]);
    intros p sp; cbn [fst snd merge acc_greetings acc_signoffs
                      acc_commonPhrases acc_sentenceStructures acc_secondary
                      acc_markers acc_formality_markers acc_specializedTerms
                      acc_preferences];
    try reflexivity.
  - destruct (emotionalMarkers sp); reflexivity.
  - destruct (emotionalMarkers sp); reflexivity.
  - destruct (formalityIndicators sp); reflexivity.
  - destruct (vocabularyProfile sp); reflexivity.
  - destruct (vocabularyProfile sp); reflexivity.
Qed.

Lemma collected (f : (Patterns -> list string)
                     * (StylePatterns -> option (list string)))
    (sps : list StylePatterns) (p : Patterns) :
  collects f -> NoDup (f.1 p) ->
  NoDup (f.1 (fold_left merge sps p))
  /\ forall x,
       x ∈ f.1 (fold_left merge sps p)
       <-> x ∈ f.1 p \/ exists sp l, sp ∈ sps /\ f.2 sp = Some l /\ x ∈ l.
Proof.
  intros (_ & _ & Hmerge). revert p.
  induction sps as [|sp sps IH]; intros p Hp; cbn [fold_left].
  - split; [exact Hp|]. intros x. split; [tauto|].
    intros [H|(sp & l & H & _)]; [exact H | inversion H].
  - destruct (add_all_spec (f.2 sp) (f.1 p) Hp) as [Hnd Hin].
    rewrite <- Hmerge in Hnd, Hin.
    destruct (IH (merge p sp) Hnd) as [Hnd' Hin'].
    split; [exact Hnd'|]. intros x. rewrite Hin', Hin. split.
    + intros [[H|(l & Hl & H)]|(sp' & l & Hsp & Hl & H)].
      * left. exact H.
      * right. exists sp, l. split; [left|split; assumption].
      * right. exists sp', l. split; [right; exact Hsp|split; assumption].
    + intros [H|(sp' & l & Hsp & Hl & H)]; [left; left; exact H|].
      apply elem_of_cons in Hsp as [->|Hsp].
      * left. right. exists l. split; assumption.
      * right. exists sp', l. repeat split; assumption.
Qed.

(** A scalar field that is set keeps its value. *)
Lemma take_unless_set_settled (sentinel current : string)
    (xs : list JsStr) :
  current <> "" -> current <> sentinel ->
  fold_left (take_unless_set sentinel) xs current = current.
Proof.
  intros H1 H2. induction xs as [|x xs IH]; [reflexivity|].
  cbn [fold_left]. unfold take_unless_set at 2.
  apply String.eqb_neq in H1, H2. destruct x as [| |s];
    rewrite ?H1, ?H2, ?andb_false_r; exact IH.
Qed.

Lemma take_unless_set_first (sentinel current : string) (xs : list JsStr) :
  current = "" \/ current = sentinel ->
  or_default (fold_left (take_unless_set sentinel) xs current) sentinel
  = default sentinel (first_set sentinel xs).
Proof.
  revert current. induction xs as [|x xs IH]; intros current Hcur.
  - cbn [fold_left first_set default]. unfold or_default.
    destruct Hcur as [->| ->]; [reflexivity|].
    destruct (String.eqb sentinel ""); reflexivity.
  - cbn [fold_left first_set].
    assert (String.eqb current "" || String.eqb current sentinel = true)
      as Hopen.
    { destruct Hcur as [->| ->]; [reflexivity|].
      rewrite String.eqb_refl. apply orb_true_r. }
    destruct x as [| |s]; cbn [take_unless_set truthy];
      try (apply IH, Hcur).
    rewrite Hopen, andb_true_r.
    destruct (String.eqb_spec s "") as [->|Hne]; cbn [negb andb].
    + apply IH, Hcur.
    + destruct (String.eqb_spec s sentinel) as [->|Hns]; cbn [negb].
      * apply IH. right. reflexivity.
      * rewrite take_unless_set_settled by assumption.
        unfold or_default. apply String.eqb_neq in Hne. rewrite Hne.
        reflexivity.
Qed.

Lemma first_set_not_empty (sentinel : string) (xs : list JsStr) (s : string) :
  first_set sentinel xs = Some s -> s <> "".
Proof.
  induction xs as [|x xs IH]; [discriminate|].
  cbn [first_set]. destruct x as [| |t]; try exact IH.
  destruct (String.eqb_spec t "") as [->|Hne]; cbn [negb andb];
    [exact IH|].
  destruct (negb (String.eqb t sentinel)); [|exact IH].
  intros [= <-]. exact Hne.
Qed.

Lemma fold_merge_primary (sps : list StylePatterns) (p : Patterns) :
  acc_primary (fold_left merge sps p)
  = fold_left (take_unless_set "neutral")
      (map primary (omap emotionalMarkers sps)) (acc_primary p).
Proof.
  revert p. induction sps as [|sp sps IH]; intros p; [reflexivity|].
  cbn [fold_left]. rewrite IH. cbn [merge acc_primary].
  change (omap emotionalMarkers (sp :: sps))
    with (match emotionalMarkers sp with
          | Some m => m :: omap emotionalMarkers sps
          | None => omap emotionalMarkers sps
          end).
  destruct (emotionalMarkers sp); reflexivity.
Qed.

Lemma fold_merge_level (sps : list StylePatterns) (p : Patterns) :
  acc_level (fold_left merge sps p)
  = fold_left (take_unless_set "neutral")
      (map level (omap formalityIndicators sps)) (acc_level p).
Proof.
  revert p. induction sps as [|sp sps IH]; intros p; [reflexivity|].
  cbn [fold_left]. rewrite IH. cbn [merge acc_level].
  change (omap formalityIndicators (sp :: sps))
    with (match formalityIndicators sp with
          | Some m => m :: omap formalityIndicators sps
          | None => omap formalityIndicators sps
          end).
  destruct (formalityIndicators sp); reflexivity.
Qed.

Lemma fold_merge_complexity (sps : list StylePatterns) (p : Patterns) :
  acc_complexity (fold_left merge sps p)
  = fold_left (take_unless_set "unknown")
      (map complexity (omap vocabularyProfile sps)) (acc_complexity p).
Proof.
  revert p. induction sps as [|sp sps IH]; intros p; [reflexivity|].
  cbn [fold_left]. rewrite IH. cbn [merge acc_complexity].
  change (omap vocabularyProfile (sp :: sps))
    with (match vocabularyProfile sp with
          | Some m => m :: omap vocabularyProfile sps
          | None => omap vocabularyProfile sps
          end).
  destruct (vocabularyProfile sp); reflexivity.
Qed.

(** X12. What [extractStylePatterns] makes of the answers it merges.
    Each set of the result holds, without repetition, exactly the
    entries of the corresponding arrays of the answers. The primary
    emotion and the formality level are the first value answered that is
    neither empty nor [neutral], and [neutral] when there is none; the
    vocabulary complexity likewise with [unknown]. So none of the three
    is ever empty in the result of a merge. *)
Theorem merged_patterns (sps : list StylePatterns) :
  let result := to_result (fold_left merge sps empty_patterns) in
  Forall (fun f =>
            NoDup (f.1 result)
            /\ forall x,
                 x ∈ f.1 result
                 <-> exists sp l, sp ∈ sps /\ f.2 sp = Some l /\ x ∈ l)
    set_fields
  /\ acc_primary result
     = default "neutral"
         (first_set "neutral" (map primary (omap emotionalMarkers sps)))
  /\ acc_level result
     = default "neutral"
         (first_set "neutral" (map level (omap formalityIndicators sps)))
  /\ acc_complexity result
     = default "unknown"
         (first_set "unknown" (map complexity (omap vocabularyProfile sps)))
  /\ acc_primary result <> ""
  /\ acc_level result <> ""
  /\ acc_complexity result <> "".
Proof.
  intros result.
  assert (forall sentinel xs,
             sentinel <> "" ->
             default sentinel (first_set sentinel xs) <> "") as Hne.
  { intros sentinel xs Hs.
    destruct (first_set sentinel xs) as [s|] eqn:Hfirst; [|exact Hs].
    apply (first_set_not_empty _ _ _ Hfirst). }
  assert (acc_primary result
          = default "neutral"
              (first_set "neutral" (map primary (omap emotionalMarkers sps))))
    as H1.
  { unfold result. cbn [to_result acc_primary]. rewrite fold_merge_primary.
    apply take_unless_set_first. left. reflexivity. }
  assert (acc_level result
          = default "neutral"
              (first_set "neutral" (map level (omap formalityIndicators sps))))
    as H2.
  { unfold result. cbn [to_result acc_level]. rewrite fold_merge_level.
    apply take_unless_set_first. left. reflexivity. }
  assert (acc_complexity result
          = default "unknown"
              (first_set "unknown"
                 (map complexity (omap vocabularyProfile sps)))) as H3.
  { unfold result. cbn [to_result acc_complexity].
    rewrite fold_merge_complexity.
    apply take_unless_set_first. left. reflexivity. }
  split.
  { eapply Forall_impl; [exact set_fields_collect|].
    intros f Hf. pose proof Hf as (Hempty & Hresult & _).
    unfold result. rewrite Hresult.
    destruct (collected f sps empty_patterns Hf) as [Hnd Hin].
    { rewrite Hempty. apply NoDup_nil_2. }
    split; [exact Hnd|]. intros x. rewrite Hin, Hempty. split.
    - intros [H|H]; [inversion H | exact H].
    - intros H. right. exact H. }
  split; [exact H1|]. split; [exact H2|]. split; [exact H3|].
  rewrite H1, H2, H3. repeat split; apply Hne; discriminate.
Qed.

End Merging.

(** * Properties of the annotation service *)

(** ** Rules for [meets] *)

Section EffectsLogic.
Import Effects.
Context {S Ev : Type}.

Lemma meets_ret {A} (P : Ev -> Prop) (Q : A -> Prop) (a : A) :
  Q a -> meets P Q (@ret S Ev A a).
Proof.
  intros HQ w. exists []. rewrite app_nil_r.
  split; [reflexivity|]. split; [constructor | exact HQ].
Qed.

Lemma meets_throw {A} (P : Ev -> Prop) (Q : A -> Prop) (e : Err) :
  meets P Q (@throw S Ev A e).
Proof.
  intros w. exists []. rewrite app_nil_r.
  split; [reflexivity|]. split; [constructor | exact I].
Qed.

Lemma meets_bind {A B} (P : Ev -> Prop) (Q1 : A -> Prop) (Q2 : B -> Prop)
    (m : Run S Ev A) (k : A -> Run S Ev B) :
  meets P Q1 m -> (forall a, Q1 a -> meets P Q2 (k a)) ->
  meets P Q2 (bind m k).
Proof.
  intros Hm Hk w. destruct (Hm w) as (new1 & Htr1 & HP1 & HQ1).
  unfold bind. destruct (m w) as [[a|e|] w1]; cbn [fst snd] in *.
  - destruct (Hk a HQ1 w1) as (new2 & Htr2 & HP2 & HQ2).
    exists (new1 ++ new2). rewrite Htr2, Htr1, app_assoc.
    split; [reflexivity|]. split; [apply Forall_app; split; assumption|].
    exact HQ2.
  - exists new1. repeat split; assumption.
  - contradiction.
Qed.

Lemma meets_bind_any {A B} (P : Ev -> Prop) (Q : B -> Prop)
    (m : Run S Ev A) (k : A -> Run S Ev B) :
  meets P (fun _ => True) m -> (forall a, meets P Q (k a)) ->
  meets P Q (bind m k).
Proof. intros Hm Hk. apply (meets_bind P (fun _ => True)); auto. Qed.

Lemma meets_try_catch {A} (P : Ev -> Prop) (Q Q' : A -> Prop)
    (m : Run S Ev A) (h : Err -> Run S Ev A) :
  meets P Q m -> (forall a, Q a -> Q' a) -> (forall e, meets P Q' (h e)) ->
  meets P Q' (try_catch m h).
Proof.
  intros Hm HQ Hh w. destruct (Hm w) as (new1 & Htr1 & HP1 & HQ1).
  unfold try_catch. destruct (m w) as [[a|e|] w1]; cbn [fst snd] in *.
  - exists new1. repeat split; auto.
  - destruct (Hh e w1) as (new2 & Htr2 & HP2 & HQ2).
    exists (new1 ++ new2). rewrite Htr2, Htr1, app_assoc.
    split; [reflexivity|]. split; [apply Forall_app; split; assumption|].
    exact HQ2.
  - contradiction.
Qed.

Lemma meets_call {A} (P : Ev -> Prop) (Q : A -> Prop)
    (ev : Err + A -> Ev) (f : S -> (Err + A) * S) :
  (forall r, P (ev r)) ->
  (forall s a s', f s = (inr a, s') -> Q a) ->
  meets P Q (call ev f).
Proof.
  intros HP HQ w. unfold call.
  destruct (f (ext w)) as [[err|a] s'] eqn:Hf; cbn [fst snd trace].
  - exists [ev (inl err)]. repeat split. repeat constructor. apply HP.
  - exists [ev (inr a)]. split; [reflexivity|].
    split; [repeat constructor; apply HP|]. eapply HQ, Hf.
Qed.

Lemma meets_weaken {A} (P P' : Ev -> Prop) (Q Q' : A -> Prop)
    (m : Run S Ev A) :
  (forall ev, P ev -> P' ev) -> (forall a, Q a -> Q' a) ->
  meets P Q m -> meets P' Q' m.
Proof.
  intros HP HQ Hm w. destruct (Hm w) as (new & Htr & Hall & Hout).
  exists new. split; [exact Htr|].
  split; [eapply Forall_impl; [exact Hall | exact HP]|].
  destruct (m w).1; auto.
Qed.

Lemma meets_for_each {A} (P : Ev -> Prop) (xs : list A)
    (f : A -> Run S Ev unit) :
  (forall x, meets P (fun _ => True) (f x)) ->
  meets P (fun _ => True) (for_each xs f).
Proof.
  intros Hf. induction xs as [|x xs IH]; cbn [for_each].
  - apply meets_ret. exact I.
  - apply meets_bind_any; [apply Hf | intros _; exact IH].
Qed.

End EffectsLogic.

Section AgentsProperties.
Import Agents.
#[local] Open Scope effects_scope.
Context {S : Type} (C : Services S).
Context (convert : string -> string).
Context (annotatePrompt : bool).

Lemma meets_log (P : Event -> Prop) (Q : unit -> Prop) (l : LogLine) :
  P (EvLog l) -> Q tt -> meets P Q (@log S l).
Proof.
  intros HP HQ w. exists [EvLog l]. split; [reflexivity|].
  split; [repeat constructor; exact HP | exact HQ].
Qed.

Lemma meets_remote {A} (P : Event -> Prop) (Q : A -> Prop) (ev : Event)
    (f : S -> (Err + A) * S) :
  P ev -> (forall s a s', f s = (inr a, s') -> Q a) ->
  meets P Q (remote ev f).
Proof.
  intros HP HQ. unfold remote. apply meets_call; [intros _; exact HP|].
  intros [s results] a [s' results']. cbn [fst snd].
  destruct (f s) as [r s0] eqn:Hf. intros [= -> -> _]. eapply HQ, Hf.
Qed.

Lemma meets_push (P : Event -> Prop) (x : option string) :
  meets P (fun _ => True) (@push S x).
Proof.
  intros w. exists []. cbn [push snd fst trace]. rewrite app_nil_r.
  split; [reflexivity|]. split; [constructor | exact I].
Qed.

(** One step through the structure of a computation, for properties of
    the events alone. *)
Ltac meets_step :=
  lazymatch goal with
  | |- meets _ _ (ret _) => apply meets_ret; try exact I
  | |- meets _ _ (throw _) => apply meets_throw
  | |- meets _ _ (bind _ _) => apply meets_bind_any
  | |- meets _ _ (try_catch _ _) =>
      eapply meets_try_catch; [|intros ? H; exact H|]
  | |- meets _ _ (log _) => apply meets_log; try exact I
  | |- meets _ _ (remote _ _) =>
      apply meets_remote; [try exact I | try (intros; exact I)]
  | |- meets _ _ (push _) => apply meets_push
  | |- meets _ _ (for_each _ _) => apply meets_for_each
  | |- meets _ _ (match ?x with _ => _ end) => destruct x eqn:?
  end.

Ltac meets_auto :=
  repeat first [progress intros | progress cbv zeta | meets_step].

Lemma known_or_unknown_spec (v : JsStr) (options : list string) :
  known_or_unknown v options = "UNKNOWN"
  \/ known_or_unknown v options ∈ options.
Proof.
  unfold known_or_unknown. destruct v as [| |s]; try (left; reflexivity).
  case_bool_decide as Hin; [right; exact Hin | left; reflexivity].
Qed.

Lemma validated_valid (P : Event -> Prop) (enum_type : string) (v : JsStr)
    (options : option (list string)) :
  (forall l, options = Some l -> answered C enum_type l) ->
  meets P (valid C enum_type) (@validated S v options).
Proof.
  intros Hopt. unfold validated. destruct (truthy v).
  - destruct options as [l|]; [|apply meets_throw].
    apply meets_ret.
    destruct (known_or_unknown_spec v l) as [H|H]; [left; exact H|].
    right. exists l. split; [apply Hopt; reflexivity | exact H].
  - apply meets_ret. left. reflexivity.
Qed.

Lemma get_types_answered (P : Event -> Prop) (enum_type : string) :
  P (EvGetTypes enum_type) ->
  meets P (fun options => forall l, options = Some l ->
                                    answered C enum_type l)
    (remote (EvGetTypes enum_type) (get_types C enum_type)).
Proof.
  intros HP. apply meets_remote; [exact HP|].
  intros s a s' Hs l ->. exists s, s'. exact Hs.
Qed.

Lemma saveRecipient_valid (sender : Sender) (userId : string) :
  meets (writes_valid C) (fun _ => True) (saveRecipient C sender userId).
Proof.
  unfold saveRecipient.
  eapply meets_bind; [apply get_types_answered; exact I|].
  intros [relationships|] Hrel; [|apply meets_throw]. cbv zeta.
  apply meets_bind_any.
  - apply meets_remote; [|intros; exact I]. cbn [writes_valid
      rcp_relationship].
    destruct (known_or_unknown_spec (relationship sender) relationships)
      as [H|H]; [left; exact H|].
    right. exists relationships. split; [apply Hrel; reflexivity | exact H].
  - intros r. meets_auto.
Qed.

Lemma saveAnnotation_valid (email : MessageData)
    (recipient : option Recipient) (annotation : option Annotation)
    (userId : string) :
  meets (writes_valid C) (fun _ => True)
    (saveAnnotation C convert email recipient annotation userId).
Proof.
  unfold saveAnnotation. destruct annotation as [a|]; [|meets_auto].
  eapply meets_bind; [apply get_types_answered; exact I|].
  intros toneOptions Htone.
  eapply meets_bind; [apply get_types_answered; exact I|].
  intros purposeOptions Hpurpose.
  eapply meets_bind; [apply get_types_answered; exact I|].
  intros sentimentOptions Hsentiment.
  eapply meets_bind; [apply validated_valid, Htone|]. intros t Ht.
  eapply meets_bind; [apply validated_valid, Hpurpose|]. intros p Hp.
  eapply meets_bind; [apply validated_valid, Hsentiment|]. intros s Hs.
  destruct recipient as [rc|]; [|apply meets_throw]. cbv zeta.
  apply meets_bind_any.
  - apply meets_remote; [|intros; exact I].
    cbn [writes_valid row_tone row_purpose row_sentiment].
    repeat split; assumption.
  - intros r. meets_auto.
Qed.

Lemma annotateThread_valid (annotations : option (list string))
    (gmail userId threadId : string) :
  meets (writes_valid C) (fun _ => True)
    (annotateThread C convert annotatePrompt annotations gmail userId
       threadId).
Proof.
  unfold annotateThread, annotateMessage. meets_auto.
  - apply saveRecipient_valid.
  - apply saveAnnotation_valid.
Qed.

(** X17. Whatever the language model answers, the enumerated fields
    that [autoAnnotate] writes are valid: the relationship of every
    recipient row, and the tone, purpose and sentiment of every
    annotation row, are [UNKNOWN] or one of the values that the database
    answered for the enumeration. *)
Theorem autoAnnotate_writes_valid_enums (gmail : string)
    (threadIds : list string) (userId : string) (w : World S) :
  exists new,
    trace (autoAnnotate C convert annotatePrompt gmail threadIds userId w).2
    = trace w ++ new
    /\ Forall (writes_valid C) new
    /\ (autoAnnotate C convert annotatePrompt gmail threadIds userId w).1
       <> OutOfFuel.
Proof.
  assert (meets (writes_valid C) (fun _ => True)
            (try_catch
               (let! annotations :=
                  remote (EvSelectAnnotations userId)
                    (select_annotations C userId) in
                do! for_each threadIds
                      (annotateThread C convert annotatePrompt annotations
                         gmail userId) in
                fun w' : World S => (Returned (ext w').2, w'))
               (fun e => do! log (ErrorFailedToProcessThreads e) in throw e)))
    as Hrun.
  { meets_auto. - apply annotateThread_valid.
    - intros w'. exists []. rewrite app_nil_r. repeat split. constructor. }
  destruct (Hrun (mkWorld ((ext w).1, []) (trace w)))
    as (new & Htr & Hall & Hout).
  exists new. unfold autoAnnotate. split; [exact Htr|].
  split; [exact Hall|]. intros Hfuel. rewrite Hfuel in Hout. exact Hout.
Qed.

(** *** Which messages are annotated *)

Lemma saveRecipient_no_annotation (P : Event -> Prop) (sender : Sender)
    (userId : string) :
  (forall ev, no_annotation_write ev -> P ev) ->
  meets P (fun _ => True) (saveRecipient C sender userId).
Proof.
  intros HP. apply (meets_weaken no_annotation_write P (fun _ => True));
    [exact HP | auto |].
  unfold saveRecipient. meets_auto.
Qed.

Lemma saveAnnotation_writes_for (email : MessageData)
    (recipient : option Recipient) (annotation : option Annotation)
    (userId : string) :
  meets (writes_for email userId) (fun _ => True)
    (saveAnnotation C convert email recipient annotation userId).
Proof.
  unfold saveAnnotation, validated. meets_auto. repeat split.
Qed.

Lemma annotateMessage_skips (annotations : option (list string))
    (gmail userId : string) (message : JsStr) :
  meets (writes_new annotations) (fun _ => True)
    (annotateMessage C convert annotatePrompt annotations gmail userId
       message).
Proof.
  unfold annotateMessage. apply meets_bind_any; [meets_auto|].
  intros messageData.
  destruct (already_annotated annotations (id messageData)) eqn:Hnew;
    cbn [negb]; [meets_auto|].
  destruct annotatePrompt; [|meets_auto].
  apply meets_bind_any; [meets_auto|]. intros response.
  destruct (response ≫= annotation) as [a|]; [|meets_auto].
  destruct (response ≫= sender) as [info|]; [|meets_auto].
  cbv zeta. apply meets_bind_any.
  - apply saveRecipient_no_annotation. intros [] H; try exact I.
    contradiction.
  - intros recipient. apply meets_bind_any; [|meets_auto].
    eapply meets_weaken; [| |apply saveAnnotation_writes_for]; [|auto].
    intros [] H; try exact I. cbn [writes_new writes_for] in *.
    destruct H as (-> & _). exact Hnew.
Qed.

Lemma annotateMessage_idle (annotations : option (list string))
    (gmail userId : string) (message : JsStr) :
  annotatePrompt = false ->
  meets idle_event (fun _ => True)
    (annotateMessage C convert annotatePrompt annotations gmail userId
       message).
Proof. intros ->. unfold annotateMessage. meets_auto. Qed.

(** A [try] block that starts with a remote call. *)
Lemma try_catch_remote {A B} (ev : Event) (f : S -> (Err + A) * S)
    (k : A -> Run S B) (h : Err -> Run S B) (w : World S) :
  try_catch (bind (remote ev f) k) h w
  = match f (ext w).1 with
    | (inl err, s') => h err (mkWorld (s', (ext w).2) (trace w ++ [ev]))
    | (inr a, s') =>
        try_catch (k a) h (mkWorld (s', (ext w).2) (trace w ++ [ev]))
    end.
Proof.
  unfold try_catch at 1, bind, remote, call.
  destruct (f (ext w).1) as [[err|a] s']; reflexivity.
Qed.

(** A thread is requested once, and its failures stay inside. *)
Lemma annotateThread_spec (annotations : option (list string))
    (gmail userId threadId : string) (w : World S) :
  exists rest,
    annotateThread C convert annotatePrompt annotations gmail userId
      threadId w
    = (Returned tt,
       (annotateThread C convert annotatePrompt annotations gmail userId
          threadId w).2)
    /\ trace (annotateThread C convert annotatePrompt annotations gmail
               userId threadId w).2
       = trace w ++ EvThreadsGet threadId :: rest
    /\ Forall inside_thread rest.
Proof.
  unfold annotateThread. rewrite try_catch_remote.
  destruct (threads_get C gmail threadId (ext w).1) as [[err|messages] s'].
  - exists [EvLog (ErrorFetchingThread threadId err)].
    split; [reflexivity|]. cbn [log record trace snd].
    rewrite <- app_assoc. split; [reflexivity|]. repeat constructor.
  - set (w1 := mkWorld (s', (ext w).2) (trace w ++ [EvThreadsGet threadId])).
    assert (meets inside_thread (fun _ => True)
              (try_catch
                 match messages with
                 | Some (m :: ms) =>
                     for_each (m :: ms)
                       (annotateMessage C convert annotatePrompt annotations
                          gmail userId)
                 | _ => ret tt
                 end
                 (fun e => log (ErrorFetchingThread threadId e)))) as Hin.
    { unfold annotateMessage, saveRecipient, saveAnnotation, validated.
      meets_auto. }
    destruct (Hin w1) as (rest & Htr & Hall & Hout).
    exists rest. split.
    + unfold try_catch in *.
      destruct (match messages with
                | Some (m :: ms) =>
                    for_each (m :: ms)
                      (annotateMessage C convert annotatePrompt annotations
                         gmail userId)
                | _ => ret tt
                end w1) as [[[]|e|] w2]; cbn [fst snd log] in *;
        [reflexivity | reflexivity | contradiction].
    + split; [|exact Hall]. rewrite Htr. unfold w1. cbn [trace].
      rewrite <- app_assoc. reflexivity.
Qed.

Lemma inside_thread_requests (rest : list Event) :
  Forall inside_thread rest -> thread_requests rest = [].
Proof.
  induction 1 as [|ev rest Hev _ IH]; [reflexivity|].
  destruct ev; try contradiction; exact IH.
Qed.

Lemma thread_requests_app (l1 l2 : list Event) :
  thread_requests (l1 ++ l2) = thread_requests l1 ++ thread_requests l2.
Proof. apply omap_app. Qed.

Lemma for_each_threads (annotations : option (list string))
    (gmail userId : string) (threadIds : list string) (w : World S) :
  exists new,
    for_each threadIds
      (annotateThread C convert annotatePrompt annotations gmail userId) w
    = (Returned tt,
       (for_each threadIds
          (annotateThread C convert annotatePrompt annotations gmail userId)
          w).2)
    /\ trace (for_each threadIds
               (annotateThread C convert annotatePrompt annotations gmail
                  userId) w).2
       = trace w ++ new
    /\ thread_requests new = threadIds
    /\ Forall (writes_new annotations) new
    /\ (annotatePrompt = false -> Forall idle_event new).
Proof.
  revert w. induction threadIds as [|t threadIds IH]; intros w.
  - exists []. cbn [for_each ret snd]. rewrite app_nil_r.
    repeat split; constructor.
  - destruct (annotateThread_spec annotations gmail userId t w)
      as (rest & Hrun & Htr & Hin).
    assert (meets (writes_new annotations) (fun _ => True)
              (annotateThread C convert annotatePrompt annotations gmail
                 userId t)) as Hnew.
    { unfold annotateThread. meets_auto. apply annotateMessage_skips. }
    assert (annotatePrompt = false ->
            meets idle_event (fun _ => True)
              (annotateThread C convert annotatePrompt annotations gmail
                 userId t)) as Hidle.
    { intros Hp. unfold annotateThread. meets_auto.
      apply annotateMessage_idle, Hp. }
    destruct (Hnew w) as (new1 & Htr1 & Hall1 & _).
    rewrite Htr in Htr1. apply app_inv_head in Htr1. subst new1.
    cbn [for_each]. unfold bind. rewrite Hrun.
    destruct (IH (annotateThread C convert annotatePrompt annotations gmail
                    userId t w).2) as (new2 & Hrun2 & Htr2 & Hreq2 & Hall2
                                       & Hidle2).
    exists ((EvThreadsGet t :: rest) ++ new2).
    split; [rewrite Hrun2 at 1; reflexivity|].
    split; [rewrite Htr2, Htr, app_assoc; reflexivity|].
    split.
    { rewrite thread_requests_app.
      change (thread_requests (EvThreadsGet t :: rest))
        with (t :: thread_requests rest).
      rewrite (inside_thread_requests _ Hin), Hreq2. reflexivity. }
    split; [apply Forall_app; split; assumption|].
    intros Hp. apply Forall_app. split; [|apply Hidle2, Hp].
    destruct (Hidle Hp w) as (new1 & Htr1 & Hall1' & _).
    rewrite Htr in Htr1. apply app_inv_head in Htr1. subst new1.
    exact Hall1'.
Qed.

(** X18. [autoAnnotate] rejects exactly when its first query rejects,
    and then asks nothing else. Otherwise it returns, having requested
    every thread it was given once and in order, whatever failed inside
    the threads; it writes no annotation for a message that the user's
    annotations already hold; and when the prompt could not be loaded at
    start-up, it neither asks the language model nor writes anything. *)
Theorem autoAnnotate_requests_every_thread (gmail : string)
    (threadIds : list string) (userId : string) (w : World S) :
  exists new,
    trace (autoAnnotate C convert annotatePrompt gmail threadIds userId w).2
    = trace w ++ new
    /\ match select_annotations C userId (ext w).1 with
       | (inl err, _) =>
           (autoAnnotate C convert annotatePrompt gmail threadIds userId w).1
           = Thrown err
           /\ new = [EvSelectAnnotations userId;
                     EvLog (ErrorFailedToProcessThreads err)]
       | (inr annotations, _) =>
           (exists results,
               (autoAnnotate C convert annotatePrompt gmail threadIds userId
                  w).1 = Returned results)
           /\ thread_requests new = threadIds
           /\ Forall (writes_new annotations) new
           /\ (annotatePrompt = false -> Forall idle_event new)
       end.
Proof.
  unfold autoAnnotate. rewrite try_catch_remote. cbn [ext trace fst snd].
  destruct (select_annotations C userId (ext w).1) as [[err|annotations] s'].
  - eexists. cbn [bind log throw record trace ext fst snd].
    rewrite <- app_assoc. repeat split.
  - match goal with
    | |- context [try_catch _ _ ?w1] =>
        destruct (for_each_threads annotations gmail userId threadIds w1)
          as (new & Hrun & Htr & Hreq & Hall & Hidle)
    end.
    exists (EvSelectAnnotations userId :: new).
    match goal with
    | |- context [try_catch ?m ?h ?w1] =>
        assert (try_catch m h w1
                = (Returned
                     (ext (for_each threadIds
                             (annotateThread C convert annotatePrompt
                                annotations gmail userId) w1).2).2,
                   (for_each threadIds
                      (annotateThread C convert annotatePrompt annotations
                         gmail userId) w1).2)) as ->
          by (unfold try_catch, bind; rewrite Hrun; reflexivity)
    end.
    cbn [fst snd].
    split; [rewrite Htr; cbn [trace]; rewrite <- app_assoc; reflexivity|].
    split; [eexists; reflexivity|].
    split; [exact Hreq|].
    split; [constructor; [exact I | exact Hall]|].
    intros Hp. constructor; [exact I | apply Hidle, Hp].
Qed.

(** X19. [saveAnnotation] cannot do without a recipient: called with
    [null], which is what [saveRecipient] returns when its upsert
    resolves without data, it requests the enumerations and then
    rejects, and no annotation is written. And what [saveRecipient]
    returns is the [data] of an answer to its upsert. *)
Theorem saveAnnotation_needs_recipient (email : MessageData)
    (annotation : Annotation) (sender : Sender) (userId : string)
    (w : World S) :
  (exists new e,
      saveAnnotation C convert email None (Some annotation) userId w
      = (Thrown e,
         (saveAnnotation C convert email None (Some annotation) userId w).2)
      /\ trace (saveAnnotation C convert email None (Some annotation) userId
                 w).2
         = trace w ++ new
      /\ Forall is_get_types new)
  /\ (forall recipient,
        (saveRecipient C sender userId w).1 = Returned recipient ->
        exists row s q s',
          upsert_recipient C row s = (inr q, s') /\ recipient = data q).
Proof.
  split.
  - assert (meets is_get_types (fun _ : option string => False)
              (saveAnnotation C convert email None (Some annotation) userId))
      as Hrun by (unfold saveAnnotation, validated; meets_auto).
    destruct (Hrun w) as (new & Htr & Hall & Hout).
    destruct (saveAnnotation C convert email None (Some annotation) userId w)
      as [[r|e|] w'] eqn:Hsave; cbn [fst snd] in *; try contradiction.
    exists new, e. repeat split; assumption.
  - intros recipient. unfold saveRecipient, bind at 1, remote at 1, call.
    destruct (get_types C "relationship" (ext w).1) as [[e1|[rels|]] s1];
      cbn [fst snd throw]; try discriminate.
    cbv zeta. unfold bind at 1, remote, call. cbn [ext fst snd].
    match goal with
    | |- context [upsert_recipient C ?row s1] =>
        destruct (upsert_recipient C row s1) as [[e2|q] s2] eqn:Hup;
        [discriminate|]; exists row, s1, q, s2
    end.
    split; [exact Hup|]. revert H. unfold bind.
    destruct (error q); cbn [log ret fst snd]; intros [= <-]; reflexivity.
Qed.

End AgentsProperties.

(** * Properties of the shutdown *)

Section LifecycleProperties.
Import Lifecycle.
#[local] Open Scope effects_scope.
Context {S : Type} (P : Process S) (receiver : bool).

(** The wait looks at the count once a second, and ends the first time
    the count is zero. *)
Lemma wait_for_active_run (fuel : nat) (w : World S) :
  match wait_for_active P fuel w with
  | (Returned _, w') =>
      exists n,
        (1 <= n <= fuel)%nat
        /\ w' = mkWorld (Nat.iter n (tick P) (ext w))
                  (trace w ++ replicate n EvSecond)
        /\ count_after P n (ext w) = 0
        /\ (forall k, (1 <= k < n)%nat -> count_after P k (ext w) <> 0)
  | (Thrown _, _) => False
  | (OutOfFuel, w') =>
      w' = mkWorld (Nat.iter fuel (tick P) (ext w))
             (trace w ++ replicate fuel EvSecond)
      /\ (forall k, (1 <= k <= fuel)%nat -> count_after P k (ext w) <> 0)
  end.
Proof.
  revert w. induction fuel as [|fuel IH]; intros w; cbn [wait_for_active].
  - unfold out_of_fuel. cbn [Nat.iter replicate]. rewrite app_nil_r.
    destruct w. split; [reflexivity|]. intros k Hk. lia.
  - cbv zeta. cbn [ext].
    destruct (Z.eqb_spec (activeProcessingCount P (tick P (ext w))) 0)
      as [Hz|Hnz].
    + exists 1%nat. split; [lia|]. split; [reflexivity|].
      split; [exact Hz|]. intros k Hk. lia.
    + specialize (IH (mkWorld (tick P (ext w)) (trace w ++ [EvSecond]))).
      destruct (wait_for_active P fuel _) as [[[]|e|] w']; cbn [ext trace] in IH.
      * destruct IH as (n & Hn & -> & Hzero & Hbefore).
        exists (Datatypes.S n). split; [lia|].
        unfold count_after in *. rewrite Nat.iter_succ_r.
        split; [cbn [replicate]; rewrite <- app_assoc; reflexivity|].
        split; [exact Hzero|].
        intros k Hk. destruct k as [|k]; [lia|]. rewrite Nat.iter_succ_r.
        destruct k as [|k]; [exact Hnz|]. apply Hbefore. lia.
      * exact IH.
      * destruct IH as (-> & Hbefore).
        unfold count_after in *. rewrite Nat.iter_succ_r.
        split; [cbn [replicate]; rewrite <- app_assoc; reflexivity|].
        intros k Hk. destruct k as [|k]; [lia|]. rewrite Nat.iter_succ_r.
        destruct k as [|k]; [exact Hnz|]. apply Hbefore. lia.
Qed.

(** A [try] block, one step in. *)
Lemma try_catch_bind {A B} (m : Run S A) (k : A -> Run S B)
    (h : Err -> Run S B) (w : World S) :
  try_catch (bind m k) h w
  = match m w with
    | (Returned a, w') => try_catch (k a) h w'
    | (Thrown e, w') => h e w'
    | (OutOfFuel, w') => (OutOfFuel, w')
    end.
Proof.
  unfold try_catch, bind. destruct (m w) as [[a|e|] w']; reflexivity.
Qed.

(** The closing of the connections: each is requested, in order, up to
    the first request that fails. *)
Lemma closing_run (w : World S) :
  try_catch
    (do! (if receiver
          then call (fun _ => EvReceiverClose) (receiver_close P)
          else ret tt) in
     do! call (fun _ => EvClientClose) (sbClient_close P) in
     do! call (fun _ => EvRedisQuit) (redis_quit P) in
     log LogCleanedUp)
    (fun error => log (ErrorDuringCleanup error)) w
  = (Returned tt,
     mkWorld (close_each (closers P receiver) (ext w)).2
       (trace w ++ (close_each (closers P receiver) (ext w)).1.1
        ++ [closing_line (close_each (closers P receiver) (ext w)).1.2])).
Proof.
  unfold try_catch, bind, call, log, record, ret, closers.
  destruct receiver; cbn [app close_each].
  - destruct (receiver_close P (ext w)) as [[e1|[]] s1]; cbn [ext trace];
      [rewrite <- !app_assoc; reflexivity|].
    destruct (sbClient_close P s1) as [[e2|[]] s2]; cbn [ext trace];
      [rewrite <- !app_assoc; reflexivity|].
    destruct (redis_quit P s2) as [[e3|[]] s3]; cbn [ext trace];
      rewrite <- !app_assoc; reflexivity.
  - destruct (sbClient_close P (ext w)) as [[e2|[]] s2]; cbn [ext trace];
      [rewrite <- !app_assoc; reflexivity|].
    destruct (redis_quit P s2) as [[e3|[]] s3]; cbn [ext trace];
      rewrite <- !app_assoc; reflexivity.
Qed.

(** The requests made are the first connections, and all of them unless
    one of the requests failed; there is always a first request. *)
Lemma close_each_connections (s : S) :
  (close_each (closers P receiver) s).1.1 `prefix_of` connections receiver
  /\ (close_each (closers P receiver) s).1.1 <> []
  /\ ((close_each (closers P receiver) s).1.2 = None ->
      (close_each (closers P receiver) s).1.1 = connections receiver)
  /\ (forall e, (close_each (closers P receiver) s).1.2 = Some e ->
      exists done ev f s0 s1,
        closers P receiver !! length done = Some (ev, f)
        /\ (close_each (closers P receiver) s).1.1 = done ++ [ev]
        /\ f s0 = (inl e, s1)
        /\ (close_each (closers P receiver) s).2 = s1).
Proof.
  unfold closers, connections.
  destruct receiver; cbn [app close_each].
  - destruct (receiver_close P s) as [[e1|[]] s1] eqn:H1; cbn [fst snd].
    { split; [exists [EvClientClose; EvRedisQuit]; reflexivity|].
      split; [discriminate|]. split; [discriminate|].
      intros e [= <-]. exists [], EvReceiverClose, (receiver_close P), s, s1.
      repeat split. exact H1. }
    destruct (sbClient_close P s1) as [[e2|[]] s2] eqn:H2; cbn [fst snd].
    { split; [exists [EvRedisQuit]; reflexivity|].
      split; [discriminate|]. split; [discriminate|].
      intros e [= <-].
      exists [EvReceiverClose], EvClientClose, (sbClient_close P), s1, s2.
      repeat split. exact H2. }
    destruct (redis_quit P s2) as [[e3|[]] s3] eqn:H3; cbn [fst snd].
    { split; [reflexivity|]. split; [discriminate|].
      split; [discriminate|]. intros e [= <-].
      exists [EvReceiverClose; EvClientClose], EvRedisQuit, (redis_quit P),
        s2, s3.
      repeat split. exact H3. }
    split; [reflexivity|]. split; [discriminate|].
    split; [reflexivity|]. intros e. discriminate.
  - destruct (sbClient_close P s) as [[e2|[]] s2] eqn:H2; cbn [fst snd].
    { split; [exists [EvRedisQuit]; reflexivity|].
      split; [discriminate|]. split; [discriminate|].
      intros e [= <-]. exists [], EvClientClose, (sbClient_close P), s, s2.
      repeat split. exact H2. }
    destruct (redis_quit P s2) as [[e3|[]] s3] eqn:H3; cbn [fst snd].
    { split; [reflexivity|]. split; [discriminate|].
      split; [discriminate|]. intros e [= <-].
      exists [EvClientClose], EvRedisQuit, (redis_quit P), s2, s3.
      repeat split. exact H3. }
    split; [reflexivity|]. split; [discriminate|].
    split; [reflexivity|]. intros e. discriminate.
Qed.

(** X20. [onModuleDestroy] never rejects. With no message in flight it
    requests at once the closing of the receiver (if there is one), of
    the bus client and of the Redis connection, in this order, each one
    after the one before has answered; all of them are requested unless
    a request fails, and a failed request is the last one made, which
    leaves the later connections open. The run ends with the success
    line when no request failed and with the error line otherwise. With
    messages in flight it first logs their number and looks at the count
    once a second: the first request is made after the first second at
    which the count is zero, and if the count is never zero the run does
    not settle and requests nothing. *)
Theorem onModuleDestroy_closes_in_order (fuel : nat) (w : World S) :
  (forall e, (onModuleDestroy P receiver fuel w).1 <> Thrown e)
  /\ ((onModuleDestroy P receiver fuel w).1 = Returned tt ->
      exists n,
        (if activeProcessingCount P (ext w) >? 0
         then (1 <= n <= fuel)%nat
              /\ count_after P n (ext w) = 0
              /\ (forall k, (1 <= k < n)%nat -> count_after P k (ext w) <> 0)
         else n = 0%nat)
        /\ (onModuleDestroy P receiver fuel w).2
           = mkWorld
               (close_each (closers P receiver)
                  (Nat.iter n (tick P) (ext w))).2
               (trace w
                ++ (if activeProcessingCount P (ext w) >? 0
                    then EvLog (LogWaitingForActive
                                  (activeProcessingCount P (ext w)))
                         :: replicate n EvSecond
                    else [])
                ++ (close_each (closers P receiver)
                      (Nat.iter n (tick P) (ext w))).1.1
                ++ [closing_line
                      (close_each (closers P receiver)
                         (Nat.iter n (tick P) (ext w))).1.2]))
  /\ ((onModuleDestroy P receiver fuel w).1 = OutOfFuel ->
      0 < activeProcessingCount P (ext w)
      /\ (forall k, (1 <= k <= fuel)%nat -> count_after P k (ext w) <> 0)
      /\ (onModuleDestroy P receiver fuel w).2
         = mkWorld (Nat.iter fuel (tick P) (ext w))
             (trace w
              ++ EvLog (LogWaitingForActive (activeProcessingCount P (ext w)))
                 :: replicate fuel EvSecond))
  /\ (forall s,
        (close_each (closers P receiver) s).1.1
          `prefix_of` connections receiver
        /\ (close_each (closers P receiver) s).1.1 <> []
        /\ ((close_each (closers P receiver) s).1.2 = None ->
            (close_each (closers P receiver) s).1.1 = connections receiver)
        /\ (forall e, (close_each (closers P receiver) s).1.2 = Some e ->
            exists done ev f s0 s1,
              closers P receiver !! length done = Some (ev, f)
              /\ (close_each (closers P receiver) s).1.1 = done ++ [ev]
              /\ f s0 = (inl e, s1)
              /\ (close_each (closers P receiver) s).2 = s1)).
Proof.
  assert ((forall e, (onModuleDestroy P receiver fuel w).1 <> Thrown e)
          /\ ((onModuleDestroy P receiver fuel w).1 = Returned tt ->
              exists n,
                (if activeProcessingCount P (ext w) >? 0
                 then (1 <= n <= fuel)%nat
                      /\ count_after P n (ext w) = 0
                      /\ (forall k, (1 <= k < n)%nat ->
                                    count_after P k (ext w) <> 0)
                 else n = 0%nat)
                /\ (onModuleDestroy P receiver fuel w).2
                   = mkWorld
                       (close_each (closers P receiver)
                          (Nat.iter n (tick P) (ext w))).2
                       (trace w
                        ++ (if activeProcessingCount P (ext w) >? 0
                            then EvLog (LogWaitingForActive
                                          (activeProcessingCount P (ext w)))
                                 :: replicate n EvSecond
                            else [])
                        ++ (close_each (closers P receiver)
                              (Nat.iter n (tick P) (ext w))).1.1
                        ++ [closing_line
                              (close_each (closers P receiver)
                                 (Nat.iter n (tick P) (ext w))).1.2]))
          /\ ((onModuleDestroy P receiver fuel w).1 = OutOfFuel ->
              0 < activeProcessingCount P (ext w)
              /\ (forall k, (1 <= k <= fuel)%nat ->
                            count_after P k (ext w) <> 0)
              /\ (onModuleDestroy P receiver fuel w).2
                 = mkWorld (Nat.iter fuel (tick P) (ext w))
                     (trace w
                      ++ EvLog (LogWaitingForActive
                                  (activeProcessingCount P (ext w)))
                         :: replicate fuel EvSecond))) as (H1 & H2 & H3).
  2:{ split; [exact H1|]. split; [exact H2|]. split; [exact H3|].
      intros s. apply close_each_connections. }
  destruct (onModuleDestroy P receiver fuel w) as [o wf] eqn:Hfull.
  cbn [fst snd]. revert Hfull.
  unfold onModuleDestroy. rewrite try_catch_bind.
  destruct (Z.gtb_spec (activeProcessingCount P (ext w)) 0) as [Hpos|Hle].
  - unfold bind at 1, log at 1.
    set (w1 := record (EvLog (LogWaitingForActive
                                (activeProcessingCount P (ext w)))) w).
    pose proof (wait_for_active_run fuel w1) as Hwait.
    destruct (wait_for_active P fuel w1) as [[[]|e|] w2];
      [|contradiction|].
    + destruct Hwait as (n & Hn & -> & Hzero & Hbefore).
      rewrite closing_run. cbn [ext trace]. intros [= <- <-].
      split; [intros; discriminate|]. split; [|intros; discriminate].
      intros _. exists n.
      split; [split; [exact Hn|]; split; [exact Hzero | exact Hbefore]|].
      rewrite <- !app_assoc. reflexivity.
    + destruct Hwait as (-> & Hbefore). intros [= <- <-].
      split; [intros; discriminate|]. split; [intros; discriminate|].
      intros _. split; [lia|]. split; [exact Hbefore|].
      unfold w1, record. cbn [ext trace].
      rewrite <- !app_assoc. reflexivity.
  - cbn [ret]. rewrite closing_run. intros [= <- <-].
    split; [intros; discriminate|]. split; [|intros; discriminate].
    intros _. exists 0%nat. split; [reflexivity|]. reflexivity.
Qed.

End LifecycleProperties.

(** * The properties on concrete runs *)

Import Examples.

(** C1 on two runs: a user at the cap, with no fuel at all, and the user
    [u1] of the two-page mailbox. *)
Lemma fetchNewThreads_postcondition_witness :
  (exists w',
      fetchNewThreads (scripted calm) 0 "tok" (replicate 500 "t") "u1"
        "pagination:u1" idle = (Returned [], w')
      /\ ext w' = ext idle
      /\ observe is_list_call (trace w') = observe is_list_call (trace idle)
      /\ observe (fun ev => negb (is_log ev)) (trace w')
         = observe (fun ev => negb (is_log ev)) (trace idle)
           ++ [EvRedisGet "pagination:u1"])
  /\ (fetchNewThreads (scripted calm) 5 "tok" ["t2"] "u1" "pagination:u1"
        idle).1 = Returned ["t1"; "t3"]
  /\ NoDup ["t1"; "t3"]
  /\ (forall x, x ∈ ["t1"; "t3"] -> x ∉ ["t2"])
  /\ Z.of_nat (length ["t1"; "t3"])
     <= MAX_THREADS_PER_USER - Z.of_nat (length ["t2"]).
Proof.
  split; [|split].
  - apply (proj1 (fetchNewThreads_postcondition (scripted calm) 0 "tok"
                    (replicate 500 "t") "u1" "pagination:u1" idle)).
    vm_compute. discriminate.
  - vm_compute. reflexivity.
  - apply (proj2 (fetchNewThreads_postcondition (scripted calm) 5 "tok"
                    ["t2"] "u1" "pagination:u1" idle))
      with (w' := (fetchNewThreads (scripted calm) 5 "tok" ["t2"] "u1"
                     "pagination:u1" idle).2).
    + vm_compute. reflexivity.
    + vm_compute. reflexivity.
Defined.

(** C2 on a run: [a] is admitted from the idle service, the state after
    admission is reachable, and the settled handler has released [a]. *)
Lemma admission_gate_invariant_witness :
  activeProcessingCount (acquire "a" idle) <= MAX_CONCURRENT_MESSAGES
  /\ onMessage (scripted calm) 5 (msg (Some "b") None)
       (mkWorld 10 ∅ ∅ 0%nat [])
     = (Returned tt,
        record (EvLog DebugMaxConcurrent) (mkWorld 10 ∅ ∅ 0%nat []))
  /\ activeProcessingCount
       (onMessage (scripted calm) 5 (msg (Some "a") None) idle).2 = 0
  /\ "a" ∉ processingMessages
             (onMessage (scripted calm) 5 (msg (Some "a") None) idle).2.
Proof.
  pose proof (admission_gate_invariant (scripted calm))
    as (_ & _ & Hreach & Hfull & _ & Hdone).
  split; [|split].
  - apply (Hreach (mkSys idle []) (mkSys (acquire "a" idle) ["a"])).
    + repeat split.
    + apply rtc_once.
      apply (step_delivery (msg (Some "a") None) idle [] true).
      vm_compute. reflexivity.
  - destruct (Hfull 5%nat (msg (Some "b") None) (mkWorld 10 ∅ ∅ 0%nat []))
      as (l & Hhead & Hrun).
    + left. vm_compute. discriminate.
    + rewrite Hrun. f_equal. f_equal. f_equal.
      revert Hhead. vm_compute. intros [= <-]. reflexivity.
  - destruct (Hdone 5%nat (msg (Some "a") None) idle
                (onMessage (scripted calm) 5 (msg (Some "a") None) idle).1
                (onMessage (scripted calm) 5 (msg (Some "a") None) idle).2)
      as (_ & _ & Hout & Hcount).
    + vm_compute. reflexivity.
    + vm_compute. reflexivity.
    + vm_compute. discriminate.
    + split; [exact Hcount | exact Hout].
Defined.

(** C3 on a run: the second page cannot be fetched and the message comes
    with delivery count 4; it is dead-lettered. *)
Lemma failure_abandons_or_dead_letters_witness :
  observe is_settlement
    (trace (onMessage throttled 5 (msg (Some "a") (Some 4)) idle).2)
  = [EvDeadLetter (msg (Some "a") (Some 4)) "Max retries exceeded"
       "rate limit exceeded"].
Proof.
  destruct (failure_abandons_or_dead_letters throttled 5
              (msg (Some "a") (Some 4)) idle "rate limit exceeded"
              (guarded throttled 5 (msg (Some "a") (Some 4))
                 (acquire "a" idle)).2) as (H & _).
  - vm_compute. reflexivity.
  - vm_compute. reflexivity.
  - rewrite H. vm_compute. reflexivity.
Defined.

(** C4 on a run: [a] is delivered again while it is in flight. *)
Lemma admission_refused_exactly_when_witness :
  admission_refused (msg (Some "a") None) busy = true
  /\ onMessage (scripted calm) 5 (msg (Some "a") None) busy
     = (Returned tt, record (EvLog (DebugAlreadyProcessing "a")) busy)
  /\ redis (onMessage (scripted calm) 5 (msg (Some "a") None) busy).2
     = redis busy
  /\ ext (onMessage (scripted calm) 5 (msg (Some "a") None) busy).2
     = ext busy.
Proof.
  destruct (admission_refused_exactly_when (scripted calm) 5
              (msg (Some "a") None) busy) as (Hiff & Href & _).
  assert (admission_refused (msg (Some "a") None) busy = true) as Hr.
  { apply Hiff. right. vm_compute. reflexivity. }
  destruct (Href Hr) as (_ & _ & _ & Hredis & Hext & _).
  split; [exact Hr|]. split; [vm_compute; reflexivity|].
  split; [exact Hredis | exact Hext].
Defined.

(** C5 on a run: the listing of the two-page mailbox is exhausted and the
    cursor entry is deleted; the same block, run on a token that remains
    with capacity left, writes the token with the expiry of 3600
    seconds. *)
Lemma cursor_written_iff_more_pages_witness :
  cursor_updated (scripted calm) 5 "tok" ["t2"] "pagination:u1" resumed
    ["t1"; "t3"]
    (fetchNewThreads (scripted calm) 5 "tok" ["t2"] "u1" "pagination:u1"
       resumed).2
  /\ redis (fetchNewThreads (scripted calm) 5 "tok" ["t2"] "u1"
             "pagination:u1" resumed).2 !! "pagination:u1" = None
  /\ update_pagination "pagination:u1" (JsString "p2") ["t1"] 499 idle
     = (Returned tt,
        set_redis (<["pagination:u1" := ("p2", 3600)]> (redis idle))
          (record (EvRedisSet "pagination:u1" "p2" 3600) idle)).
Proof.
  destruct (cursor_written_iff_more_pages (scripted calm) 5 "tok" ["t2"]
              "u1" "pagination:u1" resumed ["t1"; "t3"]
              (fetchNewThreads (scripted calm) 5 "tok" ["t2"] "u1"
                 "pagination:u1" resumed).2)
    as (Hupd & _ & Hblock & Hdel & _).
  - vm_compute. reflexivity.
  - vm_compute. reflexivity.
  - split; [exact Hupd|]. split.
    + rewrite Hdel. apply lookup_delete_eq.
    + destruct (Hblock (JsString "p2") ["t1"] 499 idle) as [Hset _].
      destruct Hset as (token & Htoken & Hrun).
      * split; [reflexivity | reflexivity].
      * injection Htoken as <-. exact Hrun.
Defined.


(** C7 on a run: thread [t1] cannot be fetched; its entry is [null] and
    [t3] is fetched. *)
Lemma sub_fetch_failures_in_a_slice_witness :
  (fetchThreadsData (scripted thread_t1_fails) "tok" ["t1"; "t3"] idle).1
  = Returned [None; Some {| messages := Some [JsString "m-t3"] |}]
  /\ exists l,
       (fetchThreadsData (scripted thread_t1_fails) "tok" ["t1"; "t3"] idle).1
       = Returned l
       /\ Forall2 (answer_of (scripted thread_t1_fails) "tok") ["t1"; "t3"] l
       /\ observe is_thread_get
            (trace (fetchThreadsData (scripted thread_t1_fails) "tok"
                      ["t1"; "t3"] idle).2)
          = observe is_thread_get (trace idle)
            ++ map EvThreadsGet ["t1"; "t3"].
Proof.
  split; [vm_compute; reflexivity|].
  exact (proj1 (sub_fetch_failures_in_a_slice (scripted thread_t1_fails)
                  "tok" ["t1"; "t3"] "u1" idle)).
Defined.

(** C7 as stated fails: the body of one message cannot be fetched, the
    rejection leaves [batchGetMessages], and the slice is abandoned
    before annotation and embedding. *)
Lemma message_fetch_failure_fails_slice :
  (batchGetMessages (scripted message_fails) "tok"
     [JsString "m-t1"; JsString "m-t3"] idle).1 = Thrown "message gone"
  /\ observe is_message_get
       (trace (processBatch (scripted message_fails) "tok" ["t1"; "t3"] "u1"
                 idle).2)
     = [EvMessagesGet (JsString "m-t1"); EvMessagesGet (JsString "m-t3")]
  /\ observe is_annotation_call
       (trace (processBatch (scripted message_fails) "tok" ["t1"; "t3"] "u1"
                 idle).2) = []
  /\ observe is_embedding_call
       (trace (processBatch (scripted message_fails) "tok" ["t1"; "t3"] "u1"
                 idle).2) = []
  /\ observe is_embedding_call
       (trace (processBatch (scripted calm) "tok" ["t1"; "t3"] "u1" idle).2)
     <> [].
Proof. vm_compute. repeat split; discriminate. Qed.

(** C8 on a run: annotating [t1] fails inside [autoAnnotate]; the
    embedding step still starts for both threads of the slice. *)
Lemma dispatch_of_a_slice_witness :
  observe is_embedding_start
    (trace (processBatch (scripted annotate_t1_fails) "tok" ["t1"; "t3"] "u1"
              idle).2)
  = [EvSelectAnnotations "t1" "u1"; EvSelectAnnotations "t3" "u1"].
Proof.
  pose (X := scripted annotate_t1_fails).
  pose (w1 := (fetchThreadsData X "tok" ["t1"; "t3"] idle).2).
  pose (l := [Some {| messages := Some [JsString "m-t1"] |};
              Some {| messages := Some [JsString "m-t3"] |}]).
  pose (w2 := (batchGetMessages X "tok" (extractMessageIds l) w1).2).
  destruct (dispatch_of_a_slice X "tok" ["t1"; "t3"] "u1" idle l w1
              [tt; tt] w2) as (_ & Hreturns & _).
  - vm_compute. reflexivity.
  - vm_compute. discriminate.
  - vm_compute. reflexivity.
  - destruct (Hreturns (autoAnnotate X "tok" ["t1"; "t3"] "u1" w2).2)
      as (_ & Hobs).
    + vm_compute. reflexivity.
    + refine (eq_trans Hobs _). vm_compute. reflexivity.
Defined.

(** C8 as stated fails: the annotation call fails, and no embedding call
    is made for the threads of the slice. *)
Lemma annotation_failure_skips_embedding :
  observe is_annotation_call
    (trace (processBatch (scripted annotation_down) "tok" ["t1"; "t3"] "u1"
              idle).2) = [EvSelectUserAnnotations "u1"]
  /\ observe is_slice_error
       (trace (processBatch (scripted annotation_down) "tok" ["t1"; "t3"]
                 "u1" idle).2)
     = [EvLog (ErrorProcessingBatch "database unavailable")]
  /\ observe is_embedding_call
       (trace (processBatch (scripted annotation_down) "tok" ["t1"; "t3"]
                 "u1" idle).2) = [].
Proof. vm_compute. repeat split. Qed.



(** C10 on a run: two different messages without identifier; the second
    arrives while the first is in flight. *)
Lemma messages_without_id_collide_witness :
  admission_key (msg None None) = ""
  /\ admission_key (msg None (Some 1)) = ""
  /\ admission_refused (msg None (Some 1)) (acquire "" idle) = true
  /\ onMessage (scripted calm) 5 (msg None (Some 1)) (acquire "" idle)
     = (Returned tt,
        record (EvLog (DebugAlreadyProcessing "")) (acquire "" idle)).
Proof.
  apply (messages_without_id_collide (scripted calm) 5 (msg None None)
           (msg None (Some 1)) idle (acquire "" idle)).
  - reflexivity.
  - reflexivity.
  - discriminate.
  - vm_compute. reflexivity.
  - split; reflexivity.
Defined.

(** X7 on a run: the ledger of [u1] holds [t2], discovery finds [t1]
    and [t3] in the two-page mailbox, and the delivery requests these two
    threads. *)
Lemma processMessage_requests_new_threads_witness :
  observe is_thread_get
    (trace (processMessage (scripted calm) 5 (msg (Some "a") None) idle).2)
  = [EvThreadsGet "t1"; EvThreadsGet "t3"].
Proof.
  pose (w1 := (getExistingThreads (scripted calm) "u1"
                 (record (EvLog (DebugProcessingForUser "u1")) idle)).2).
  destruct (proj1 (processMessage_requests_new_threads (scripted calm) 5
                     (msg (Some "a") None) idle)
              {| userId := "u1"; accessToken := "tok"; isNewUser := false |}
              ["t2"] w1 ["t1"; "t3"]
              (fetchNewThreads (scripted calm) 5 "tok" ["t2"] "u1"
                 "pagination:u1" w1).2) as (_ & Hgets & _).
  - reflexivity.
  - vm_compute. reflexivity.
  - vm_compute. reflexivity.
  - exact Hgets.
Defined.

(** X3 on a run: [t3], found for [u1] in the two-page mailbox, is shown
    by the listing, on its second page. *)
Lemma fetchNewThreads_returns_listed_threads_witness :
  shows (scripted calm) "tok" (stored "pagination:u1" idle) (ext idle) "t3"
  /\ "t3" <> "".
Proof.
  apply (fetchNewThreads_returns_listed_threads (scripted calm) 5 "tok"
           ["t2"] "u1" "pagination:u1" idle ["t1"; "t3"]
           (fetchNewThreads (scripted calm) 5 "tok" ["t2"] "u1"
              "pagination:u1" idle).2 "t3").
  - vm_compute. reflexivity.
  - repeat constructor.
Defined.

(** X4 on the same run: two threads were found where 499 were allowed,
    and [t3], which the second page shows, is among them. *)
Lemma fetchNewThreads_complete_below_cap_witness :
  "t3" ∈ ["t1"; "t3"].
Proof.
  apply (fetchNewThreads_complete_below_cap (scripted calm) 5 "tok"
           ["t2"] "u1" "pagination:u1" idle ["t1"; "t3"]
           (fetchNewThreads (scripted calm) 5 "tok" ["t2"] "u1"
              "pagination:u1" idle).2 "t3").
  - vm_compute. reflexivity.
  - vm_compute. reflexivity.
  - apply (shows_later (scripted calm) "tok" JsNull 0%nat page_one 1%nat);
      [reflexivity | reflexivity |].
    apply (shows_here (scripted calm) "tok" (JsString "p2") 1%nat page_two
             2%nat); [reflexivity|].
    repeat constructor.
  - discriminate.
  - apply not_elem_of_cons. split; [discriminate | apply not_elem_of_nil].
Defined.

(** X6 on a run: with the cursor [p1] stored for [u1], discovery reads
    the cursor and requests the page at [p1]. *)
Lemma fetchNewThreads_resumes_at_cursor_witness :
  (trace resumed
   ++ [EvRedisGet "pagination:u1";
       EvThreadsList (stored "pagination:u1" resumed)])
    `prefix_of`
    trace (fetchNewThreads (scripted calm) 5 "tok" ["t2"] "u1"
             "pagination:u1" resumed).2.
Proof.
  apply (fetchNewThreads_resumes_at_cursor (scripted calm) 4 "tok" ["t2"]
           "u1" "pagination:u1" resumed).
  vm_compute. reflexivity.
Defined.

(** ** The embeddings service on concrete runs *)

Section EmbeddingsRuns.
Import Embeddings EmbeddingsExamples.

(** X13 on a run: two messages under a persistent rate limit. *)
Lemma extractStylePatterns_under_rate_limit_witness :
  exists w' new,
    extractStylePatterns rate_limited [row1; row2] fresh
    = (Returned (to_result empty_patterns), w')
    /\ trace w' = trace fresh ++ new
    /\ requests new = [row1; row1; row1; row2; row2; row2]
    /\ pauses new = [8000; 16000; 8000; 16000]
    /\ length (errors new) = 4%nat.
Proof.
  apply (extractStylePatterns_under_rate_limit rate_limited [row1; row2]
           fresh).
  intros m s. exists "429 Too Many Requests", (Datatypes.S s).
  split; [reflexivity | vm_compute; reflexivity].
Defined.

(** X15 on a run: the thread [t1] of [u1], with two annotated messages
    and a language model that answers. *)
Lemma processThread_extracts_twice_witness :
  exists new counts1 counts2,
    trace (processThread steady render_recipient same_date (JsString "u1")
             thread_t1 "r" fresh).2
    = trace fresh ++ new
    /\ Forall2 (fun _ c => (1 <= c <= MAX_RETRIES)%nat) [row1; row2] counts1
    /\ Forall2 (fun _ c => (1 <= c <= MAX_RETRIES)%nat) [row1; row2] counts2
    /\ requests new
       = attempts [row1; row2] counts1 ++ attempts [row1; row2] counts2
    /\ (2 * 2 <= length (requests new) <= 6 * 2)%nat
    /\ Forall (fun row =>
                 thread_id row = "t1" /\ user_id row = "u1"
                 /\ message_count row = 2%nat)
         (upserts new).
Proof.
  apply (processThread_extracts_twice steady render_recipient same_date
           "t1" "u1" "2024-01-02" "r" fresh
           {| data := Some [row1; row2]; error := None |} 1%nat).
  - discriminate.
  - discriminate.
  - reflexivity.
Defined.

(** X16 on a run: the database answers with an error, and the row of
    [t1] is written with no message and the empty patterns. *)
Lemma processThread_without_annotations_witness :
  exists new,
    trace (processThread database_down render_recipient same_date
             (JsString "u1") thread_t1 "r" fresh).2
    = trace fresh ++ new
    /\ requests new = []
    /\ upserts new
       = [ {| thread_id := "t1"; user_id := "u1"; recipient_id := "r";
              embedding := "vector"; context := "r"; message_count := 0;
              last_message_date := "2024-01-02";
              style_patterns := empty_patterns |} ].
Proof.
  apply (processThread_without_annotations database_down render_recipient
           same_date "t1" "u1" "2024-01-02" "r" fresh
           {| data := None; error := Some "connection refused" |} 1%nat
           "vector" 2%nat).
  - discriminate.
  - discriminate.
  - reflexivity.
  - reflexivity.
  - reflexivity.
Defined.

End EmbeddingsRuns.
